(** * Candidate de-duplication, CV search and job-application rules
    of the recruitment back office

    A shallow embedding of the parts of [server/storage.ts],
    [server/routes.ts] and [server/incomingEmailService.ts] that decide
    identity resolution, phone normalisation, naive and indexed CV
    search, candidate numbering, duplicate job applications, the
    inbound-email merge and the field extraction heuristics.

    JavaScript strings are sequences of UTF-16 code units; they are
    modelled as [list N].  Values kept in the relational store use the
    same representation. *)

From Stdlib Require Import List NArith ZArith Bool Ascii Lia Arith Sorted
  Permutation.
From Stdlib Require String.
Import String.StringSyntax.
Delimit Scope string_scope with string.
Import ListNotations.
Open Scope list_scope.

Set Implicit Arguments.

(* ================================================================= *)
(** ** JavaScript strings and the built-ins the code relies on *)

Module JS.

Definition jsstring : Type := list N.

(** Source literals are written as UTF-8 text and decoded to code units. *)
Fixpoint utf8_decode (bs : list N) : jsstring :=
  match bs with
  | [] => []
  | b1 :: r1 =>
    if (b1 <? 128)%N then b1 :: utf8_decode r1
    else if (b1 <? 224)%N then
      match r1 with
      | b2 :: r2 => ((b1 - 192) * 64 + (b2 - 128))%N :: utf8_decode r2
      | [] => [b1]
      end
    else if (b1 <? 240)%N then
      match r1 with
      | b2 :: b3 :: r3 =>
        ((b1 - 224) * 4096 + (b2 - 128) * 64 + (b3 - 128))%N :: utf8_decode r3
      | _ => [b1]
      end
    else
      match r1 with
      | b2 :: b3 :: b4 :: r4 =>
        let cp := ((b1 - 240) * 262144 + (b2 - 128) * 4096
                   + (b3 - 128) * 64 + (b4 - 128) - 65536)%N in
        (55296 + cp / 1024)%N :: (56320 + cp mod 1024)%N :: utf8_decode r4
      | _ => [b1]
      end
  end.

Definition lit (s : String.string) : jsstring :=
  utf8_decode (map N_of_ascii (String.list_ascii_of_string s)).
Arguments lit _%_string.

Definition str_eqb (a b : jsstring) : bool :=
  if list_eq_dec N.eq_dec a b then true else false.

Lemma str_eqb_eq (a b : jsstring) : str_eqb a b = true <-> a = b.
Proof.
  unfold str_eqb. destruct (list_eq_dec N.eq_dec a b); split; congruence.
Qed.

Lemma str_eqb_refl (a : jsstring) : str_eqb a a = true.
Proof. now apply str_eqb_eq. Qed.

Lemma str_eqb_neq (a b : jsstring) : str_eqb a b = false <-> a <> b.
Proof.
  unfold str_eqb. destruct (list_eq_dec N.eq_dec a b); split; congruence.
Qed.

(** Truthiness of a string: only the empty string is falsy. *)
Definition truthy (s : jsstring) : bool :=
  match s with [] => false | _ :: _ => true end.

(** [WhiteSpace] and [LineTerminator] code units: the class [\s] of
    regular expressions and the characters removed by [trim]. *)
Definition isWhiteSpace (c : N) : bool :=
  ((9 <=? c) && (c <=? 13) || (c =? 32) || (c =? 160) || (c =? 5760)
   || (8192 <=? c) && (c <=? 8202) || (c =? 8232) || (c =? 8233)
   || (c =? 8239) || (c =? 8287) || (c =? 12288) || (c =? 65279))%N.

Fixpoint dropWhile (p : N -> bool) (s : jsstring) : jsstring :=
  match s with
  | [] => []
  | c :: t => if p c then dropWhile p t else s
  end.

Definition trimStart (s : jsstring) : jsstring := dropWhile isWhiteSpace s.
Definition trimEnd (s : jsstring) : jsstring :=
  rev (dropWhile isWhiteSpace (rev s)).
Definition trim (s : jsstring) : jsstring := trimEnd (trimStart s).

(** [s.startsWith(p)] *)
Fixpoint startsWith (p s : jsstring) : bool :=
  match p, s with
  | [], _ => true
  | _ :: _, [] => false
  | a :: p', b :: s' => (a =? b)%N && startsWith p' s'
  end.

(** [s.includes(k)] *)
Fixpoint includes (s k : jsstring) : bool :=
  startsWith k s ||
  match s with
  | [] => false
  | _ :: t => includes t k
  end.

(** [s.indexOf(k)]; [None] stands for [-1]. *)
Fixpoint indexOf (s k : jsstring) : option nat :=
  if startsWith k s then Some 0
  else match s with
       | [] => None
       | _ :: t => option_map S (indexOf t k)
       end.

(** [s.substring(a)] and [s.substring(a, b)] for [a <= b]. *)
Definition substringFrom (a : nat) (s : jsstring) : jsstring := skipn a s.
Definition substring (a b : nat) (s : jsstring) : jsstring :=
  firstn (b - a) (skipn a s).

(** [s.replace(/[class]/g, '')] *)
Definition removeAll (cls : N -> bool) (s : jsstring) : jsstring :=
  filter (fun c => negb (cls c)) s.

(** [parts.join(sep)] *)
Fixpoint join (sep : jsstring) (parts : list jsstring) : jsstring :=
  match parts with
  | [] => []
  | [p] => p
  | p :: rest => p ++ sep ++ join sep rest
  end.

(** [s.split(c)] for a one-character separator: never returns an empty
    array; the empty string splits to one empty part. *)
Fixpoint split (c : N) (s : jsstring) : list jsstring :=
  match s with
  | [] => [[]]
  | x :: t =>
    if (x =? c)%N then [] :: split c t
    else match split c t with
         | [] => [[x]]
         | p :: ps => (x :: p) :: ps
         end
  end.

Lemma startsWith_app (p s : jsstring) : startsWith p (p ++ s) = true.
Proof.
  induction p as [|a p IH]; simpl; [reflexivity|].
  now rewrite N.eqb_refl, IH.
Qed.

Lemma includes_nil_r (s : jsstring) : includes s [] = true.
Proof. destruct s; reflexivity. Qed.

Lemma includes_nil_l (k : jsstring) : k <> [] -> includes [] k = false.
Proof. destruct k; [congruence | reflexivity]. Qed.

End JS.
Import JS.

(* ================================================================= *)
(** ** Phone normalisation ([storage.ts], [normalizePhone]) *)

Module Phone.

(** The class [[-\s()]]. *)
Definition isSeparator (c : N) : bool :=
  ((c =? 45) || isWhiteSpace c || (c =? 40) || (c =? 41))%N.

Definition normalizePhone (phone : jsstring) : jsstring :=
  let normalized := removeAll isSeparator phone in
  let normalized :=
    if startsWith (lit "+972") normalized
    then lit "0" ++ substringFrom 4 normalized
    else if startsWith (lit "972") normalized
    then lit "0" ++ substringFrom 3 normalized
    else normalized in
  let normalized :=
    if (length normalized =? 9) && negb (startsWith (lit "0") normalized)
    then lit "0" ++ normalized
    else normalized in
  normalized.

Example normalizePhone_intl :
  normalizePhone (lit "+972-50 123(45)67") = lit "0501234567".
Proof. reflexivity. Qed.

Example normalizePhone_nine :
  normalizePhone (lit "501234567") = lit "0501234567".
Proof. reflexivity. Qed.

(** A string is clean when it holds no separator. *)
Definition clean (s : jsstring) : Prop :=
  Forall (fun c => isSeparator c = false) s.

Lemma removeAll_clean (s : jsstring) : clean (removeAll isSeparator s).
Proof.
  unfold clean, removeAll. apply Forall_forall. intros c Hc.
  apply filter_In in Hc. destruct Hc as [_ Hc].
  now apply negb_true_iff in Hc.
Qed.

Lemma clean_removeAll (s : jsstring) : clean s -> removeAll isSeparator s = s.
Proof.
  unfold clean, removeAll. induction 1 as [|c t Hc _ IH]; simpl.
  - reflexivity.
  - rewrite Hc. simpl. now rewrite IH.
Qed.

Lemma clean_skipn (k : nat) (s : jsstring) : clean s -> clean (skipn k s).
Proof.
  unfold clean. revert s. induction k as [|k IH]; intros s Hs; simpl.
  - exact Hs.
  - destruct s as [|c t]; [constructor|]. inversion Hs; subst. now apply IH.
Qed.

Lemma clean_zero_cons (s : jsstring) : clean s -> clean (lit "0" ++ s).
Proof. intros Hs. constructor; [reflexivity | exact Hs]. Qed.

(** The later steps of [normalizePhone], on the string left after the
    separators are removed. *)
Definition collapsePrefix (normalized : jsstring) : jsstring :=
  if startsWith (lit "+972") normalized
  then lit "0" ++ substringFrom 4 normalized
  else if startsWith (lit "972") normalized
  then lit "0" ++ substringFrom 3 normalized
  else normalized.

Definition padNine (normalized : jsstring) : jsstring :=
  if (length normalized =? 9) && negb (startsWith (lit "0") normalized)
  then lit "0" ++ normalized
  else normalized.

Lemma normalizePhone_steps (phone : jsstring) :
  normalizePhone phone = padNine (collapsePrefix (removeAll isSeparator phone)).
Proof. reflexivity. Qed.

Lemma collapsePrefix_zero (s : jsstring) :
  collapsePrefix (lit "0" ++ s) = lit "0" ++ s.
Proof. reflexivity. Qed.

Lemma padNine_zero (s : jsstring) : padNine (lit "0" ++ s) = lit "0" ++ s.
Proof.
  unfold padNine. change (startsWith (lit "0") (lit "0" ++ s)) with true.
  now rewrite andb_false_r.
Qed.

Lemma collapsePrefix_clean (s : jsstring) : clean s -> clean (collapsePrefix s).
Proof.
  intros Hs. unfold collapsePrefix.
  destruct (startsWith (lit "+972") s).
  - apply clean_zero_cons. now apply clean_skipn.
  - destruct (startsWith (lit "972") s); [|exact Hs].
    apply clean_zero_cons. now apply clean_skipn.
Qed.

Lemma padNine_clean (s : jsstring) : clean s -> clean (padNine s).
Proof.
  intros Hs. unfold padNine.
  destruct ((length s =? 9) && negb (startsWith (lit "0") s)); [|exact Hs].
  now apply clean_zero_cons.
Qed.

Lemma normalizePhone_clean (phone : jsstring) : clean (normalizePhone phone).
Proof.
  rewrite normalizePhone_steps.
  apply padNine_clean, collapsePrefix_clean, removeAll_clean.
Qed.

(** On a clean string the last two steps are already a fixed point of
    themselves. *)
Lemma padNine_collapsePrefix_fixed (s : jsstring) :
  padNine (collapsePrefix (padNine (collapsePrefix s)))
  = padNine (collapsePrefix s).
Proof.
  remember (padNine (collapsePrefix s)) as a eqn:Ha.
  unfold collapsePrefix in Ha.
  destruct (startsWith (lit "+972") s) eqn:E1.
  { rewrite padNine_zero in Ha. subst a.
    now rewrite collapsePrefix_zero, padNine_zero. }
  destruct (startsWith (lit "972") s) eqn:E2.
  { rewrite padNine_zero in Ha. subst a.
    now rewrite collapsePrefix_zero, padNine_zero. }
  unfold padNine in Ha.
  destruct ((length s =? 9) && negb (startsWith (lit "0") s)) eqn:E3; subst a.
  { now rewrite collapsePrefix_zero, padNine_zero. }
  unfold collapsePrefix. rewrite E1, E2. unfold padNine. now rewrite E3.
Qed.

End Phone.

(** C2 - [normalizePhone] is idempotent, and both the international and the
    local spelling of the sample number normalise to ["0501234567"]. *)
Theorem normalizePhone_idempotent :
  (forall x : jsstring,
      Phone.normalizePhone (Phone.normalizePhone x) = Phone.normalizePhone x)
  /\ Phone.normalizePhone (lit "+972501234567") = lit "0501234567"
  /\ Phone.normalizePhone (lit "0501234567") = lit "0501234567".
Proof.
  split; [|split; reflexivity].
  intros x.
  rewrite (Phone.normalizePhone_steps (Phone.normalizePhone x)).
  rewrite (Phone.clean_removeAll (Phone.normalizePhone_clean x)).
  rewrite Phone.normalizePhone_steps.
  apply Phone.padNine_collapsePrefix_fixed.
Qed.

(* ================================================================= *)
(** ** The relational store

    Tables are lists of rows in the order in which the database scans
    them.  A nullable column is an [option]; SQL conditions evaluate in
    three-valued logic ([None] is SQL [NULL]) and a [WHERE] clause keeps
    the rows whose condition is true.  Connection failures are outside
    the model.  A statement that breaks a constraint declared in
    [shared/schema.ts] is rejected where the embedded code can send
    one: the label of the application status, the e-mail of an inserted
    candidate, the references to a deleted candidate.  Elsewhere a
    definition gives what an accepted statement does. *)

Module Sql.

Definition SqlBool : Type := option bool.

Definition sql_or (a b : SqlBool) : SqlBool :=
  match a, b with
  | Some true, _ | _, Some true => Some true
  | Some false, Some false => Some false
  | _, _ => None
  end.

Definition sql_and (a b : SqlBool) : SqlBool :=
  match a, b with
  | Some false, _ | _, Some false => Some false
  | Some true, Some true => Some true
  | _, _ => None
  end.

(** [a = b] on nullable text. *)
Definition sql_eq (a b : option jsstring) : SqlBool :=
  match a, b with
  | Some x, Some y => Some (str_eqb x y)
  | _, _ => None
  end.

Definition is_true (b : SqlBool) : bool :=
  match b with Some true => true | _ => false end.

(** [REPLACE(s, from, to)] for a non-empty [from]: every occurrence,
    scanning left to right.  [skip] counts the characters of a match
    still to be dropped. *)
Fixpoint replace_go (from to : jsstring) (skip : nat) (s : jsstring)
  : jsstring :=
  match s with
  | [] => []
  | c :: t =>
    match skip with
    | S k => replace_go from to k t
    | O =>
      if startsWith from s
      then to ++ replace_go from to (length from - 1) t
      else c :: replace_go from to 0 t
    end
  end.

Definition REPLACE (s : option jsstring) (from to : jsstring)
  : option jsstring :=
  option_map (replace_go from to 0) s.

(** [SELECT ... WHERE cond]: the rows kept, in scan order. *)
Definition select_where {Row : Type} (cond : Row -> SqlBool)
  (table : list Row) : list Row :=
  filter (fun r => is_true (cond r)) table.

Lemma sql_or_true (a b : SqlBool) :
  is_true (sql_or a b) = is_true a || is_true b.
Proof. destruct a as [[|]|], b as [[|]|]; reflexivity. Qed.

Lemma sql_and_true (a b : SqlBool) :
  is_true (sql_and a b) = is_true a && is_true b.
Proof. destruct a as [[|]|], b as [[|]|]; reflexivity. Qed.

End Sql.
Import Sql.

(** ASCII lower-casing, the instance of the lower-casing built-ins used
    in the concrete examples below. *)
Definition asciiLower (s : jsstring) : jsstring :=
  map (fun c => if ((65 <=? c) && (c <=? 90))%N then (c + 32)%N else c) s.

(* ================================================================= *)
(** ** Rows *)

Module Schema.

(** Modelled from the spec: the declaration of the candidates table that
    [storage.ts] is written against is not among the sources (the
    [shared/schema.ts] at hand has no [mobile], [nationalId],
    [candidateNumber], [cvContent], [city] or [recruitmentSource]
    column).  The row holds the columns the embedded functions read or
    write, as the spec's CandidateProfile lists them; every column but
    the key is nullable, which is what the code's own guards
    ([x || ''], [isNotNull]) allow for.  The constraints that
    [shared/schema.ts] puts on the columns it does declare (the names
    and the e-mail NOT NULL, the e-mail UNIQUE) are checked where a row
    is inserted, in the module [Inbound]. *)
Record Candidate : Type := mkCandidate {
  id : jsstring;
  candidateNumber : option Z;
  firstName : option jsstring;
  lastName : option jsstring;
  email : option jsstring;
  mobile : option jsstring;
  nationalId : option jsstring;
  city : option jsstring;
  profession : option jsstring;
  cvContent : option jsstring;
  cvPath : option jsstring;
  notes : option jsstring;
  recruitmentSource : option jsstring;
  createdAt : option Z;
  updatedAt : option Z
}.

(** [InsertCandidate]: what a caller may supply; [id], [createdAt] and
    [updatedAt] are filled in by the database. *)
Record InsertCandidate : Type := mkInsertCandidate {
  ins_candidateNumber : option Z;
  ins_firstName : option jsstring;
  ins_lastName : option jsstring;
  ins_email : option jsstring;
  ins_mobile : option jsstring;
  ins_nationalId : option jsstring;
  ins_city : option jsstring;
  ins_profession : option jsstring;
  ins_cvContent : option jsstring;
  ins_cvPath : option jsstring;
  ins_notes : option jsstring;
  ins_recruitmentSource : option jsstring
}.

Record CandidateEvent : Type := mkCandidateEvent {
  ev_id : jsstring;
  ev_candidateId : option jsstring;
  ev_eventType : option jsstring;
  ev_description : option jsstring;
  ev_createdAt : option Z
}.

Record Job : Type := mkJob {
  job_id : jsstring;
  job_title : jsstring;
  job_description : option jsstring;
  job_location : option jsstring;
  job_createdAt : option Z
}.

(** The status is kept as text: the code compares it with
    ['interview_scheduled'] and writes ['submitted'].  The labels that
    the column's type admits are listed where the status is written, in
    the module [Applications]. *)
Record JobApplication : Type := mkJobApplication {
  app_id : jsstring;
  app_candidateId : option jsstring;
  app_jobId : option jsstring;
  app_status : option jsstring;
  app_appliedAt : option Z;
  app_interviewDate : option Z;
  app_notes : option jsstring;
  app_clientFeedback : option jsstring
}.

Record InsertJobApplication : Type := mkInsertJobApplication {
  ins_app_candidateId : option jsstring;
  ins_app_jobId : option jsstring;
  ins_app_status : option jsstring;
  ins_app_interviewDate : option Z;
  ins_app_notes : option jsstring;
  ins_app_clientFeedback : option jsstring
}.

(** The database: its tables. *)
Record DB : Type := mkDB {
  candidates : list Candidate;
  candidateEvents : list CandidateEvent;
  jobs : list Job;
  jobApplications : list JobApplication
}.

(** What the database generates for one insert or update:
    [gen_random_uuid()] and [now()]. *)
Record Defaults : Type := mkDefaults {
  newId : jsstring;
  now : Z
}.

End Schema.
Import Schema.

(* ================================================================= *)
(** ** Identity resolution ([storage.ts], [findCandidateByContactInfo]) *)

Module Resolver.

Section WithLower.

(** The database's [LOWER]. *)
Variable LOWER : jsstring -> jsstring.

(** [!x] on an optional string argument: [undefined] and [''] are falsy. *)
Definition given (x : option jsstring) : bool :=
  match x with Some s => truthy s | None => false end.

(** The store-side rewriting of the mobile column:
    [REPLACE(REPLACE(REPLACE(mobile, '-', ''), ' ', ''), '+972', '0')]. *)
Definition storedMobileKey (m : option jsstring) : option jsstring :=
  REPLACE (REPLACE (REPLACE m (lit "-") (lit "")) (lit " ") (lit ""))
          (lit "+972") (lit "0").

(** [email && email !== '' && !email.includes('temp.local')] *)
Definition usableEmail (e : jsstring) : bool :=
  truthy e && negb (str_eqb e (lit "")) && negb (includes e (lit "temp.local")).

(** The conditions pushed, in order, by the three [if]s. *)
Definition conditions (mobile email nationalId : option jsstring)
  : list (Candidate -> SqlBool) :=
  (match mobile with
   | Some m =>
     if truthy m
     then let normalizedMobile := Phone.normalizePhone m in
          [fun c => sql_eq (storedMobileKey c.(Schema.mobile))
                           (Some normalizedMobile)]
     else []
   | None => []
   end)
  ++
  (match email with
   | Some e =>
     if usableEmail e
     then [fun c => sql_eq (option_map LOWER c.(Schema.email))
                           (Some (LOWER e))]
     else []
   | None => []
   end)
  ++
  (match nationalId with
   | Some n =>
     if truthy n
     then [fun c => sql_eq c.(Schema.nationalId) (Some n)]
     else []
   | None => []
   end).

(** [conditions.reduce((acc, condition) => acc OR condition)] on a
    non-empty array. *)
Definition reduce_or (c0 : Candidate -> SqlBool)
  (cs : list (Candidate -> SqlBool)) : Candidate -> SqlBool :=
  fold_left (fun acc condition => fun c => sql_or (acc c) (condition c)) cs c0.

Definition findCandidateByContactInfo (table : list Candidate)
  (mobile email nationalId : option jsstring) : option Candidate :=
  if negb (given mobile) && negb (given email) && negb (given nationalId)
  then None
  else
    match conditions mobile email nationalId with
    | [] => None
    | c0 :: cs =>
      let whereCondition := reduce_or c0 cs in
      hd_error (select_where whereCondition table)
    end.

(** The matching policy in the words of the specification: the same
    [normalizePhone] on both sides, case-insensitive e-mail equality for a
    usable e-mail, exact national-ID equality. *)
Definition contactMatch (mobile email nationalId : option jsstring)
  (c : Candidate) : bool :=
  (match mobile, c.(Schema.mobile) with
   | Some m, Some stored =>
     truthy m
     && str_eqb (Phone.normalizePhone stored) (Phone.normalizePhone m)
   | _, _ => false
   end)
  || (match email, c.(Schema.email) with
      | Some e, Some stored =>
        usableEmail e && str_eqb (LOWER stored) (LOWER e)
      | _, _ => false
      end)
  || (match nationalId, c.(Schema.nationalId) with
      | Some n, Some stored => truthy n && str_eqb stored n
      | _, _ => false
      end).

(** The stored mobiles on which the store-side rewriting computes what
    [normalizePhone] computes. *)
Definition storeAgrees (table : list Candidate) : Prop :=
  forall c stored, In c table -> c.(Schema.mobile) = Some stored ->
    storedMobileKey (Some stored) = Some (Phone.normalizePhone stored).

Lemma hd_error_filter_find {A : Type} (p : A -> bool) (l : list A) :
  hd_error (filter p l) = find p l.
Proof.
  induction l as [|x l IH]; simpl; [reflexivity|].
  destruct (p x); [reflexivity | exact IH].
Qed.

Lemma find_ext_in {A : Type} (p q : A -> bool) (l : list A) :
  (forall x, In x l -> p x = q x) -> find p l = find q l.
Proof.
  induction l as [|x l IH]; intros H; simpl; [reflexivity|].
  rewrite (H x (or_introl eq_refl)).
  destruct (q x); [reflexivity|]. apply IH. intros y Hy. apply H. now right.
Qed.

Lemma find_none_false {A : Type} (l : list A) :
  find (fun _ => false) l = None.
Proof. induction l; simpl; auto. Qed.

Lemma is_true_reduce_or (cs : list (Candidate -> SqlBool))
  (c0 : Candidate -> SqlBool) (r : Candidate) :
  is_true (reduce_or c0 cs r)
  = is_true (c0 r) || existsb (fun c => is_true (c r)) cs.
Proof.
  unfold reduce_or. revert c0.
  induction cs as [|c cs IH]; intros c0; simpl.
  - now rewrite orb_false_r.
  - rewrite IH, sql_or_true. now rewrite orb_assoc.
Qed.

(** Whatever the early return, the result is the first row, in scan
    order, that satisfies one of the pushed conditions. *)
Lemma findCandidateByContactInfo_first (table : list Candidate)
  (mobile email nationalId : option jsstring) :
  findCandidateByContactInfo table mobile email nationalId
  = find (fun r => existsb (fun c => is_true (c r))
                           (conditions mobile email nationalId)) table.
Proof.
  unfold findCandidateByContactInfo.
  destruct (negb (given mobile) && negb (given email)
            && negb (given nationalId)) eqn:G.
  - apply andb_true_iff in G. destruct G as [G Gn].
    apply andb_true_iff in G. destruct G as [Gm Ge].
    assert (conditions mobile email nationalId = []) as ->.
    { unfold conditions, usableEmail.
      destruct mobile as [[|? ?]|], email as [[|? ?]|],
               nationalId as [[|? ?]|]; simpl in *; congruence. }
    simpl. now rewrite find_none_false.
  - destruct (conditions mobile email nationalId) as [|c0 cs].
    + simpl. now rewrite find_none_false.
    + unfold select_where. rewrite hd_error_filter_find.
      apply find_ext_in. intros r _. simpl. apply is_true_reduce_or.
Qed.

Lemma is_true_Some (b : bool) : is_true (Some b) = b.
Proof. now destruct b. Qed.

(** C1 (amended) - on a table whose stored mobiles are rewritten by the
    store the way [normalizePhone] rewrites them, the function returns the
    first row, in the order the store scans the table, that matches on
    normalised mobile, on case-insensitive usable e-mail or on exact
    national ID; it returns nothing exactly when no row matches. *)
Theorem findCandidateByContactInfo_first_match (table : list Candidate)
  (mobile email nationalId : option jsstring) :
  storeAgrees table ->
  findCandidateByContactInfo table mobile email nationalId
  = find (contactMatch mobile email nationalId) table.
Proof.
  intros Hagree. rewrite findCandidateByContactInfo_first.
  apply find_ext_in. intros r Hr.
  unfold conditions, contactMatch. rewrite !existsb_app.
  rewrite orb_assoc. f_equal; [f_equal|].
  - destruct mobile as [m|]; [|reflexivity].
    destruct (truthy m); simpl.
    + rewrite orb_false_r.
      destruct (Schema.mobile r) as [stored|] eqn:E; [|reflexivity].
      rewrite (Hagree r stored Hr E). simpl. apply is_true_Some.
    + now destruct (Schema.mobile r).
  - destruct email as [e|]; [|reflexivity].
    destruct (usableEmail e); simpl.
    + rewrite orb_false_r.
      destruct (Schema.email r) as [stored|]; [|reflexivity].
      simpl. apply is_true_Some.
    + now destruct (Schema.email r).
  - destruct nationalId as [n|]; [|reflexivity].
    destruct (truthy n); simpl.
    + rewrite orb_false_r.
      destruct (Schema.nationalId r) as [stored|]; [|reflexivity].
      simpl. apply is_true_Some.
    + now destruct (Schema.nationalId r).
Qed.

End WithLower.

(** Sample rows for the concrete runs. *)
Definition sampleCandidate (i m e n : String.string) (created : Z)
  : Candidate :=
  {| id := lit i; candidateNumber := None;
     firstName := Some (lit "Dana"); lastName := Some (lit "Levi");
     email := Some (lit e); mobile := Some (lit m);
     nationalId := Some (lit n); city := None; profession := None;
     cvContent := None; cvPath := None; notes := None;
     recruitmentSource := None;
     createdAt := Some created; updatedAt := Some created |}.
Arguments sampleCandidate (i m e n)%_string created%_Z.

Lemma findCandidateByContactInfo_first_match_witness :
  let table := [ sampleCandidate "a" "052-7654321" "x@y.org" "111111118" 5;
                 sampleCandidate "b" "+972-50 1234567" "d@e.org" "222222226" 7 ]
  in
  findCandidateByContactInfo asciiLower table
    (Some (lit "050-1234567")) None None
  = find (contactMatch asciiLower (Some (lit "050-1234567")) None None) table.
Proof.
  apply (findCandidateByContactInfo_first_match asciiLower).
  intros c stored [<-|[<-|[]]] E; inversion E; subst; reflexivity.
Defined.

(** C1 (as stated) fails twice.  A stored mobile written with the bare
    [972] prefix normalises, under [normalizePhone], to the query's
    normal form, yet the row is not found; and of two rows that both
    match, the one returned is the first the store scans, here the one
    created earlier. *)
Lemma findCandidateByContactInfo_counterexample :
  let bare := sampleCandidate "a" "972501234567" "x@y.org" "111111118" 5 in
  let older := sampleCandidate "o" "0521111111" "o@y.org" "333333334" 10 in
  let newer := sampleCandidate "n" "0522222222" "n@y.org" "333333334" 20 in
  (Phone.normalizePhone (lit "972501234567")
     = Phone.normalizePhone (lit "0501234567")
   /\ findCandidateByContactInfo asciiLower [bare]
        (Some (lit "0501234567")) None None = None)
  /\ (contactMatch asciiLower None None (Some (lit "333333334")) newer = true
      /\ findCandidateByContactInfo asciiLower [older; newer]
           None None (Some (lit "333333334")) = Some older).
Proof. repeat split; reflexivity. Qed.

End Resolver.

(* ================================================================= *)
(** ** Ordering *)

Module Order.

(** [ORDER BY key DESC]: a stable insertion sort; [NULL] keys come
    first, as the database places them in a descending order. *)
Definition geb_key (a b : option Z) : bool :=
  match a, b with
  | None, _ => true
  | Some _, None => false
  | Some x, Some y => (y <=? x)%Z
  end.

Fixpoint insertDesc {Row : Type} (key : Row -> option Z) (r : Row)
  (sorted : list Row) : list Row :=
  match sorted with
  | [] => [r]
  | x :: rest =>
    if geb_key (key r) (key x) then r :: sorted
    else x :: insertDesc key r rest
  end.

Definition orderByDesc {Row : Type} (key : Row -> option Z)
  (rows : list Row) : list Row :=
  fold_right (insertDesc key) [] rows.

(** [LIMIT n] *)
Definition limit {Row : Type} (n : nat) (rows : list Row) : list Row :=
  firstn n rows.

Lemma insertDesc_In {Row : Type} (key : Row -> option Z) (r x : Row)
  (l : list Row) : In x (insertDesc key r l) <-> x = r \/ In x l.
Proof.
  induction l as [|y l IH]; simpl.
  - intuition.
  - destruct (geb_key (key r) (key y)); simpl; [intuition|].
    rewrite IH. intuition.
Qed.

Lemma orderByDesc_In {Row : Type} (key : Row -> option Z) (x : Row)
  (l : list Row) : In x (orderByDesc key l) <-> In x l.
Proof.
  induction l as [|y l IH]; simpl; [reflexivity|].
  rewrite insertDesc_In, IH. intuition.
Qed.

Lemma orderByDesc_nil_iff {Row : Type} (key : Row -> option Z)
  (l : list Row) : orderByDesc key l = [] <-> l = [].
Proof.
  split; [|intros ->; reflexivity].
  destruct l as [|y l]; [reflexivity|]. simpl.
  destruct (orderByDesc key l) as [|z t]; simpl; [discriminate|].
  destruct (geb_key (key y) (key z)); discriminate.
Qed.

(** The first row of the descending order carries a greatest key. *)
Lemma insertDesc_hd {Row : Type} (key : Row -> option Z) (r : Row)
  (l : list Row) (h : Row) (t : list Row) :
  (forall h0 t0, l = h0 :: t0 -> forall y, In y l ->
                                 geb_key (key h0) (key y) = true) ->
  insertDesc key r l = h :: t ->
  forall y, In y (h :: t) -> geb_key (key h) (key y) = true.
Proof.
  intros Hl E y Hy. destruct l as [|x rest]; simpl in E.
  - inversion E; subst. destruct Hy as [<-|[]].
    destruct (key h) as [k|]; simpl; [apply Z.leb_refl | reflexivity].
  - specialize (Hl x rest eq_refl).
    destruct (geb_key (key r) (key x)) eqn:G.
    + inversion E; subst. destruct Hy as [<-|Hy].
      * destruct (key h) as [k|]; simpl; [apply Z.leb_refl | reflexivity].
      * specialize (Hl y Hy).
        destruct (key h) as [a|], (key x) as [b|], (key y) as [c|];
          simpl in *; try congruence; try reflexivity.
        apply Z.leb_le in G, Hl. apply Z.leb_le. lia.
    + inversion E; subst. destruct Hy as [<-|Hy].
      * destruct (key h) as [k|]; simpl; [apply Z.leb_refl | reflexivity].
      * apply insertDesc_In in Hy. destruct Hy as [->|Hy].
        -- destruct (key r) as [a|], (key h) as [b|]; simpl in *;
             try congruence; try reflexivity.
           apply Z.leb_gt in G. apply Z.leb_le. lia.
        -- apply Hl. now right.
Qed.

Lemma orderByDesc_hd {Row : Type} (key : Row -> option Z) (l : list Row)
  (h : Row) (t : list Row) :
  orderByDesc key l = h :: t ->
  forall y, In y l -> geb_key (key h) (key y) = true.
Proof.
  revert h t. induction l as [|x l IH]; intros h t E y Hy; [destruct Hy|].
  simpl in E.
  assert (In y (h :: t)) as Hin.
  { rewrite <- E. apply insertDesc_In. destruct Hy as [<-|Hy];
      [now left | right; now apply orderByDesc_In]. }
  eapply insertDesc_hd; [ | exact E | exact Hin].
  intros h0 t0 E0 z Hz. apply (IH h0 t0 E0). now apply orderByDesc_In in Hz.
Qed.

Lemma firstn_incl {A : Type} (n : nat) (l : list A) (x : A) :
  In x (firstn n l) -> In x l.
Proof.
  intros H. rewrite <- (firstn_skipn n l). apply in_or_app. now left.
Qed.

Lemma skipn_incl {A : Type} (n : nat) (l : list A) (x : A) :
  In x (skipn n l) -> In x l.
Proof.
  intros H. rewrite <- (firstn_skipn n l). apply in_or_app. now right.
Qed.

End Order.
Import Order.

(* ================================================================= *)
(** ** Candidate numbering ([storage.ts], [createCandidate]) *)

Module Numbering.

Definition setCandidates (db : DB) (cs : list Candidate) : DB :=
  {| candidates := cs;
     candidateEvents := candidateEvents db;
     jobs := jobs db;
     jobApplications := jobApplications db |}.

(** [isNotNull(column)] *)
Definition isNotNull {A : Type} (x : option A) : SqlBool :=
  Some (match x with Some _ => true | None => false end).

(** [x || d] on a nullable number: [null] and [0] are falsy. *)
Definition orNumber (x : option Z) (d : Z) : Z :=
  match x with
  | Some 0%Z => d
  | Some n => n
  | None => d
  end.

(** [db.insert(candidates).values(v).returning()]: the row is stored
    after the rows already there. *)
Definition insertCandidate (d : Defaults) (v : InsertCandidate) (db : DB)
  : Candidate * DB :=
  let row :=
    {| id := newId d;
       candidateNumber := ins_candidateNumber v;
       firstName := ins_firstName v;
       lastName := ins_lastName v;
       email := ins_email v;
       mobile := ins_mobile v;
       nationalId := ins_nationalId v;
       city := ins_city v;
       profession := ins_profession v;
       cvContent := ins_cvContent v;
       cvPath := ins_cvPath v;
       notes := ins_notes v;
       recruitmentSource := ins_recruitmentSource v;
       createdAt := Some (now d);
       updatedAt := Some (now d) |} in
  (row, setCandidates db (candidates db ++ [row])).

(** [{ ...candidate, candidateNumber: nextNumber }] *)
Definition withNumber (candidate : InsertCandidate) (nextNumber : Z)
  : InsertCandidate :=
  {| ins_candidateNumber := Some nextNumber;
     ins_firstName := ins_firstName candidate;
     ins_lastName := ins_lastName candidate;
     ins_email := ins_email candidate;
     ins_mobile := ins_mobile candidate;
     ins_nationalId := ins_nationalId candidate;
     ins_city := ins_city candidate;
     ins_profession := ins_profession candidate;
     ins_cvContent := ins_cvContent candidate;
     ins_cvPath := ins_cvPath candidate;
     ins_notes := ins_notes candidate;
     ins_recruitmentSource := ins_recruitmentSource candidate |}.

(** The row read before the insert: highest non-null number first,
    one row at most. *)
Definition lastCandidate (db : DB) : list Candidate :=
  limit 1
    (orderByDesc candidateNumber
       (select_where (fun c => isNotNull (candidateNumber c))
                     (candidates db))).

Definition nextNumber (db : DB) : Z :=
  match lastCandidate db with
  | c :: _ => (orNumber (candidateNumber c) 99 + 1)%Z
  | [] => 100%Z
  end.

Definition createCandidate (d : Defaults) (candidate : InsertCandidate)
  (db : DB) : Candidate * DB :=
  let candidateWithNumber := withNumber candidate (nextNumber db) in
  insertCandidate d candidateWithNumber db.

(** [db.delete(candidates).where(eq(candidates.id, id))]: the table that
    a DELETE accepted by the database leaves. *)
Definition deleteCandidate (id : jsstring) (db : DB) : DB :=
  setCandidates db
    (filter (fun c => negb (str_eqb (Schema.id c) id)) (candidates db)).

(** Sequential use of the store: creations and deletions, one after the
    other.  [run] returns the rows created, in order. *)
Inductive Op : Type :=
| Create (d : Defaults) (candidate : InsertCandidate)
| Delete (id : jsstring).

Fixpoint run (db : DB) (ops : list Op) : list Candidate * DB :=
  match ops with
  | [] => ([], db)
  | Create d candidate :: rest =>
    let '(row, db1) := createCandidate d candidate db in
    let '(rows, db2) := run db1 rest in
    (row :: rows, db2)
  | Delete id :: rest => run (deleteCandidate id db) rest
  end.

(** A run of creations only. *)
Definition creations (args : list (Defaults * InsertCandidate)) : list Op :=
  map (fun a => Create (fst a) (snd a)) args.

(** The numbers present in the store. *)
Definition numbers (db : DB) : list Z :=
  flat_map (fun c => match candidateNumber c with
                     | Some n => [n]
                     | None => []
                     end) (candidates db).

Definition emptyDB : DB :=
  {| candidates := []; candidateEvents := []; jobs := [];
     jobApplications := [] |}.

Definition blank : InsertCandidate :=
  {| ins_candidateNumber := None; ins_firstName := None;
     ins_lastName := None; ins_email := None; ins_mobile := None;
     ins_nationalId := None; ins_city := None; ins_profession := None;
     ins_cvContent := None; ins_cvPath := None; ins_notes := None;
     ins_recruitmentSource := None |}.

Definition dflt (i : String.string) (t : Z) : Defaults :=
  {| newId := lit i; now := t |}.
Arguments dflt i%_string t%_Z.

Example run_three :
  map candidateNumber
      (fst (run emptyDB (creations [(dflt "a" 1, blank); (dflt "b" 2, blank);
                                    (dflt "c" 3, blank)])))
  = [Some 100; Some 101; Some 102]%Z.
Proof. reflexivity. Qed.

Lemma numbers_In (db : DB) (n : Z) :
  In n (numbers db) <->
  exists c, In c (select_where (fun c => isNotNull (candidateNumber c))
                               (candidates db))
            /\ candidateNumber c = Some n.
Proof.
  unfold numbers, select_where. rewrite in_flat_map. split.
  - intros [c [Hc Hn]]. exists c. rewrite filter_In.
    destruct (candidateNumber c) as [k|]; simpl in *; [|tauto].
    destruct Hn as [->|[]]. auto.
  - intros [c [Hc Hn]]. apply filter_In in Hc. exists c.
    rewrite Hn. simpl. tauto.
Qed.

(** What the read before the insert finds: nothing when no row is
    numbered, else a row carrying the greatest number. *)
Lemma lastCandidate_spec (db : DB) :
  (lastCandidate db = [] /\ numbers db = [])
  \/ (exists c k, lastCandidate db = [c] /\ candidateNumber c = Some k
                 /\ In k (numbers db)
                 /\ forall n, In n (numbers db) -> (n <= k)%Z).
Proof.
  unfold lastCandidate, limit.
  set (F := select_where (fun c => isNotNull (candidateNumber c))
                         (candidates db)).
  destruct (orderByDesc candidateNumber F) as [|h t] eqn:E.
  - left. split; [reflexivity|].
    apply orderByDesc_nil_iff in E.
    destruct (numbers db) as [|n l] eqn:N; [reflexivity|].
    assert (In n (numbers db)) as Hn by (rewrite N; now left).
    apply numbers_In in Hn. destruct Hn as [c [Hc _]].
    fold F in Hc. rewrite E in Hc. destruct Hc.
  - right.
    assert (In h F) as Hh.
    { apply (orderByDesc_In candidateNumber). rewrite E. now left. }
    assert (exists k, candidateNumber h = Some k) as [k Hk].
    { unfold F, select_where in Hh. apply filter_In in Hh.
      destruct Hh as [_ Hh]. destruct (candidateNumber h) as [k|];
        [now exists k | discriminate]. }
    exists h, k. repeat split; auto.
    + apply numbers_In. exists h. auto.
    + intros n Hn. apply numbers_In in Hn. destruct Hn as [c [Hc Hcn]].
      pose proof (orderByDesc_hd candidateNumber F E c Hc) as G.
      rewrite Hk, Hcn in G. simpl in G. now apply Z.leb_le in G.
Qed.

Lemma nextNumber_gt (db : DB) (n : Z) :
  In n (numbers db) -> (n < nextNumber db)%Z.
Proof.
  intros Hn. unfold nextNumber.
  destruct (lastCandidate_spec db) as [[_ N]|[c [k [-> [Hk [_ Hmax]]]]]].
  - rewrite N in Hn. destruct Hn.
  - rewrite Hk. specialize (Hmax n Hn).
    destruct k; cbn [orNumber]; lia.
Qed.

Lemma nextNumber_first (db : DB) : numbers db = [] -> nextNumber db = 100%Z.
Proof.
  intros N. unfold nextNumber.
  destruct (lastCandidate_spec db) as [[-> _]|[c [k [_ [_ [Hin _]]]]]].
  - reflexivity.
  - rewrite N in Hin. destruct Hin.
Qed.

Lemma nextNumber_succ (db : DB) (M : Z) :
  In M (numbers db) -> (forall n, In n (numbers db) -> (n <= M)%Z) ->
  M <> 0%Z -> nextNumber db = (M + 1)%Z.
Proof.
  intros HM Hle H0. unfold nextNumber.
  destruct (lastCandidate_spec db) as [[_ N]|[c [k [-> [Hk [Hin Hmax]]]]]].
  - rewrite N in HM. destruct HM.
  - rewrite Hk. assert (k = M) as -> by (specialize (Hle k Hin);
      specialize (Hmax M HM); lia).
    destruct M; cbn [orNumber]; congruence.
Qed.

Lemma created_number (d : Defaults) (candidate : InsertCandidate) (db : DB) :
  candidateNumber (fst (createCandidate d candidate db))
  = Some (nextNumber db).
Proof. reflexivity. Qed.

Lemma numbers_create (d : Defaults) (candidate : InsertCandidate) (db : DB) :
  numbers (snd (createCandidate d candidate db))
  = numbers db ++ [nextNumber db].
Proof.
  unfold numbers, createCandidate, insertCandidate. simpl.
  now rewrite flat_map_app.
Qed.

(** The numbers handed out by a run of creations. *)
Fixpoint assigned (db : DB) (args : list (Defaults * InsertCandidate))
  : list Z :=
  match args with
  | [] => []
  | a :: rest =>
    nextNumber db :: assigned (snd (createCandidate (fst a) (snd a) db)) rest
  end.

Lemma run_Create (d : Defaults) (candidate : InsertCandidate)
  (rest : list Op) (db : DB) :
  run db (Create d candidate :: rest)
  = (fst (createCandidate d candidate db)
       :: fst (run (snd (createCandidate d candidate db)) rest),
     snd (run (snd (createCandidate d candidate db)) rest)).
Proof.
  cbn [run]. destruct (createCandidate d candidate db) as [row db1].
  cbn [fst snd]. now destruct (run db1 rest).
Qed.

Lemma run_creations_assigned (args : list (Defaults * InsertCandidate))
  (db : DB) :
  map candidateNumber (fst (run db (creations args)))
  = map Some (assigned db args).
Proof.
  revert db. induction args as [|a rest IH]; intros db; [reflexivity|].
  cbn [creations map]. rewrite run_Create. cbn [fst map assigned].
  rewrite created_number. f_equal. apply IH.
Qed.

Lemma assigned_above (args : list (Defaults * InsertCandidate)) (db : DB)
  (n m : Z) :
  In n (numbers db) -> In m (assigned db args) -> (n < m)%Z.
Proof.
  revert db. induction args as [|a rest IH]; intros db Hn Hm; [destruct Hm|].
  simpl in Hm. destruct Hm as [<-|Hm].
  - now apply nextNumber_gt.
  - apply (IH (snd (createCandidate (fst a) (snd a) db))); [|exact Hm].
    rewrite numbers_create. apply in_or_app. now left.
Qed.

Lemma assigned_sorted (args : list (Defaults * InsertCandidate)) (db : DB) :
  StronglySorted Z.lt (assigned db args).
Proof.
  revert db. induction args as [|a rest IH]; intros db; simpl.
  - constructor.
  - constructor; [apply IH|]. apply Forall_forall. intros m Hm.
    apply (@assigned_above rest (snd (createCandidate (fst a) (snd a) db)));
      [|exact Hm].
    rewrite numbers_create. apply in_or_app. right. now left.
Qed.

Lemma assigned_from (args : list (Defaults * InsertCandidate)) (db : DB)
  (M : Z) :
  In M (numbers db) -> (forall n, In n (numbers db) -> (n <= M)%Z) ->
  (100 <= M)%Z ->
  assigned db args
  = map (fun i => (M + 1 + Z.of_nat i)%Z) (seq 0 (length args)).
Proof.
  revert db M. induction args as [|a rest IH]; intros db M HM Hle H100;
    [reflexivity|].
  cbn [assigned length seq map]. rewrite (nextNumber_succ db HM Hle) by lia.
  f_equal; [lia|].
  rewrite (IH _ (M + 1)%Z).
  - rewrite <- seq_shift, map_map. apply map_ext. intros i. lia.
  - rewrite numbers_create. apply in_or_app. right. left.
    apply nextNumber_succ; auto. lia.
  - intros n Hn. rewrite numbers_create in Hn. apply in_app_or in Hn.
    destruct Hn as [Hn|[<-|[]]].
    + specialize (Hle n Hn). lia.
    + rewrite (nextNumber_succ db HM Hle) by lia. lia.
  - lia.
Qed.

Lemma assigned_from_scratch (args : list (Defaults * InsertCandidate))
  (db : DB) :
  numbers db = [] ->
  assigned db args
  = map (fun i => (100 + Z.of_nat i)%Z) (seq 0 (length args)).
Proof.
  intros N. destruct args as [|a rest]; [reflexivity|].
  cbn [assigned length seq map]. rewrite (nextNumber_first db N). f_equal.
  rewrite (@assigned_from rest _ 100%Z).
  - rewrite <- seq_shift, map_map. apply map_ext. intros i. lia.
  - rewrite numbers_create, N, (nextNumber_first db N). now left.
  - intros n Hn. rewrite numbers_create, N, (nextNumber_first db N) in Hn.
    destruct Hn as [<-|[]]. lia.
  - lia.
Qed.

End Numbering.

(** C6 (amended) - in a run of creations with no deletion in between, each
    new candidate gets a number; the numbers are strictly increasing,
    each exceeds every number already in the store (so none is reused),
    and when no numbered candidate exists they are 100, 101, 102, ... *)
Theorem createCandidate_numbers
  (db : DB) (args : list (Defaults * InsertCandidate)) :
  exists nums : list Z,
    map candidateNumber (fst (Numbering.run db (Numbering.creations args)))
    = map Some nums
    /\ StronglySorted Z.lt nums
    /\ (forall n m, In n (Numbering.numbers db) -> In m nums -> (n < m)%Z)
    /\ (Numbering.numbers db = [] ->
        nums = map (fun i => (100 + Z.of_nat i)%Z) (seq 0 (length args))).
Proof.
  exists (Numbering.assigned db args). repeat split.
  - apply Numbering.run_creations_assigned.
  - apply Numbering.assigned_sorted.
  - intros n m. apply Numbering.assigned_above.
  - apply Numbering.assigned_from_scratch.
Qed.

Lemma createCandidate_numbers_witness :
  exists nums : list Z,
    map candidateNumber
        (fst (Numbering.run Numbering.emptyDB
                (Numbering.creations
                   [(Numbering.dflt "a" 1, Numbering.blank);
                    (Numbering.dflt "b" 2, Numbering.blank)])))
    = map Some nums
    /\ nums = [100; 101]%Z.
Proof.
  destruct (createCandidate_numbers Numbering.emptyDB
              [(Numbering.dflt "a" 1, Numbering.blank);
               (Numbering.dflt "b" 2, Numbering.blank)])
    as [nums [H1 [_ [_ H4]]]].
  exists nums. split; [exact H1 | exact (H4 eq_refl)].
Defined.

(** C6 (as stated) fails once a deletion comes between two creations:
    the number of the deleted candidate is assigned again. *)
Lemma createCandidate_number_reused :
  map candidateNumber
      (fst (Numbering.run Numbering.emptyDB
              [Numbering.Create (Numbering.dflt "a" 1) Numbering.blank;
               Numbering.Create (Numbering.dflt "b" 2) Numbering.blank;
               Numbering.Delete (lit "b");
               Numbering.Create (Numbering.dflt "c" 3) Numbering.blank]))
  = [Some 100; Some 101; Some 101]%Z.
Proof. reflexivity. Qed.

(* ================================================================= *)
(** ** Naive CV search ([storage.ts], [textContainsKeyword], [searchCVs]) *)

Module Search.

Record SearchResult : Type := mkSearchResult {
  candidateId : jsstring;
  res_firstName : jsstring;
  res_lastName : jsstring;
  res_city : jsstring;
  res_phone : jsstring;
  res_email : jsstring;
  matchedKeywords : list jsstring;
  cvPreview : jsstring;
  extractedAt : option Z
}.

Record Filters : Type := mkFilters {
  positiveKeywords : list jsstring;
  negativeKeywords : list jsstring;
  includeNotes : bool
}.

(** [x || ''] on a nullable string. *)
Definition orEmpty (x : option jsstring) : jsstring :=
  match x with Some s => s | None => [] end.

(** Truthiness of a nullable string. *)
Definition present (x : option jsstring) : bool :=
  match x with Some s => truthy s | None => false end.

Section WithBuiltins.

(** [String.prototype.toLowerCase]. *)
Variable toLowerCase : jsstring -> jsstring.

(** [extractTextFromCVFile]: reads the stored file; it catches its own
    failures and answers the empty string then. *)
Variable extractTextFromCVFile : jsstring -> jsstring.

Definition textContainsKeyword (text : option jsstring) (keyword : jsstring)
  : bool :=
  if negb (present text) || negb (truthy keyword) then false
  else includes (toLowerCase (orEmpty text)) (toLowerCase keyword).

(** [getCandidateEvents] *)
Definition getCandidateEvents (db : DB) (candidateId : jsstring)
  : list CandidateEvent :=
  orderByDesc ev_createdAt
    (select_where (fun e => sql_eq (ev_candidateId e) (Some candidateId))
                  (candidateEvents db)).

(** The text built for one candidate, statement by statement. *)
Definition candidateText (db : DB) (includeNotes : bool) (c : Candidate)
  : jsstring :=
  let nameProfession :=
    trim (orEmpty (firstName c) ++ lit " " ++ orEmpty (lastName c)
          ++ lit " " ++ orEmpty (profession c)) in
  let text := nameProfession in
  let text :=
    if present (cvContent c) then text ++ lit " " ++ orEmpty (cvContent c)
    else text in
  let text :=
    if present (cvPath c) && negb (present (cvContent c)) then
      let extractedText := extractTextFromCVFile (orEmpty (cvPath c)) in
      if truthy extractedText then text ++ lit " " ++ extractedText
      else text
    else text in
  if includeNotes then
    let text :=
      if present (notes c) then text ++ lit " " ++ orEmpty (notes c)
      else text in
    let candidateEvents := getCandidateEvents db (id c) in
    let eventsText :=
      join (lit " ")
        (filter (fun desc => 0 <? length (trim desc))
                (map (fun event => orEmpty (ev_description event))
                     candidateEvents)) in
    if truthy eventsText then text ++ lit " " ++ eventsText else text
  else text.

(** The loop over the positive keywords: the flag and the list it
    builds. *)
Definition positiveStep (text : jsstring) (st : bool * list jsstring)
  (keyword : jsstring) : bool * list jsstring :=
  if textContainsKeyword (Some text) keyword
  then (true, snd st ++ [keyword])
  else st.

Definition positiveLoop (text : jsstring) (keywords : list jsstring)
  : bool * list jsstring :=
  fold_left (positiveStep text) keywords (false, []).

(** The loop over the negative keywords, left at the first hit:
    the value of [matches] after it. *)
Fixpoint negativeLoop (text : jsstring) (keywords : list jsstring) : bool :=
  match keywords with
  | [] => true
  | keyword :: rest =>
    if textContainsKeyword (Some text) keyword then false
    else negativeLoop text rest
  end.

(** One iteration of the loop over the candidates: the result pushed,
    if any. *)
Definition examine (db : DB) (f : Filters) (c : Candidate)
  : option SearchResult :=
  let text := candidateText db (includeNotes f) c in
  let matches := true in
  let '(matches, matched) :=
    if 0 <? length (positiveKeywords f) then
      let '(hasPositiveMatch, matched) :=
        positiveLoop text (positiveKeywords f) in
      (if negb hasPositiveMatch then false else matches, matched)
    else (matches, []) in
  let matches :=
    if matches && (0 <? length (negativeKeywords f))
    then negativeLoop text (negativeKeywords f)
    else matches in
  if matches then
    Some {| candidateId := id c;
            res_firstName := orEmpty (firstName c);
            res_lastName := orEmpty (lastName c);
            res_city := orEmpty (city c);
            res_phone := orEmpty (mobile c);
            res_email := orEmpty (email c);
            matchedKeywords := matched;
            cvPreview := text;
            extractedAt := createdAt c |}
  else None.

Definition searchCVs (db : DB) (f : Filters) : list SearchResult :=
  let allCandidates := orderByDesc createdAt (candidates db) in
  flat_map (fun c => match examine db f c with
                     | Some r => [r]
                     | None => []
                     end) allCandidates.

(** A keyword is a case-insensitive substring of a text. *)
Definition ciSubstring (text keyword : jsstring) : bool :=
  includes (toLowerCase text) (toLowerCase keyword).

(** A keyword hits when it is not empty and is a case-insensitive
    substring. *)
Definition hit (text keyword : jsstring) : bool :=
  truthy keyword && ciSubstring text keyword.

(** The result describing a candidate, in the words of the
    specification. *)
Definition resultOf (db : DB) (f : Filters) (c : Candidate) : SearchResult :=
  let text := candidateText db (includeNotes f) c in
  {| candidateId := id c;
     res_firstName := orEmpty (firstName c);
     res_lastName := orEmpty (lastName c);
     res_city := orEmpty (city c);
     res_phone := orEmpty (mobile c);
     res_email := orEmpty (email c);
     matchedKeywords := filter (hit text) (positiveKeywords f);
     cvPreview := text;
     extractedAt := createdAt c |}.

Definition acceptsb (f : Filters) (text : jsstring) : bool :=
  (match positiveKeywords f with [] => true | _ :: _ => false end
   || existsb (hit text) (positiveKeywords f))
  && negb (existsb (hit text) (negativeKeywords f)).

(** Lower-casing maps the empty string, and nothing else, to the empty
    string. *)
Hypothesis toLowerCase_nil : toLowerCase [] = [].
Hypothesis toLowerCase_nonempty : forall s, s <> [] -> toLowerCase s <> [].

Lemma textContainsKeyword_hit (text keyword : jsstring) :
  textContainsKeyword (Some text) keyword = hit text keyword.
Proof.
  unfold textContainsKeyword, hit, ciSubstring, present, orEmpty.
  destruct keyword as [|k ks]; simpl.
  - now rewrite orb_true_r.
  - destruct text as [|t ts]; simpl; [|reflexivity].
    rewrite toLowerCase_nil. symmetry. apply includes_nil_l.
    now apply toLowerCase_nonempty.
Qed.

Lemma positiveLoop_from (text : jsstring) (keywords : list jsstring)
  (flag : bool) (acc : list jsstring) :
  fold_left (positiveStep text) keywords (flag, acc)
  = (flag || existsb (hit text) keywords, acc ++ filter (hit text) keywords).
Proof.
  revert flag acc. induction keywords as [|k ks IH]; intros flag acc; simpl.
  - now rewrite orb_false_r, app_nil_r.
  - unfold positiveStep at 2. rewrite textContainsKeyword_hit.
    destruct (hit text k), flag; simpl; rewrite IH; simpl;
      rewrite <- ?app_assoc; reflexivity.
Qed.

Lemma positiveLoop_filter (text : jsstring) (keywords : list jsstring) :
  positiveLoop text keywords
  = (existsb (hit text) keywords, filter (hit text) keywords).
Proof. unfold positiveLoop. now rewrite positiveLoop_from. Qed.

Lemma negativeLoop_none (text : jsstring) (keywords : list jsstring) :
  negativeLoop text keywords = negb (existsb (hit text) keywords).
Proof.
  induction keywords as [|k ks IH]; simpl; [reflexivity|].
  rewrite textContainsKeyword_hit. now destruct (hit text k).
Qed.

Lemma examine_accepts (db : DB) (f : Filters) (c : Candidate) :
  examine db f c
  = if acceptsb f (candidateText db (includeNotes f) c)
    then Some (resultOf db f c) else None.
Proof.
  unfold examine, acceptsb, resultOf.
  set (text := candidateText db (includeNotes f) c).
  rewrite positiveLoop_filter, negativeLoop_none.
  destruct (positiveKeywords f) as [|p ps]; simpl.
  - destruct (negativeKeywords f) as [|n ns]; simpl; [reflexivity|].
    now destruct (hit text n || existsb (hit text) ns).
  - destruct (hit text p || existsb (hit text) ps); simpl; [|reflexivity].
    destruct (negativeKeywords f) as [|n ns]; simpl; [reflexivity|].
    now destruct (hit text n || existsb (hit text) ns).
Qed.

Lemma acceptsb_iff (f : Filters) (text : jsstring) :
  acceptsb f text = true <->
  (positiveKeywords f = [] \/
   exists k, In k (positiveKeywords f) /\ k <> []
             /\ ciSubstring text k = true)
  /\ (forall k, In k (negativeKeywords f) -> k <> [] ->
                ciSubstring text k = false).
Proof.
  unfold acceptsb. rewrite andb_true_iff, orb_true_iff, negb_true_iff.
  assert (forall k, hit text k = true <-> k <> [] /\ ciSubstring text k = true)
    as Hhit.
  { intros k. unfold hit. rewrite andb_true_iff.
    destruct k; simpl; intuition congruence. }
  split.
  - intros [Hp Hn]. split.
    + destruct Hp as [Hp|Hp].
      * left. destruct (positiveKeywords f); [reflexivity | discriminate].
      * right. apply existsb_exists in Hp. destruct Hp as [k [Hk Hh]].
        apply Hhit in Hh. exists k. tauto.
    + intros k Hk Hne.
      destruct (ciSubstring text k) eqn:E; [|reflexivity].
      assert (existsb (hit text) (negativeKeywords f) = true) as Hc.
      { apply existsb_exists. exists k. split; [exact Hk|].
        apply Hhit. auto. }
      congruence.
  - intros [Hp Hn]. split.
    + destruct Hp as [->|[k [Hk [Hne Hs]]]]; [now left|].
      right. apply existsb_exists. exists k. split; [exact Hk|].
      apply Hhit. auto.
    + destruct (existsb (hit text) (negativeKeywords f)) eqn:E;
        [|reflexivity].
      apply existsb_exists in E. destruct E as [k [Hk Hh]].
      apply Hhit in Hh. destruct Hh as [Hne Hs].
      rewrite (Hn k Hk Hne) in Hs. discriminate.
Qed.

(** C5 (amended) - a candidate appears in the result of the naive search
    exactly when the positive list is empty or one of its non-empty
    keywords is a case-insensitive substring of the candidate's
    searchable text, and no non-empty negative keyword is; every result
    describes a stored candidate, and its matched keywords are the
    non-empty positive keywords that are case-insensitive substrings of
    the searchable text. *)
Theorem searchCVs_membership (db : DB) (f : Filters) :
  (forall c, In c (candidates db) ->
     let text := candidateText db (includeNotes f) c in
     In (resultOf db f c) (searchCVs db f) <->
     (positiveKeywords f = [] \/
      exists k, In k (positiveKeywords f) /\ k <> []
                /\ ciSubstring text k = true)
     /\ (forall k, In k (negativeKeywords f) -> k <> [] ->
                   ciSubstring text k = false))
  /\ (forall r, In r (searchCVs db f) ->
       exists c, In c (candidates db) /\ r = resultOf db f c
                 /\ matchedKeywords r
                    = filter (fun k => truthy k && ciSubstring (cvPreview r) k)
                             (positiveKeywords f)).
Proof.
  split.
  - intros c Hc text. rewrite <- acceptsb_iff. unfold searchCVs.
    rewrite in_flat_map. split.
    + intros [c' [_ Hin]]. rewrite examine_accepts in Hin.
      destruct (acceptsb f (candidateText db (includeNotes f) c')) eqn:E;
        [|destruct Hin].
      destruct Hin as [Hr|[]].
      assert (candidateText db (includeNotes f) c' = text) as <-.
      { change (cvPreview (resultOf db f c') = cvPreview (resultOf db f c)).
        now rewrite Hr. }
      exact E.
    + intros Ha. exists c. split; [now apply orderByDesc_In|].
      rewrite examine_accepts. fold text. rewrite Ha. now left.
  - intros r Hr. unfold searchCVs in Hr. apply in_flat_map in Hr.
    destruct Hr as [c [Hc Hin]]. apply orderByDesc_In in Hc.
    rewrite examine_accepts in Hin.
    destruct (acceptsb f (candidateText db (includeNotes f) c));
      [|destruct Hin].
    destruct Hin as [<-|[]]. exists c. repeat split; auto.
Qed.

End WithBuiltins.

Lemma asciiLower_nonempty (s : jsstring) : s <> [] -> asciiLower s <> [].
Proof. destruct s; [congruence | discriminate]. Qed.

(** The sample store of the concrete runs: one candidate whose text
    holds only "Java", one whose text holds "Java" and "Junior". *)
Definition withProfession (i prof : String.string) (created : Z)
  : Candidate :=
  {| id := lit i; candidateNumber := None;
     firstName := Some (lit "Noa"); lastName := Some (lit "Bar");
     email := None; mobile := None; nationalId := None; city := None;
     profession := Some (lit prof);
     cvContent := None; cvPath := None; notes := None;
     recruitmentSource := None;
     createdAt := Some created; updatedAt := Some created |}.
Arguments withProfession (i prof)%_string created%_Z.

Definition senior : Candidate := withProfession "s" "Java developer" 1.
Definition junior : Candidate := withProfession "j" "Junior JAVA developer" 2.

Definition sampleDB : DB :=
  {| candidates := [senior; junior]; candidateEvents := []; jobs := [];
     jobApplications := [] |}.

Definition noFile : jsstring -> jsstring := fun _ => [].

Definition javaNotJunior : Filters :=
  {| positiveKeywords := [lit "Java"]; negativeKeywords := [lit "Junior"];
     includeNotes := false |}.

Example searchCVs_java_not_junior :
  map candidateId (searchCVs asciiLower noFile sampleDB javaNotJunior)
  = [lit "s"].
Proof. reflexivity. Qed.

Lemma searchCVs_membership_witness :
  In (resultOf asciiLower noFile sampleDB javaNotJunior senior)
     (searchCVs asciiLower noFile sampleDB javaNotJunior).
Proof.
  apply (proj1 (@searchCVs_membership asciiLower noFile eq_refl
                  asciiLower_nonempty sampleDB javaNotJunior) senior).
  - left. reflexivity.
  - split.
    + right. exists (lit "Java"). repeat split; [now left | discriminate].
    + intros k [<-|[]] _. reflexivity.
Defined.

(** C5 (as stated) fails on empty keywords: the empty string is a
    substring of every text, yet an empty positive keyword selects
    nobody and an empty negative keyword excludes nobody. *)
Lemma searchCVs_empty_keyword :
  let onlyEmpty := {| positiveKeywords := [lit ""]; negativeKeywords := [];
                      includeNotes := false |} in
  let notEmpty := {| positiveKeywords := []; negativeKeywords := [lit ""];
                     includeNotes := false |} in
  (ciSubstring asciiLower
     (candidateText noFile sampleDB false senior) (lit "") = true
   /\ searchCVs asciiLower noFile sampleDB onlyEmpty = [])
  /\ map candidateId (searchCVs asciiLower noFile sampleDB notEmpty)
     = [lit "j"; lit "s"].
Proof. repeat split; reflexivity. Qed.

End Search.

(* ================================================================= *)
(** ** Indexed search ([storage.ts], [searchCandidatesByKeywords])

    The function talks to the candidate store through two full-text
    queries.  A computation is a tree: it returns, or it issues a query
    and continues with the store's answer. *)

Module Indexed.

Inductive Query : Type :=
| CountMatching (searchQuery : jsstring)
| SelectRanked (searchQuery : jsstring) (limit offset : nat).

(** The answer to a query: the first row of the count (its [count]
    column, when there is a row), or the page of candidates. *)
Definition Answer (q : Query) : Type :=
  match q with
  | CountMatching _ => option Z
  | SelectRanked _ _ _ => list Candidate
  end.

Inductive Store (A : Type) : Type :=
| Ret (a : A)
| Ask (q : Query) (k : Answer q -> Store A).
Arguments Ret {A} a.
Arguments Ask {A} q k.

(** A store answers every query. *)
Definition Handler : Type := forall q : Query, Answer q.

(** Running a computation against a store: the value returned and the
    queries issued, in order. *)
Fixpoint exec {A : Type} (h : Handler) (m : Store A) : A * list Query :=
  match m with
  | Ret a => (a, [])
  | Ask q k => let '(a, log) := exec h (k (h q)) in (a, q :: log)
  end.

(** [keywords.split(' ').filter(k => k.trim().length > 0)] *)
Definition keywordList (keywords : jsstring) : list jsstring :=
  filter (fun k => 0 <? length (trim k)) (split 32 keywords).

Definition searchCandidatesByKeywords (keywords : jsstring)
  (limit offset : nat) : Store (list Candidate * Z) :=
  let keywordList := keywordList keywords in
  if length keywordList =? 0 then Ret ([], 0%Z)
  else
    let searchQuery := join (lit " & ") (map trim keywordList) in
    Ask (CountMatching searchQuery) (fun countResult =>
      let total := Numbering.orNumber countResult 0 in
      if (total =? 0)%Z then Ret ([], 0%Z)
      else
        Ask (SelectRanked searchQuery limit offset) (fun results =>
          Ret (results, total))).

Example keywordList_two :
  keywordList (lit " java  senior ") = [lit "java"; lit "senior"].
Proof. reflexivity. Qed.

Lemma trim_whitespace (s : jsstring) :
  Forall (fun c => isWhiteSpace c = true) s -> trim s = [].
Proof.
  intros H. unfold trim, trimStart.
  assert (dropWhile isWhiteSpace s = []) as ->.
  { induction H as [|c t Hc _ IH]; simpl; [reflexivity|]. now rewrite Hc. }
  reflexivity.
Qed.

Lemma split_whitespace (s : jsstring) :
  Forall (fun c => isWhiteSpace c = true) s ->
  Forall (Forall (fun c => isWhiteSpace c = true)) (split 32 s).
Proof.
  induction 1 as [|c t Hc _ IH]; simpl.
  - repeat constructor.
  - destruct (c =? 32)%N.
    + constructor; [constructor | exact IH].
    + destruct (split 32 t) as [|p ps]; [repeat constructor; exact Hc|].
      inversion IH; subst. constructor; [constructor; assumption | assumption].
Qed.

(** An empty or whitespace-only query has no term. *)
Lemma keywordList_whitespace (keywords : jsstring) :
  Forall (fun c => isWhiteSpace c = true) keywords ->
  keywordList keywords = [].
Proof.
  intros H. unfold keywordList. apply split_whitespace in H.
  induction H as [|p ps Hp _ IH]; simpl; [reflexivity|].
  now rewrite (trim_whitespace Hp).
Qed.

End Indexed.

(** C9 - when the query splits into no term, the indexed search returns the
    empty list and total 0 at once: the computation is a plain return,
    so no query reaches the store whatever the store would answer. *)
Theorem searchCandidatesByKeywords_no_terms
  (keywords : jsstring) (limit offset : nat) :
  Indexed.keywordList keywords = [] ->
  Indexed.searchCandidatesByKeywords keywords limit offset
  = Indexed.Ret ([], 0%Z)
  /\ forall h : Indexed.Handler,
       Indexed.exec h
         (Indexed.searchCandidatesByKeywords keywords limit offset)
       = (([], 0%Z), []).
Proof.
  intros H. unfold Indexed.searchCandidatesByKeywords. rewrite H.
  split; [reflexivity | intros h; reflexivity].
Qed.

Lemma searchCandidatesByKeywords_no_terms_witness :
  Indexed.searchCandidatesByKeywords (lit "") 50 0 = Indexed.Ret ([], 0%Z)
  /\ Indexed.searchCandidatesByKeywords (lit "   ") 50 0
     = Indexed.Ret ([], 0%Z).
Proof.
  split.
  - apply (searchCandidatesByKeywords_no_terms (lit "") 50 0). reflexivity.
  - apply (searchCandidatesByKeywords_no_terms (lit "   ") 50 0).
    apply Indexed.keywordList_whitespace. repeat constructor.
Defined.

(* ================================================================= *)
(** ** Job applications ([storage.ts], [createJobApplication];
       [routes.ts], POST /api/job-applications) *)

Module Applications.

(** What a duplicate attaches to the row it reports. *)
Record ExistingDetails : Type := mkExistingDetails {
  alreadyExisted : bool;
  originalAppliedAt : option (option Z);
  originalStatus : option (option jsstring);
  wasUpdated : option bool
}.

(** The object returned or attached to the error: the fields of a row
    (absent when the spread row is [undefined]) and, for a duplicate,
    the extra fields. *)
Record Reply : Type := mkReply {
  row : option JobApplication;
  details : option ExistingDetails
}.

(** A thrown value: a validation error of the schema parser, a plain
    [Error] with its message and, when set, its [existingApplication],
    or the error with which the database rejects a statement (it has no
    [existingApplication]). *)
Inductive Thrown : Type :=
| ZodError (errors : list jsstring)
| PlainError (message : jsstring) (existingApplication : option Reply)
| DatabaseError.

Inductive Outcome (A : Type) : Type :=
| Returned (a : A)
| Threw (e : Thrown).
Arguments Returned {A} a.
Arguments Threw {A} e.

Definition setJobApplications (db : DB) (apps : list JobApplication) : DB :=
  {| candidates := candidates db;
     candidateEvents := candidateEvents db;
     jobs := jobs db;
     jobApplications := apps |}.

(** [.set({ status })] on one row. *)
Definition setStatus (status : jsstring) (a : JobApplication)
  : JobApplication :=
  {| app_id := app_id a;
     app_candidateId := app_candidateId a;
     app_jobId := app_jobId a;
     app_status := Some status;
     app_appliedAt := app_appliedAt a;
     app_interviewDate := app_interviewDate a;
     app_notes := app_notes a;
     app_clientFeedback := app_clientFeedback a |}.

(** The labels of [application_status], the type of the status column,
    as [shared/schema.ts] declares it. *)
Definition applicationStatusEnum : list jsstring :=
  [ lit "submitted"; lit "reviewed"; lit "interview"; lit "rejected"
  ; lit "accepted" ].

(** [db.update(jobApplications).set({ status }).where(eq(id, key))
    .returning()]: the new table and the rows updated.  The database
    rejects a status that is not a label of the column's type, whatever
    the rows selected; [None] stands for the rejected statement. *)
Definition updateStatusById (key status : jsstring)
  (table : list JobApplication)
  : option (list JobApplication * list JobApplication) :=
  if existsb (str_eqb status) applicationStatusEnum then
    Some
      (map (fun a => if str_eqb (app_id a) key then setStatus status a else a)
           table,
       map (setStatus status)
           (filter (fun a => str_eqb (app_id a) key) table))
  else None.

(** [db.insert(jobApplications).values(application).returning()]; the
    status column defaults to ['submitted'], [appliedAt] to [now()].
    The request is taken to be one that the table accepts. *)
Definition insertJobApplication (d : Defaults)
  (application : InsertJobApplication) (db : DB) : JobApplication * DB :=
  let newRow :=
    {| app_id := newId d;
       app_candidateId := ins_app_candidateId application;
       app_jobId := ins_app_jobId application;
       app_status := match ins_app_status application with
                     | Some s => Some s
                     | None => Some (lit "submitted")
                     end;
       app_appliedAt := Some (now d);
       app_interviewDate := ins_app_interviewDate application;
       app_notes := ins_app_notes application;
       app_clientFeedback := ins_app_clientFeedback application |} in
  (newRow, setJobApplications db (jobApplications db ++ [newRow])).

(** The condition of the duplicate check: same candidate and same job. *)
Definition samePair (application : InsertJobApplication)
  (a : JobApplication) : SqlBool :=
  sql_and (sql_eq (app_candidateId a) (ins_app_candidateId application))
          (sql_eq (app_jobId a) (ins_app_jobId application)).

Definition existingFor (application : InsertJobApplication) (db : DB)
  : list JobApplication :=
  select_where (samePair application) (jobApplications db).

Definition duplicateMessage : jsstring :=
  lit "המועמד כבר הגיש מועמדות למשרה זו".

Definition statusIs (application : InsertJobApplication) (s : jsstring)
  : bool :=
  match ins_app_status application with
  | Some x => str_eqb x s
  | None => false
  end.

Definition createJobApplication (d : Defaults)
  (application : InsertJobApplication) (db : DB) : Outcome Reply * DB :=
  match existingFor application db with
  | existing0 :: _ =>
    if statusIs application (lit "interview_scheduled") then
      match updateStatusById (app_id existing0) (lit "interview_scheduled")
                             (jobApplications db) with
      | Some (table, updated) =>
        let updatedApplication := hd_error updated in
        let existingApplicationWithDetails :=
          {| row := updatedApplication;
             details := Some {| alreadyExisted := true;
                                originalAppliedAt :=
                                  Some (app_appliedAt existing0);
                                originalStatus :=
                                  Some (app_status existing0);
                                wasUpdated := Some true |} |} in
        (Returned existingApplicationWithDetails,
         setJobApplications db table)
      | None => (Threw DatabaseError, db)
      end
    else
      let existingApplication :=
        {| row := Some existing0;
           details := Some {| alreadyExisted := true;
                              originalAppliedAt := None;
                              originalStatus := None;
                              wasUpdated := None |} |} in
      (Threw (PlainError duplicateMessage (Some existingApplication)), db)
  | [] =>
    let '(newApplication, db1) := insertJobApplication d application db in
    (Returned {| row := Some newApplication; details := None |}, db1)
  end.

(** The HTTP answer of the route. *)
Inductive Body : Type :=
| JsonReply (r : Reply)
| JsonMessage (message : jsstring)
| JsonValidation (message : jsstring) (errors : list jsstring).

Record Response : Type := mkResponse {
  status : nat;
  body : Body
}.

(** The handler of POST /api/job-applications.  [parsed] is the outcome
    of [insertJobApplicationSchema.parse(req.body)]. *)
Definition postJobApplication (d : Defaults)
  (parsed : Outcome InsertJobApplication) (db : DB) : Response * DB :=
  let '(attempt, db1) :=
    match parsed with
    | Returned applicationData => createJobApplication d applicationData db
    | Threw e => (Threw e, db)
    end in
  match attempt with
  | Returned application =>
    ({| status := 201; body := JsonReply application |}, db1)
  | Threw (ZodError errors) =>
    ({| status := 400;
        body := JsonValidation (lit "Validation error") errors |}, db1)
  | Threw (PlainError _ _) | Threw DatabaseError =>
    ({| status := 500;
        body := JsonMessage (lit "Failed to create job application") |}, db1)
  end.

(** An application for the same candidate and job is already stored. *)
Definition alreadyApplied (application : InsertJobApplication) (db : DB)
  : Prop :=
  exists a, In a (jobApplications db)
            /\ is_true (samePair application a) = true.

Lemma existingFor_first (application : InsertJobApplication) (db : DB) :
  alreadyApplied application db ->
  exists e0 rest, existingFor application db = e0 :: rest
                  /\ In e0 (jobApplications db)
                  /\ is_true (samePair application e0) = true.
Proof.
  intros [a [Ha Hp]]. unfold existingFor, select_where.
  destruct (filter (fun r => is_true (samePair application r))
                   (jobApplications db)) as [|e0 rest] eqn:E.
  - assert (In a []) as [].
    rewrite <- E. apply filter_In. auto.
  - exists e0, rest. split; [reflexivity|].
    assert (In e0 (e0 :: rest)) as Hin by now left.
    rewrite <- E in Hin. apply filter_In in Hin. exact Hin.
Qed.

(** The statement that the update branch sends is rejected: the status
    it writes is not a label of the column's type. *)
Lemma updateStatusById_interview_scheduled (key : jsstring)
  (table : list JobApplication) :
  updateStatusById key (lit "interview_scheduled") table = None.
Proof. reflexivity. Qed.

(** When the pair already has an application and the requested status
    is ['interview_scheduled'], the call takes the update branch, the
    database rejects the update, and the call throws the database's
    error: no row is rewritten and none is added. *)
Lemma createJobApplication_interview_rejected (d : Defaults)
  (application : InsertJobApplication) (db : DB) :
  alreadyApplied application db ->
  ins_app_status application = Some (lit "interview_scheduled") ->
  createJobApplication d application db = (Threw DatabaseError, db).
Proof.
  intros Hdup Hst.
  destruct (existingFor_first Hdup) as [e0 [rest [E _]]].
  unfold createJobApplication, statusIs.
  now rewrite E, Hst, str_eqb_refl, updateStatusById_interview_scheduled.
Qed.


(** The route answers a duplicate like any other failure of the store:
    status 500 and the fixed message; the attached application is not
    sent. *)
Lemma postJobApplication_duplicate_generic (d : Defaults)
  (application : InsertJobApplication) (db : DB) :
  alreadyApplied application db ->
  ins_app_status application <> Some (lit "interview_scheduled") ->
  postJobApplication d (Returned application) db
  = ({| status := 500;
        body := JsonMessage (lit "Failed to create job application") |}, db).
Proof.
  intros Hdup Hst.
  destruct (existingFor_first Hdup) as [e0 [rest [E _]]].
  unfold postJobApplication, createJobApplication, statusIs. rewrite E.
  destruct (ins_app_status application) as [x|]; [|reflexivity].
  destruct (str_eqb x (lit "interview_scheduled")) eqn:Ex; [|reflexivity].
  apply str_eqb_eq in Ex. congruence.
Qed.

(** A store with one application, and two requests for the same pair. *)
Definition stored1 : JobApplication :=
  {| app_id := lit "app-1";
     app_candidateId := Some (lit "cand-1");
     app_jobId := Some (lit "job-1");
     app_status := Some (lit "submitted");
     app_appliedAt := Some 5%Z;
     app_interviewDate := None;
     app_notes := None;
     app_clientFeedback := None |}.

Definition oneApplication : DB :=
  {| candidates := []; candidateEvents := []; jobs := [];
     jobApplications := [stored1] |}.

Definition again (status : String.string) : InsertJobApplication :=
  {| ins_app_candidateId := Some (lit "cand-1");
     ins_app_jobId := Some (lit "job-1");
     ins_app_status := Some (lit status);
     ins_app_interviewDate := None;
     ins_app_notes := None;
     ins_app_clientFeedback := None |}.
Arguments again status%_string.

Definition later : Defaults := {| newId := lit "app-2"; now := 9%Z |}.


(** A stored application, and a request for an interview for the same
    candidate and job: the call throws and the store is as before. *)
Example createJobApplication_interview_failing_input :
  createJobApplication later (again "interview_scheduled") oneApplication
  = (Threw DatabaseError, oneApplication)
  /\ map app_status (jobApplications oneApplication)
     = [Some (lit "submitted")].
Proof. split; reflexivity. Qed.



End Applications.

(* ================================================================= *)
(** ** The inbound e-mail pipeline
       ([incomingEmailService.ts], [createCandidateFromEmail];
        [storage.ts], [getCandidates], [updateCandidate], [getJobs]) *)

Module Inbound.

Record ParsedCandidate : Type := mkParsedCandidate {
  pc_firstName : option jsstring;
  pc_lastName : option jsstring;
  pc_email : option jsstring;
  pc_phone : option jsstring;
  pc_jobCode : option jsstring;
  pc_originalSubject : option jsstring;
  pc_originalBody : option jsstring
}.

(** [Partial<InsertCandidate>]: a column left out is [None]; a column
    set, possibly to [null], is [Some]. *)
Record CandidatePatch : Type := mkCandidatePatch {
  set_candidateNumber : option (option Z);
  set_firstName : option (option jsstring);
  set_lastName : option (option jsstring);
  set_email : option (option jsstring);
  set_mobile : option (option jsstring);
  set_nationalId : option (option jsstring);
  set_city : option (option jsstring);
  set_profession : option (option jsstring);
  set_cvContent : option (option jsstring);
  set_cvPath : option (option jsstring);
  set_notes : option (option jsstring);
  set_recruitmentSource : option (option jsstring)
}.

Definition orKeep {A : Type} (s : option A) (old : A) : A :=
  match s with Some v => v | None => old end.

(** [.set({ ...candidate, updatedAt: new Date() })] on one row. *)
Definition applyPatch (t : Z) (p : CandidatePatch) (c : Candidate)
  : Candidate :=
  {| id := id c;
     candidateNumber := orKeep (set_candidateNumber p) (candidateNumber c);
     firstName := orKeep (set_firstName p) (firstName c);
     lastName := orKeep (set_lastName p) (lastName c);
     email := orKeep (set_email p) (email c);
     mobile := orKeep (set_mobile p) (mobile c);
     nationalId := orKeep (set_nationalId p) (nationalId c);
     city := orKeep (set_city p) (city c);
     profession := orKeep (set_profession p) (profession c);
     cvContent := orKeep (set_cvContent p) (cvContent c);
     cvPath := orKeep (set_cvPath p) (cvPath c);
     notes := orKeep (set_notes p) (notes c);
     recruitmentSource :=
       orKeep (set_recruitmentSource p) (recruitmentSource c);
     createdAt := createdAt c;
     updatedAt := Some t |}.

Definition updateCandidate (d : Defaults) (key : jsstring)
  (candidate : CandidatePatch) (db : DB) : option Candidate * DB :=
  let updated :=
    map (applyPatch (now d) candidate)
        (filter (fun c => str_eqb (id c) key) (candidates db)) in
  (hd_error updated,
   Numbering.setCandidates db
     (map (fun c => if str_eqb (id c) key
                    then applyPatch (now d) candidate c else c)
          (candidates db))).

(** [LIKE] with the wildcards [%] and [_] and the escape character
    [\].  A pattern that ends inside an escape matches nothing. *)
Fixpoint like (pattern s : jsstring) : bool :=
  match pattern with
  | [] => match s with [] => true | _ :: _ => false end
  | p :: rest =>
    if (p =? 37)%N then
      (fix anywhere (s : jsstring) : bool :=
         like rest s
         || match s with [] => false | _ :: t => anywhere t end) s
    else if (p =? 95)%N then
      match s with [] => false | _ :: t => like rest t end
    else if (p =? 92)%N then
      match rest with
      | [] => false
      | q :: rest' =>
        match s with [] => false | x :: t => (x =? q)%N && like rest' t end
      end
    else
      match s with [] => false | x :: t => (x =? p)%N && like rest t end
  end.

(** [a || b] on nullable text. *)
Definition sql_concat (a b : option jsstring) : option jsstring :=
  match a, b with
  | Some x, Some y => Some (x ++ y)
  | _, _ => None
  end.

Lemma NoDup_map_same {A B : Type} (f : A -> B) (l : list A) (x y : A) :
  NoDup (map f l) -> In x l -> In y l -> f x = f y -> x = y.
Proof.
  induction l as [|a l IH]; intros Hnd Hx Hy E; [destruct Hx|].
  simpl in Hnd. inversion Hnd as [|? ? Ha Hl]; subst.
  destruct Hx as [->|Hx], Hy as [->|Hy]; auto.
  - exfalso. apply Ha. rewrite E. now apply in_map.
  - exfalso. apply Ha. rewrite <- E. now apply in_map.
Qed.

Lemma dropWhile_app_stop (p : N -> bool) (a b : jsstring) :
  (exists c, In c a /\ p c = false) ->
  dropWhile p (a ++ b) = dropWhile p a ++ b.
Proof.
  induction a as [|x a IH]; intros [c [Hc Hp]]; [destruct Hc|]. simpl.
  destruct (p x) eqn:E; [|reflexivity].
  apply IH. destruct Hc as [->|Hc]; [congruence | eauto].
Qed.

(** Trailing blanks are cut from the last part only, when that part
    holds a visible character. *)
Lemma trimEnd_app (a b : jsstring) :
  (exists c, In c b /\ isWhiteSpace c = false) ->
  trimEnd (a ++ b) = a ++ trimEnd b.
Proof.
  intros [c [Hc Hw]]. unfold trimEnd. rewrite rev_app_distr.
  rewrite dropWhile_app_stop.
  - now rewrite rev_app_distr, rev_involutive.
  - exists c. split; [now apply in_rev in Hc | exact Hw].
Qed.

(** Text that begins with a visible character keeps its beginning. *)
Lemma trim_keep (c : N) (rest b : jsstring) :
  isWhiteSpace c = false ->
  (exists x, In x b /\ isWhiteSpace x = false) ->
  trim ((c :: rest) ++ b) = (c :: rest) ++ trimEnd b.
Proof.
  intros Hw Hb. unfold trim, trimStart.
  assert (dropWhile isWhiteSpace ((c :: rest) ++ b) = (c :: rest) ++ b) as ->.
  { simpl. now rewrite Hw. }
  now apply trimEnd_app.
Qed.

Section WithLower.

(** The database's lower-casing, as in the identity resolver. *)
Variable LOWER : jsstring -> jsstring.

(** [value ILIKE pattern] *)
Definition ILIKE (value : option jsstring) (pattern : jsstring) : SqlBool :=
  option_map (fun v => like (LOWER pattern) (LOWER v)) value.

(** [getCandidates(limit, offset, search)]; the date filter is not
    passed on this path. *)
Definition getCandidates (limit offset : nat) (search : option jsstring)
  (db : DB) : list Candidate * nat :=
  let conditions :=
    match search with
    | Some s =>
      if truthy s then
        let pattern := lit "%" ++ s ++ lit "%" in
        [fun c =>
           sql_or
             (sql_or
                (ILIKE (sql_concat (sql_concat (firstName c) (Some (lit " ")))
                                   (lastName c)) pattern)
                (ILIKE (email c) pattern))
             (ILIKE (profession c) pattern)]
      else []
    | None => []
    end in
  let whereCondition : Candidate -> SqlBool :=
    fun c => fold_left (fun acc cond => sql_and acc (cond c))
                       conditions (Some true) in
  let candidateResults :=
    firstn limit
      (skipn offset
         (orderByDesc createdAt
            (select_where whereCondition (candidates db)))) in
  let total := length (select_where whereCondition (candidates db)) in
  (candidateResults, total).

(** [getJobs(limit, offset)] with no search term. *)
Definition getJobs (limit offset : nat) (db : DB) : list Job * nat :=
  (firstn limit (skipn offset (orderByDesc job_createdAt (jobs db))),
   length (jobs db)).

(** [a || b] on optional strings. *)
Definition orElse (a b : option jsstring) : option jsstring :=
  if Search.present a then a else b.

(** [${x}] in a template literal. *)
Definition shown (x : option jsstring) : jsstring :=
  match x with Some s => s | None => lit "undefined" end.

Definition nl : jsstring := [10%N].

(** [c.email === candidateData.email] *)
Definition sameEmail (data : ParsedCandidate) (c : Candidate) : bool :=
  match email c, pc_email data with
  | Some a, Some b => str_eqb a b
  | _, _ => false
  end.

(** The block written after the existing notes. *)
Definition newMailBlock (data : ParsedCandidate) : jsstring :=
  nl ++ nl ++ lit "--- מייל חדש ---" ++ nl
  ++ lit "נושא: " ++ shown (pc_originalSubject data) ++ nl
  ++ lit "תוכן:" ++ nl ++ shown (pc_originalBody data).

(** The update sent for an existing candidate. *)
Definition mergePatch (data : ParsedCandidate) (existingCandidate : Candidate)
  : CandidatePatch :=
  {| set_candidateNumber := None;
     set_firstName :=
       Some (orElse (pc_firstName data) (firstName existingCandidate));
     set_lastName :=
       Some (orElse (pc_lastName data) (lastName existingCandidate));
     set_email := None;
     set_mobile := Some (orElse (pc_phone data) (mobile existingCandidate));
     set_nationalId := None;
     set_city := None;
     set_profession := None;
     set_cvContent := None;
     set_cvPath := None;
     set_notes :=
       Some (Some (trim (Search.orEmpty (notes existingCandidate)
                         ++ newMailBlock data)));
     set_recruitmentSource := None |}.

(** The profile created when no candidate matches. *)
Definition newProfile (data : ParsedCandidate) : InsertCandidate :=
  {| ins_candidateNumber := None;
     ins_firstName := orElse (pc_firstName data) (Some (lit "מועמד"));
     ins_lastName := orElse (pc_lastName data) (Some (lit "חדש"));
     ins_email := pc_email data;
     ins_mobile := pc_phone data;
     ins_nationalId := None;
     ins_city := Some (lit "לא צוין");
     ins_profession :=
       if Search.present (pc_jobCode data)
       then Some (lit "מועמדות ממייל") else None;
     ins_cvContent := None;
     ins_cvPath := None;
     ins_notes :=
       Some (lit "--- מייל מקורי ---" ++ nl
             ++ lit "נושא: " ++ shown (pc_originalSubject data) ++ nl
             ++ lit "תוכן:" ++ nl ++ shown (pc_originalBody data));
     ins_recruitmentSource := Some (lit "מייל נכנס") |}.

(** A stored candidate carries the e-mail [e]. *)
Definition emailStored (e : jsstring) (db : DB) : bool :=
  existsb (fun c => match email c with
                    | Some stored => str_eqb stored e
                    | None => false
                    end) (candidates db).

(** The constraints that [shared/schema.ts] declares on the columns an
    insert into the candidates table fills: the first name, the last
    name and the e-mail are NOT NULL and the e-mail is UNIQUE.  The
    database rejects an insert that breaks one of them. *)
Definition insertAccepted (candidate : InsertCandidate) (db : DB) : bool :=
  match ins_firstName candidate, ins_lastName candidate,
        ins_email candidate with
  | Some _, Some _, Some e => negb (emailStored e db)
  | _, _, _ => false
  end.

(** [storage.createCandidate] as the pipeline calls it: when the
    database rejects the insert the call throws, which [None] stands
    for. *)
Definition createCandidateOrThrow (d : Defaults) (candidate : InsertCandidate)
  (db : DB) : option (Candidate * DB) :=
  if insertAccepted candidate db
  then Some (Numbering.createCandidate d candidate db)
  else None.

(** The first half of the function: update the matching candidate or
    create a new one; the id carried on and the store.  [None] stands
    for an error thrown on the way: the insert rejected, or the id read
    from a row that [find] did not return. *)
Definition resolveCandidate (d : Defaults) (data : ParsedCandidate) (db : DB)
  : option (jsstring * DB) :=
  let existingCandidates := fst (getCandidates 100 0 (pc_email data) db) in
  if existsb (sameEmail data) existingCandidates then
    match find (sameEmail data) existingCandidates with
    | Some existingCandidate =>
      let candidateId := id existingCandidate in
      Some (candidateId,
            snd (updateCandidate d candidateId
                   (mergePatch data existingCandidate) db))
    | None => None
    end
  else
    match createCandidateOrThrow d (newProfile data) db with
    | Some (newCandidate, db1) => Some (id newCandidate, db1)
    | None => None
    end.

(** The second half: link the candidate to the first job that the job
    code names.  An error of [createJobApplication] is caught and
    logged. *)
Definition linkJob (d : Defaults) (data : ParsedCandidate)
  (candidateId : jsstring) (db : DB) : DB :=
  match pc_jobCode data with
  | Some jobCode =>
    if truthy jobCode then
      let jobs := fst (getJobs 100 0 db) in
      let matchingJob :=
        find (fun job =>
                str_eqb (job_id job) jobCode
                || includes (job_title job) jobCode
                || match job_description job with
                   | Some text => includes text jobCode
                   | None => false
                   end) jobs in
      match matchingJob with
      | Some job =>
        snd (Applications.createJobApplication d
               {| ins_app_candidateId := Some candidateId;
                  ins_app_jobId := Some (job_id job);
                  ins_app_status := Some (lit "submitted");
                  ins_app_interviewDate := None;
                  ins_app_notes :=
                    Some (lit "מועמדות אוטומטית ממייל נכנס" ++ nl
                          ++ lit "קוד משרה: " ++ jobCode ++ nl
                          ++ lit "נושא המייל: "
                          ++ shown (pc_originalSubject data));
                  ins_app_clientFeedback := None |} db)
      | None => db
      end
    else db
  | None => db
  end.

(** The whole function; an error thrown in its first half is caught by
    the outer [catch], which logs it: the function ends there. *)
Definition createCandidateFromEmail (d1 d2 : Defaults)
  (candidateData : ParsedCandidate) (db : DB) : DB :=
  match resolveCandidate d1 candidateData db with
  | Some (candidateId, db1) => linkJob d2 candidateData candidateId db1
  | None => db
  end.

Lemma getCandidates_In (limit offset : nat) (search : option jsstring)
  (db : DB) (c : Candidate) :
  In c (fst (getCandidates limit offset search db)) -> In c (candidates db).
Proof.
  unfold getCandidates. cbn [fst]. intros H.
  apply firstn_incl, skipn_incl in H.
  apply orderByDesc_In in H. unfold select_where in H.
  now apply filter_In in H.
Qed.

Lemma createJobApplication_candidates (d : Defaults)
  (application : InsertJobApplication) (db : DB) :
  candidates (snd (Applications.createJobApplication d application db))
  = candidates db.
Proof.
  unfold Applications.createJobApplication.
  destruct (Applications.existingFor application db) as [|e0 rest];
    [reflexivity|].
  now destruct (Applications.statusIs application (lit "interview_scheduled")).
Qed.

Lemma linkJob_candidates (d : Defaults) (data : ParsedCandidate)
  (candidateId : jsstring) (db : DB) :
  candidates (linkJob d data candidateId db) = candidates db.
Proof.
  unfold linkJob. destruct (pc_jobCode data) as [jobCode|]; [|reflexivity].
  destruct (truthy jobCode); [|reflexivity].
  match goal with |- context [find ?f ?l] => destruct (find f l) end;
    [apply createJobApplication_candidates | reflexivity].
Qed.

Lemma createCandidateFromEmail_candidates (d1 d2 : Defaults)
  (data : ParsedCandidate) (db : DB) :
  candidates (createCandidateFromEmail d1 d2 data db)
  = match resolveCandidate d1 data db with
    | Some (_, db1) => candidates db1
    | None => candidates db
    end.
Proof.
  unfold createCandidateFromEmail.
  destruct (resolveCandidate d1 data db) as [[candidateId db1]|];
    [apply linkJob_candidates | reflexivity].
Qed.

Lemma emailStored_iff (e : jsstring) (db : DB) :
  emailStored e db = true
  <-> exists c, In c (candidates db) /\ email c = Some e.
Proof.
  unfold emailStored. rewrite existsb_exists. split.
  - intros [c [Hc H]]. exists c. split; [exact Hc|].
    destruct (email c) as [stored|]; [|discriminate].
    apply str_eqb_eq in H. now subst.
  - intros [c [Hc H]]. exists c. split; [exact Hc|].
    rewrite H. apply str_eqb_refl.
Qed.

(** The profile built from a message lacks neither name; the insert is
    accepted exactly when the message has an e-mail that no stored
    candidate carries. *)
Lemma insertAccepted_newProfile (data : ParsedCandidate) (db : DB) :
  insertAccepted (newProfile data) db
  = match pc_email data with
    | Some e => negb (emailStored e db)
    | None => false
    end.
Proof.
  unfold insertAccepted, newProfile, orElse.
  cbn [ins_firstName ins_lastName ins_email].
  destruct (pc_firstName data) as [[|? ?]|], (pc_lastName data) as [[|? ?]|];
    reflexivity.
Qed.

(** The candidate in the search result that the pipeline takes for the
    sender, if any. *)
Definition matched (data : ParsedCandidate) (db : DB) : option Candidate :=
  find (sameEmail data) (fst (getCandidates 100 0 (pc_email data) db)).

Lemma matched_some (data : ParsedCandidate) (db : DB) (existing : Candidate) :
  matched data db = Some existing ->
  In existing (candidates db) /\ sameEmail data existing = true
  /\ existsb (sameEmail data) (fst (getCandidates 100 0 (pc_email data) db))
     = true.
Proof.
  unfold matched. intros H. pose proof (find_some _ _ H) as [Hin Hs].
  split; [now apply getCandidates_In in Hin|]. split; [exact Hs|].
  apply existsb_exists. eauto.
Qed.

Lemma matched_none (data : ParsedCandidate) (db : DB) :
  matched data db = None <->
  existsb (sameEmail data) (fst (getCandidates 100 0 (pc_email data) db))
  = false.
Proof.
  unfold matched. split.
  - intros H. destruct (existsb _ _) eqn:E; [|reflexivity].
    apply existsb_exists in E. destruct E as [c [Hc Hs]].
    pose proof (find_none _ _ H c Hc). congruence.
  - intros H. destruct (find _ _) as [c|] eqn:E; [|reflexivity].
    apply find_some in E. destruct E as [Hc Hs].
    assert (existsb (sameEmail data)
              (fst (getCandidates 100 0 (pc_email data) db)) = true)
      by (apply existsb_exists; eauto).
    congruence.
Qed.

Lemma newMailBlock_visible (data : ParsedCandidate) :
  exists c, In c (newMailBlock data) /\ isWhiteSpace c = false.
Proof.
  exists 45%N. split; [|reflexivity].
  unfold newMailBlock. do 2 (apply in_or_app; right).
  apply in_or_app. left. vm_compute. now left.
Qed.


(** C3 (amended) - when the search result holds a candidate with the
    extracted e-mail, that candidate's row is rewritten and no other: the
    first name, the last name and the mobile become the extracted value
    whenever one was extracted, and stay as stored only otherwise; the
    notes become the stored notes followed by the block of the new
    message, the whole trimmed; stored notes that begin with a visible
    character are kept in full in front of the block. *)
Theorem createCandidateFromEmail_merge (d1 d2 : Defaults)
  (data : ParsedCandidate) (db : DB) (existing : Candidate) :
  NoDup (map id (candidates db)) ->
  matched data db = Some existing ->
  let merged := applyPatch (now d1) (mergePatch data existing) existing in
  candidates (createCandidateFromEmail d1 d2 data db)
  = map (fun c => if str_eqb (id c) (id existing) then merged else c)
        (candidates db)
  /\ In merged (candidates (createCandidateFromEmail d1 d2 data db))
  /\ firstName merged
     = (if Search.present (pc_firstName data) then pc_firstName data
        else firstName existing)
  /\ lastName merged
     = (if Search.present (pc_lastName data) then pc_lastName data
        else lastName existing)
  /\ mobile merged
     = (if Search.present (pc_phone data) then pc_phone data
        else mobile existing)
  /\ notes merged
     = Some (trim (Search.orEmpty (notes existing) ++ newMailBlock data))
  /\ (forall c rest, notes existing = Some (c :: rest) ->
                     isWhiteSpace c = false ->
                     notes merged
                     = Some ((c :: rest) ++ trimEnd (newMailBlock data))).
Proof.
  intros Hpk Hm merged.
  destruct (matched_some _ _ Hm) as [Hin [Hsame Hex]].
  assert (candidates (createCandidateFromEmail d1 d2 data db)
          = map (fun c => if str_eqb (id c) (id existing) then merged else c)
                (candidates db)) as Hc.
  { rewrite createCandidateFromEmail_candidates. unfold resolveCandidate.
    rewrite Hex. fold (matched data db). rewrite Hm. cbn [snd fst].
    unfold updateCandidate. cbn [snd Numbering.setCandidates candidates].
    apply map_ext_in. intros c Hcin.
    destruct (str_eqb (id c) (id existing)) eqn:E; [|reflexivity].
    apply str_eqb_eq in E.
    now rewrite (NoDup_map_same id _ c existing Hpk Hcin Hin E). }
  split; [exact Hc|]. split.
  { rewrite Hc. apply in_map_iff. exists existing.
    now rewrite str_eqb_refl. }
  repeat split.
  intros c rest Hn Hw. unfold merged.
  cbn [notes applyPatch mergePatch set_notes orKeep].
  rewrite Hn. cbn [Search.orEmpty]. f_equal.
  apply trim_keep; [exact Hw | apply newMailBlock_visible].
Qed.

(** C4 (amended) - the pipeline decides between update and creation by
    exact equality of the extracted e-mail with the e-mail of a row in
    the text search for that e-mail (at most the 100 most recent hits);
    the extracted phone plays no part.  With such a row no profile is
    added.  Without one, exactly one profile, built from the message, is
    added after the stored ones when no stored candidate carries the
    e-mail; when one does, outside the rows of the search, the database
    rejects the insert, the error is caught, and the store stays as it
    was. *)
Theorem createCandidateFromEmail_decision (d1 d2 : Defaults)
  (data : ParsedCandidate) (db : DB) (e : jsstring) :
  pc_email data = Some e ->
  let hits := fst (getCandidates 100 0 (Some e) db) in
  (existsb (sameEmail data) hits = true ->
     length (candidates (createCandidateFromEmail d1 d2 data db))
     = length (candidates db))
  /\ (existsb (sameEmail data) hits = false ->
      (forall c, In c (candidates db) -> email c <> Some e) ->
      candidates (createCandidateFromEmail d1 d2 data db)
      = candidates db
        ++ [fst (Numbering.createCandidate d1 (newProfile data) db)])
  /\ (existsb (sameEmail data) hits = false ->
      (exists c, In c (candidates db) /\ email c = Some e) ->
      createCandidateFromEmail d1 d2 data db = db)
  /\ (forall phone,
        existsb (sameEmail
                   {| pc_firstName := pc_firstName data;
                      pc_lastName := pc_lastName data;
                      pc_email := pc_email data;
                      pc_phone := phone;
                      pc_jobCode := pc_jobCode data;
                      pc_originalSubject := pc_originalSubject data;
                      pc_originalBody := pc_originalBody data |}) hits
        = existsb (sameEmail data) hits).
Proof.
  intros He hits. split; [|split; [|split]].
  - intros Hex. rewrite createCandidateFromEmail_candidates.
    unfold resolveCandidate. rewrite He. fold hits. rewrite Hex.
    destruct (find (sameEmail data) hits) as [existing|]; [|reflexivity].
    cbn [snd updateCandidate Numbering.setCandidates candidates].
    apply length_map.
  - intros Hex Hfree. rewrite createCandidateFromEmail_candidates.
    unfold resolveCandidate, createCandidateOrThrow.
    rewrite He. fold hits. rewrite Hex.
    rewrite insertAccepted_newProfile, He.
    assert (emailStored e db = false) as ->; [|reflexivity].
    destruct (emailStored e db) eqn:E; [|reflexivity].
    apply emailStored_iff in E. destruct E as [c [Hc Hce]].
    now apply Hfree in Hc.
  - intros Hex Htaken. unfold createCandidateFromEmail.
    unfold resolveCandidate, createCandidateOrThrow.
    rewrite He. fold hits. rewrite Hex.
    rewrite insertAccepted_newProfile, He.
    apply emailStored_iff in Htaken. now rewrite Htaken.
  - intros phone. reflexivity.
Qed.

End WithLower.

(** A store with one candidate, and three messages. *)
Definition dana (storedNotes : String.string) : Candidate :=
  {| id := lit "cand-1"; candidateNumber := Some 100%Z;
     firstName := Some (lit "Dana"); lastName := Some (lit "Levi");
     email := Some (lit "dana@x.org"); mobile := Some (lit "0501234567");
     nationalId := None; city := Some (lit "Haifa"); profession := None;
     cvContent := None; cvPath := None;
     notes := Some (lit storedNotes);
     recruitmentSource := None;
     createdAt := Some 5%Z; updatedAt := Some 5%Z |}.
Arguments dana storedNotes%_string.

Definition onlyDana (storedNotes : String.string) : DB :=
  {| candidates := [dana storedNotes]; candidateEvents := []; jobs := [];
     jobApplications := [] |}.
Arguments onlyDana storedNotes%_string.

Definition message (first mail phone : String.string) : ParsedCandidate :=
  {| pc_firstName := Some (lit first);
     pc_lastName := None;
     pc_email := Some (lit mail);
     pc_phone := Some (lit phone);
     pc_jobCode := None;
     pc_originalSubject := Some (lit "CV");
     pc_originalBody := Some (lit "hello") |}.
Arguments message (first mail phone)%_string.

Definition t1 : Defaults := {| newId := lit "cand-2"; now := 9%Z |}.
Definition t2 : Defaults := {| newId := lit "app-9"; now := 9%Z |}.

Lemma createCandidateFromEmail_merge_witness :
  let data := message "Dan" "dana@x.org" "0529999999" in
  let existing := dana "first contact" in
  candidates (createCandidateFromEmail asciiLower t1 t2 data
                (onlyDana "first contact"))
  = map (fun c => if str_eqb (id c) (id existing)
                  then applyPatch (now t1) (mergePatch data existing) existing
                  else c)
        (candidates (onlyDana "first contact")).
Proof.
  apply (proj1 (@createCandidateFromEmail_merge asciiLower t1 t2
                  (message "Dan" "dana@x.org" "0529999999")
                  (onlyDana "first contact") (dana "first contact")
                  ltac:(repeat constructor; simpl; tauto) eq_refl)).
Defined.

(** C3 (as stated) fails: the stored candidate has a first name and a
    mobile, and the merge replaces both by the extracted ones; and stored
    notes that begin with blanks lose them. *)
Lemma createCandidateFromEmail_merge_counterexample :
  let after :=
    candidates (createCandidateFromEmail asciiLower t1 t2
                  (message "Dan" "dana@x.org" "0529999999")
                  (onlyDana "  first contact")) in
  (map firstName (candidates (onlyDana "  first contact"))
   = [Some (lit "Dana")]
   /\ map firstName after = [Some (lit "Dan")])
  /\ (map mobile (candidates (onlyDana "  first contact"))
      = [Some (lit "0501234567")]
      /\ map mobile after = [Some (lit "0529999999")])
  /\ map notes after
     = [Some (lit "first contact" ++ nl ++ nl ++ lit "--- מייל חדש ---"
              ++ nl ++ lit "נושא: CV" ++ nl ++ lit "תוכן:" ++ nl
              ++ lit "hello")].
Proof. repeat split; reflexivity. Qed.

(** A store whose only candidate has a backslash in the e-mail: the
    search pattern built from that e-mail reads the backslash as an
    escape and does not match the row. *)
Definition escaped : DB :=
  {| candidates :=
       [ {| id := lit "cand-1"; candidateNumber := Some 100%Z;
            firstName := Some (lit "Dana"); lastName := Some (lit "Levi");
            email := Some (lit "d\ana@x.org"); mobile := None;
            nationalId := None; city := None; profession := None;
            cvContent := None; cvPath := None; notes := None;
            recruitmentSource := None;
            createdAt := Some 5%Z; updatedAt := Some 5%Z |} ];
     candidateEvents := []; jobs := []; jobApplications := [] |}.

Lemma createCandidateFromEmail_decision_witness :
  length (candidates (createCandidateFromEmail asciiLower t1 t2
                        (message "Dan" "dana@x.org" "0529999999")
                        (onlyDana "first contact")))
  = length (candidates (onlyDana "first contact"))
  /\ createCandidateFromEmail asciiLower t1 t2
       (message "Dan" "d\ana@x.org" "0529999999") escaped
     = escaped
  /\ map id (candidates (createCandidateFromEmail asciiLower t1 t2
                            (message "Dana" "other@x.org" "0501234567")
                            (onlyDana "first contact")))
     = [lit "cand-1"; lit "cand-2"].
Proof.
  split; [|split].
  - apply (proj1 (@createCandidateFromEmail_decision asciiLower t1 t2
                    (message "Dan" "dana@x.org" "0529999999")
                    (onlyDana "first contact") (lit "dana@x.org") eq_refl)).
    reflexivity.
  - apply (proj1 (proj2 (proj2
             (@createCandidateFromEmail_decision asciiLower t1 t2
                (message "Dan" "d\ana@x.org" "0529999999")
                escaped (lit "d\ana@x.org") eq_refl)))).
    + reflexivity.
    + eexists. split; [now left | reflexivity].
  - rewrite (proj1 (proj2
               (@createCandidateFromEmail_decision asciiLower t1 t2
                  (message "Dana" "other@x.org" "0501234567")
                  (onlyDana "first contact") (lit "other@x.org") eq_refl))).
    + reflexivity.
    + reflexivity.
    + intros c [<-|[]]. discriminate.
Defined.

(** C4 (as stated) fails: the identity resolver finds the stored
    candidate by the extracted phone, and by the extracted e-mail in
    another letter case, yet in both cases the pipeline adds a second
    profile. *)
Lemma createCandidateFromEmail_decision_counterexample :
  let byPhone := message "Dana" "other@x.org" "0501234567" in
  let byCase := message "Dana" "Dana@X.org" "0529999999" in
  (Resolver.findCandidateByContactInfo asciiLower
     (candidates (onlyDana "first contact"))
     (pc_phone byPhone) (pc_email byPhone) None
   = Some (dana "first contact")
   /\ map email (candidates (createCandidateFromEmail asciiLower t1 t2 byPhone
                               (onlyDana "first contact")))
      = [Some (lit "dana@x.org"); Some (lit "other@x.org")])
  /\ (Resolver.findCandidateByContactInfo asciiLower
        (candidates (onlyDana "first contact"))
        (pc_phone byCase) (pc_email byCase) None
      = Some (dana "first contact")
      /\ map email (candidates (createCandidateFromEmail asciiLower t1 t2
                                  byCase (onlyDana "first contact")))
         = [Some (lit "dana@x.org"); Some (lit "Dana@X.org")]).
Proof. repeat split; reflexivity. Qed.

End Inbound.

(* ================================================================= *)
(** ** Regular expressions

    A backtracking matcher for the constructs the extraction patterns
    use: character classes, sequence, ordered alternative, greedy
    repetition, capturing groups and the word boundary.  The matcher is
    written in continuation-passing style: [run r st k] matches [r] at
    [st] and hands every way of doing so, in priority order, to [k]. *)

Module Regex.

Inductive regex : Type :=
| Eps
| Chr (cls : N -> bool)
| Seq (a b : regex)
| Alt (a b : regex)
| Star (a : regex)
| Group (n : nat) (a : regex)
| WordBoundary.

(** The position of the matcher: the character before it, the text
    ahead, and the groups captured so far. *)
Record State : Type := mkState {
  prev : option N;
  rest : jsstring;
  caps : list (nat * jsstring)
}.

Definition isDigit (c : N) : bool := ((48 <=? c) && (c <=? 57))%N.
Definition isUpper (c : N) : bool := ((65 <=? c) && (c <=? 90))%N.
Definition isLower (c : N) : bool := ((97 <=? c) && (c <=? 122))%N.
Definition isWordChar (c : N) : bool :=
  (isUpper c || isLower c || isDigit c || (c =? 95))%N.

Definition wordBefore (st : State) : bool :=
  match prev st with Some c => isWordChar c | None => false end.
Definition wordAhead (st : State) : bool :=
  match rest st with c :: _ => isWordChar c | [] => false end.

(** The text between two positions of one scan. *)
Definition consumed (from to : State) : jsstring :=
  firstn (length (rest from) - length (rest to)) (rest from).

(** Greedy repetition of a matcher [step]: one more round when it
    moves the position on, else the continuation.  [fuel] bounds the
    rounds; the text ahead has that many characters at most. *)
Fixpoint starLoop (step : State -> (State -> option State) -> option State)
  (k : State -> option State) (fuel : nat) (st : State) {struct fuel}
  : option State :=
  match fuel with
  | O => k st
  | S fuel' =>
    match step st (fun st1 =>
            if length (rest st1) <? length (rest st)
            then starLoop step k fuel' st1 else None) with
    | Some found => Some found
    | None => k st
    end
  end.

Fixpoint run (r : regex) (st : State) (k : State -> option State)
  {struct r} : option State :=
  match r with
  | Eps => k st
  | Chr cls =>
    match rest st with
    | c :: t =>
      if cls c
      then k {| prev := Some c; rest := t; caps := caps st |}
      else None
    | [] => None
    end
  | Seq a b => run a st (fun st1 => run b st1 k)
  | Alt a b =>
    match run a st k with
    | Some found => Some found
    | None => run b st k
    end
  | Star a => starLoop (run a) k (S (length (rest st))) st
  | Group n a =>
    run a st (fun st1 =>
      k {| prev := prev st1; rest := rest st1;
           caps := (n, consumed st st1) :: caps st1 |})
  | WordBoundary =>
    if xorb (wordBefore st) (wordAhead st) then k st else None
  end.

(** Derived forms. *)
Definition Opt (a : regex) : regex := Alt a Eps.
Definition Plus (a : regex) : regex := Seq a (Star a).
Fixpoint Rep (n : nat) (a : regex) : regex :=
  match n with
  | O => Eps
  | S n' => Seq a (Rep n' a)
  end.
(** [a{n,}] *)
Definition AtLeast (n : nat) (a : regex) : regex := Seq (Rep n a) (Star a).
(** [a{n,n+extra}] *)
Fixpoint UpTo (extra : nat) (a : regex) : regex :=
  match extra with
  | O => Eps
  | S e => Opt (Seq a (UpTo e a))
  end.
Definition Between (n extra : nat) (a : regex) : regex :=
  Seq (Rep n a) (UpTo extra a).
(** A literal. *)
Fixpoint Lit (s : jsstring) : regex :=
  match s with
  | [] => Eps
  | c :: t => Seq (Chr (N.eqb c)) (Lit t)
  end.
(** A literal under the [i] flag: an ASCII letter stands for both of
    its cases; other characters of the patterns have no case. *)
Definition sameLetter (c x : N) : bool :=
  ((x =? c)
   || (isUpper c && (x =? c + 32))
   || (isLower c && (x =? c - 32)))%N.
Fixpoint LitI (s : jsstring) : regex :=
  match s with
  | [] => Eps
  | c :: t => Seq (Chr (sameLetter c)) (LitI t)
  end.
Definition Digit : regex := Chr isDigit.
Definition Space : regex := Chr isWhiteSpace.

(** The leftmost match: the position where it starts and the one where
    it ends. *)
Fixpoint searchFrom (r : regex) (before : option N) (s : jsstring)
  : option (State * State) :=
  let start := {| prev := before; rest := s; caps := [] |} in
  match run r start (fun st => Some st) with
  | Some stop => Some (start, stop)
  | None =>
    match s with
    | [] => None
    | c :: t => searchFrom r (Some c) t
    end
  end.

Fixpoint lookup (n : nat) (l : list (nat * jsstring)) : option jsstring :=
  match l with
  | [] => None
  | (m, v) :: t => if m =? n then Some v else lookup n t
  end.

(** [s.match(r)] for a pattern without the [g] flag and with [groups]
    groups: the array of the match and the groups, an unset group being
    [undefined]; [None] is [null]. *)
Definition matchOnce (r : regex) (groups : nat) (s : jsstring)
  : option (list (option jsstring)) :=
  match searchFrom r None s with
  | Some (start, stop) =>
    Some (Some (consumed start stop)
          :: map (fun n => lookup n (caps stop)) (seq 1 groups))
  | None => None
  end.

(** [s.match(r)] for a pattern with the [g] flag: all the matches, left
    to right; an empty match moves the scan one character on. *)
Fixpoint matchesFrom (fuel : nat) (r : regex) (before : option N)
  (s : jsstring) : list jsstring :=
  match fuel with
  | O => []
  | S fuel' =>
    match searchFrom r before s with
    | None => []
    | Some (start, stop) =>
      let found := consumed start stop in
      found ::
      match found with
      | [] => match rest stop with
              | [] => []
              | c :: t => matchesFrom fuel' r (Some c) t
              end
      | _ :: _ => matchesFrom fuel' r (prev stop) (rest stop)
      end
    end
  end.

Definition matchAll (r : regex) (s : jsstring) : option (list jsstring) :=
  match matchesFrom (S (length s)) r None s with
  | [] => None
  | found => Some found
  end.

(** [s.replace(r, '')] for a pattern without the [g] flag. *)
Definition removeFirst (r : regex) (s : jsstring) : jsstring :=
  match searchFrom r None s with
  | Some (start, stop) =>
    firstn (length s - length (rest start)) s ++ rest stop
  | None => s
  end.

(** [s.split(/\s+/)] *)
Fixpoint splitSpacesFrom (current : jsstring) (inGap : bool) (s : jsstring)
  : list jsstring :=
  match s with
  | [] => if inGap then [[]] else [rev current]
  | c :: t =>
    if isWhiteSpace c then
      if inGap then splitSpacesFrom [] true t
      else rev current :: splitSpacesFrom [] true t
    else splitSpacesFrom (c :: current) false t
  end.

(** The groups that every match of a pattern sets. *)
Fixpoint sets (r : regex) (n : nat) : bool :=
  match r with
  | Seq a b => sets a n || sets b n
  | Alt a b => sets a n && sets b n
  | Group m a => (m =? n) || sets a n
  | Eps | Chr _ | Star _ | WordBoundary => false
  end.

Definition captured (n : nat) (st : State) : Prop :=
  lookup n (caps st) <> None.

(** What a successful run hands to its continuation: a position where
    the groups set before are still set, and those the pattern always
    sets are set. *)
Definition reaches (r : regex) (st st' : State) : Prop :=
  (forall n, captured n st -> captured n st')
  /\ (forall n, sets r n = true -> captured n st').

Lemma starLoop_reaches
  (step : State -> (State -> option State) -> option State)
  (Hstep : forall st k res, step st k = Some res ->
             exists st', k st' = Some res
                         /\ forall n, captured n st -> captured n st')
  (k : State -> option State) (fuel : nat) (st : State) (res : State) :
  starLoop step k fuel st = Some res ->
  exists st', k st' = Some res
              /\ forall n, captured n st -> captured n st'.
Proof.
  revert st. induction fuel as [|fuel IH]; intros st H; simpl in H.
  - exists st. auto.
  - destruct (step st _) as [found|] eqn:E.
    + inversion H; subst found. apply Hstep in E.
      destruct E as [st1 [E Hmono]].
      destruct (length (rest st1) <? length (rest st)); [|discriminate].
      apply IH in E. destruct E as [st' [Hk Hmono']].
      exists st'. split; [exact Hk | auto].
    + exists st. auto.
Qed.

Lemma run_reaches (r : regex) :
  forall st k res, run r st k = Some res ->
    exists st', k st' = Some res /\ reaches r st st'.
Proof.
  unfold reaches.
  induction r as [|cls|a IHa b IHb|a IHa b IHb|a IHa|m a IHa|];
    intros st k res H; cbn [run] in H.
  - exists st. repeat split; auto; discriminate.
  - destruct (rest st) as [|c t]; [discriminate|].
    destruct (cls c); [|discriminate].
    eexists. split; [exact H|]. split; [auto | discriminate].
  - apply IHa in H. destruct H as [st1 [H [M1 S1]]].
    apply IHb in H. destruct H as [st2 [H [M2 S2]]].
    exists st2. split; [exact H|]. split; [auto|].
    intros n Hn. simpl in Hn. apply orb_true_iff in Hn.
    destruct Hn as [Hn|Hn]; auto.
  - destruct (run a st k) as [found|] eqn:E.
    + inversion H; subst found. apply IHa in E.
      destruct E as [st' [E [M S]]]. exists st'. split; [exact E|].
      split; [auto|]. intros n Hn. simpl in Hn.
      apply andb_true_iff in Hn. apply S. tauto.
    + apply IHb in H. destruct H as [st' [H [M S]]].
      exists st'. split; [exact H|]. split; [auto|].
      intros n Hn. simpl in Hn. apply andb_true_iff in Hn. apply S. tauto.
  - apply starLoop_reaches in H.
    + destruct H as [st' [H M]]. exists st'. split; [exact H|].
      split; [exact M | discriminate].
    + intros st0 k0 res0 H0. apply IHa in H0.
      destruct H0 as [st' [H0 [M _]]]. eauto.
  - apply IHa in H. destruct H as [st1 [H [M S]]].
    eexists. split; [exact H|]. unfold captured in *. simpl. split.
    + intros n Hn. destruct (m =? n); [discriminate | auto].
    + intros n Hn. apply orb_true_iff in Hn.
      destruct (m =? n); [discriminate|]. destruct Hn; [discriminate|auto].
  - destruct (xorb (wordBefore st) (wordAhead st)); [|discriminate].
    exists st. repeat split; auto; discriminate.
Qed.

Lemma searchFrom_sets (r : regex) (s : jsstring) (before : option N)
  (start stop : State) (n : nat) :
  searchFrom r before s = Some (start, stop) ->
  sets r n = true -> captured n stop.
Proof.
  revert before. induction s as [|c t IH]; intros before H Hn; simpl in H.
  - destruct (run r _ _) as [found|] eqn:E; [|discriminate].
    inversion H; subst. apply run_reaches in E.
    destruct E as [st' [E [_ S]]]. inversion E; subst. auto.
  - destruct (run r _ _) as [found|] eqn:E.
    + inversion H; subst. apply run_reaches in E.
      destruct E as [st' [E [_ S]]]. inversion E; subst. auto.
    + eapply IH; eauto.
Qed.

(** In the array of a match, a group that the pattern always sets is a
    string. *)
Lemma matchOnce_group (r : regex) (groups : nat) (s : jsstring)
  (found : list (option jsstring)) (n : nat) :
  matchOnce r groups s = Some found ->
  sets r n = true -> 1 <= n <= groups ->
  exists v, nth_error found n = Some (Some v).
Proof.
  unfold matchOnce. intros H Hn Hr.
  destruct (searchFrom r None s) as [[start stop]|] eqn:E; [|discriminate].
  inversion H; subst found.
  pose proof (searchFrom_sets _ _ _ n E Hn) as Hc. unfold captured in Hc.
  destruct (lookup n (caps stop)) as [v|] eqn:L; [|congruence].
  exists v. destruct n as [|n]; [lia|]. cbn [nth_error].
  rewrite nth_error_map, nth_error_seq.
  replace (n <? groups) with true by (symmetry; apply Nat.ltb_lt; lia).
  cbn. now rewrite L.
Qed.

Lemma matchAll_first (r : regex) (s : jsstring) (found : list jsstring) :
  matchAll r s = Some found -> exists v, nth_error found 0 = Some v.
Proof.
  unfold matchAll. destruct (matchesFrom _ r None s) as [|v l];
    [discriminate|].
  intros H. inversion H; subst. now exists v.
Qed.

End Regex.

(* ================================================================= *)
(** ** Field extraction ([routes.ts], [extractDataFromText])

    A property read from [undefined] throws a [TypeError].  The model
    is stricter: an [undefined] array element or group, wherever the
    code goes on to use it as a string, is a [Fault]. *)

Module Extract.

Inductive Exc (A : Type) : Type :=
| Val (a : A)
| Fault.
Arguments Val {A} a.
Arguments Fault {A}.

Definition bind {A B : Type} (e : Exc A) (k : A -> Exc B) : Exc B :=
  match e with
  | Val a => k a
  | Fault => Fault
  end.

Notation "x <- e ;; k" := (bind e (fun x => k))
  (at level 61, e at next level, right associativity).

Definition need {A : Type} (x : option A) : Exc A :=
  match x with Some a => Val a | None => Fault end.

(** [m[i]] on the array of a match. *)
Definition at_ (m : list (option jsstring)) (i : nat) : option jsstring :=
  match nth_error m i with
  | Some (Some v) => Some v
  | _ => None
  end.

(** A JavaScript number as [parseInt] returns it: [NaN], [Infinity], or
    a finite double.  The finite doubles that occur are integers; one is
    kept by its exact value. *)
Inductive JsNumber : Type :=
| NaN
| Infinity
| Num (z : Z).

(** The integer that a run of decimal digits writes. *)
Fixpoint digitsValue (acc : Z) (s : jsstring) : Z :=
  match s with
  | c :: t =>
    if Regex.isDigit c
    then digitsValue (10 * acc + Z.of_N (c - 48)) t
    else acc
  | [] => acc
  end.

(** The double nearest to an integer that is not negative, ties to the
    even significand: exact below [2^53], [Infinity] when the rounded
    value reaches [2^1024]. *)
Definition toDouble (z : Z) : JsNumber :=
  if (z <? 2 ^ 53)%Z then Num z
  else
    let e := (Z.log2 z - 52)%Z in
    let q := Z.shiftr z e in
    let r := (z - Z.shiftl q e)%Z in
    let half := Z.shiftl 1 (e - 1) in
    let q' := if (half <? r)%Z || ((r =? half)%Z && Z.odd q)
              then (q + 1)%Z else q in
    let v := Z.shiftl q' e in
    if (2 ^ 1024 <=? v)%Z then Infinity else Num v.

(** [parseInt] on a string that begins with a decimal digit, as the
    patterns hand it over: the leading run of digits read in radix 10
    and converted to a double.  (Past twenty significant digits the
    language lets an engine round from the first twenty; the value is
    then still a finite double that is not negative, or [Infinity].) *)
Definition parseInt (s : jsstring) : JsNumber :=
  match s with
  | c :: _ => if Regex.isDigit c then toDouble (digitsValue 0 s) else NaN
  | [] => NaN
  end.

Record ExtractedData : Type := mkExtractedData {
  firstName : jsstring;
  lastName : jsstring;
  email : jsstring;
  mobile : jsstring;
  phone : jsstring;
  phone2 : jsstring;
  nationalId : jsstring;
  city : jsstring;
  street : jsstring;
  houseNumber : jsstring;
  zipCode : jsstring;
  gender : jsstring;
  maritalStatus : jsstring;
  drivingLicense : jsstring;
  profession : jsstring;
  experience : option JsNumber;
  achievements : jsstring
}.

(** The initial value of [result]. *)
Definition emptyResult : ExtractedData :=
  {| firstName := []; lastName := []; email := []; mobile := [];
     phone := []; phone2 := []; nationalId := []; city := [];
     street := []; houseNumber := []; zipCode := []; gender := [];
     maritalStatus := []; drivingLicense := []; profession := [];
     experience := None; achievements := [] |}.

Definition israeliCities : list jsstring :=
  [ lit "תל אביב"; lit "ירושלים"; lit "חיפה"; lit "ראשון לציון"
  ; lit "פתח תקווה"; lit "אשדוד"; lit "נתניה"; lit "באר שבע"
  ; lit "בני ברק"; lit "חולון"; lit "רמת גן"; lit "אשקלון"; lit "רחובות"
  ; lit "בת ים"; lit "כפר סבא"; lit "הרצליה"; lit "חדרה"; lit "מודיעין"
  ; lit "נצרת"; lit "לוד"; lit "רעננה"; lit "רמלה"; lit "גבעתיים"
  ; lit "נהריה"; lit "אילת"; lit "טבריה"; lit "קריית גת"; lit "אור יהודה"
  ; lit "יהוד"; lit "דימונה"; lit "טירה"; lit "אום אל פחם"
  ; lit "מגדל העמק"; lit "שפרעם"; lit "אכסאל"; lit "קלנסווה"
  ; lit "באקה אל גרביה"; lit "סחנין"; lit "משהד"; lit "ערערה"
  ; lit "כפר קאסם"; lit "אריאל"; lit "מעלה אדומים"; lit "בית שמש"
  ; lit "אלעד"; lit "טמרה"; lit "קריית מלאכי"; lit "מגדל"; lit "יקנעם"
  ; lit "נוף הגליל"; lit "קצרין"; lit "מטולה"; lit "ראש פינה" ].

Definition professionKeywords : list jsstring :=
  [ lit "מפתח"; lit "מתכנת"; lit "מהנדס"; lit "מעצב"; lit "רופא"
  ; lit "עורך דין"; lit "רואה חשבון"; lit "מנהל"
  ; (lit "סמנכ" ++ [34%N] ++ lit "ל"); (lit "מנכ" ++ [34%N] ++ lit "ל")
  ; lit "יועץ"; lit "אדריכל"; lit "מורה"; lit "מרצה"; lit "developer"
  ; lit "engineer"; lit "designer"; lit "manager"; lit "analyst"
  ; lit "consultant" ].

Definition genderKeywords : list jsstring :=
  [ lit "זכר"; lit "נקבה"; lit "גבר"; lit "אישה"; lit "male"; lit "female"
  ; lit "man"; lit "woman" ].

Definition maritalKeywords : list jsstring :=
  [ lit "נשוי"; lit "רווק"; lit "גרוש"; lit "אלמן"; lit "נשואה"
  ; lit "רווקה"; lit "גרושה"; lit "אלמנה"; lit "married"; lit "single"
  ; lit "divorced"; lit "widowed" ].

Definition achievementKeywords : list jsstring :=
  [ lit "הישגים"; lit "פרסים"; lit "הכרה"; lit "הצטיינות"
  ; lit "achievements"; lit "awards"; lit "recognition" ].

Import Regex.

(** Character classes of the patterns. *)
Definition isLetter (c : N) : bool := isUpper c || isLower c.
(** [[a-zA-Z0-9._-]] *)
Definition isMailChar (c : N) : bool :=
  (isLetter c || isDigit c || (c =? 46) || (c =? 95) || (c =? 45))%N.
(** [[-\s]] *)
Definition isDashOrSpace (c : N) : bool := ((c =? 45) || isWhiteSpace c)%N.
(** [[א-ת]] *)
Definition isHebrew (c : N) : bool := ((1488 <=? c) && (c <=? 1514))%N.
(** [[א-ת\s]] *)
Definition isHebrewOrSpace (c : N) : bool := isHebrew c || isWhiteSpace c.
(** The class of the single and the double quote, [q] below. *)
Definition isQuote (c : N) : bool := ((c =? 39) || (c =? 34))%N.
(** [[:\s]] *)
Definition isColonOrSpace (c : N) : bool := ((c =? 58) || isWhiteSpace c)%N.
(** [[3489]] and [[2-9]] *)
Definition isAreaDigit (c : N) : bool :=
  ((c =? 51) || (c =? 52) || (c =? 56) || (c =? 57))%N.
Definition isTwoToNine (c : N) : bool := ((50 <=? c) && (c <=? 57))%N.

Definition L (s : String.string) : regex := Lit (lit s).
Definition LI (s : String.string) : regex := LitI (lit s).
Arguments L s%_string.
Arguments LI s%_string.

(** [/([a-zA-Z0-9._-]+@[a-zA-Z0-9._-]+\.[a-zA-Z]{2,})/g] *)
Definition emailPattern : regex :=
  Group 1
    (Seq (Plus (Chr isMailChar))
    (Seq (L "@")
    (Seq (Plus (Chr isMailChar))
    (Seq (L ".")
         (AtLeast 2 (Chr isLetter)))))).

(** [/(05\d{1}[-\s]?\d{7}|05\d{8})/g] *)
Definition mobilePattern : regex :=
  Group 1
    (Alt (Seq (L "05") (Seq (Rep 1 Digit)
              (Seq (Opt (Chr isDashOrSpace)) (Rep 7 Digit))))
         (Seq (L "05") (Rep 8 Digit))).

(** [/(0[3489][-\s]?\d{7})/g] *)
Definition phonePattern : regex :=
  Group 1
    (Seq (L "0") (Seq (Chr isAreaDigit)
         (Seq (Opt (Chr isDashOrSpace)) (Rep 7 Digit)))).

(** [/(?:רחוב|רח[q]|דרך|שדרות|שד[q])\s*([א-ת\s]+)\s*(\d+)/i] *)
Definition streetPattern : regex :=
  Seq (Alt (L "רחוב")
      (Alt (Seq (L "רח") (Chr isQuote))
      (Alt (L "דרך")
      (Alt (L "שדרות")
           (Seq (L "שד") (Chr isQuote))))))
  (Seq (Star Space)
  (Seq (Group 1 (Plus (Chr isHebrewOrSpace)))
  (Seq (Star Space)
       (Group 2 (Plus Digit))))).

(** [/\b(\d{5,7})\b/] *)
Definition zipPattern : regex :=
  Seq WordBoundary (Seq (Group 1 (Between 5 2 Digit)) WordBoundary).

(** [/(?:שם[:\s]* )?([א-ת]{2,})\s+([א-ת]{2,})|([A-Z][a-z]+)\s+([A-Z][a-z]+)/g]
    (a blank is written between the star and the parenthesis) *)
Definition namePattern : regex :=
  Alt (Seq (Opt (Seq (L "שם") (Star (Chr isColonOrSpace))))
      (Seq (Group 1 (AtLeast 2 (Chr isHebrew)))
      (Seq (Plus Space)
           (Group 2 (AtLeast 2 (Chr isHebrew))))))
      (Seq (Group 3 (Seq (Chr isUpper) (Plus (Chr isLower))))
      (Seq (Plus Space)
           (Group 4 (Seq (Chr isUpper) (Plus (Chr isLower)))))).

(** [/שם[:\s]*/] *)
Definition nameLabel : regex := Seq (L "שם") (Star (Chr isColonOrSpace)).

(** [/(\d+)\s*(?:שנ(?:ה|ות|ים)?\s*(?:של\s* )?(?:ניסיון|עבודה)|years?\s*(?:of\s* )?experience)/i]
    (a blank is written before each closing parenthesis that follows a star) *)
Definition experiencePattern : regex :=
  Seq (Group 1 (Plus Digit))
  (Seq (Star Space)
       (Alt (Seq (L "שנ")
            (Seq (Opt (Alt (L "ה") (Alt (L "ות") (L "ים"))))
            (Seq (Star Space)
            (Seq (Opt (Seq (L "של") (Star Space)))
                 (Alt (L "ניסיון") (L "עבודה"))))))
            (Seq (LI "year")
            (Seq (Opt (LI "s"))
            (Seq (Star Space)
            (Seq (Opt (Seq (LI "of") (Star Space)))
                 (LI "experience"))))))).

(** [/\b(\d{9})\b/] *)
Definition nationalIdPattern : regex :=
  Seq WordBoundary (Seq (Group 1 (Rep 9 Digit)) WordBoundary).

(** [/רישיון\s*נהיגה|ר\.?\s*נ\.?|driving\s*license/i] *)
Definition licensePattern : regex :=
  Alt (Seq (L "רישיון") (Seq (Star Space) (L "נהיגה")))
 (Alt (Seq (L "ר") (Seq (Opt (L "."))
           (Seq (Star Space) (Seq (L "נ") (Opt (L "."))))))
      (Seq (LI "driving") (Seq (Star Space) (LI "license")))).

(** [/(0[2-9][-\s]?\d{7})/g] *)
Definition phonePattern2 : regex :=
  Group 1
    (Seq (L "0") (Seq (Chr isTwoToNine)
         (Seq (Opt (Chr isDashOrSpace)) (Rep 7 Digit)))).

Section WithLower.

(** [String.prototype.toLowerCase]. *)
Variable toLowerCase : jsstring -> jsstring.

(** The first match of a pattern with the [g] flag, [m[0]]. *)
Definition firstMatch (pattern : regex) (s : jsstring) : Exc (option jsstring) :=
  match matchAll pattern s with
  | Some found => v <- need (nth_error found 0) ;; Val (Some v)
  | None => Val None
  end.

Definition extractEmail (upperThird : jsstring) : Exc jsstring :=
  emailMatch <- firstMatch emailPattern upperThird ;;
  match emailMatch with
  | Some m0 => Val m0
  | None => Val []
  end.

Definition extractMobile (upperThird : jsstring) : Exc jsstring :=
  mobileMatch <- firstMatch mobilePattern upperThird ;;
  match mobileMatch with
  | Some m0 => Val (removeAll isDashOrSpace m0)
  | None => Val []
  end.

Definition extractPhone (upperThird : jsstring) : Exc jsstring :=
  phoneMatch <- firstMatch phonePattern upperThird ;;
  match phoneMatch with
  | Some m0 => Val (removeAll isDashOrSpace m0)
  | None => Val []
  end.

Definition extractCity (upperThird text : jsstring) : jsstring :=
  match find (fun city => includes upperThird city || includes text city)
             israeliCities with
  | Some cityFound => if truthy cityFound then cityFound else []
  | None => []
  end.

(** The street and the house number. *)
Definition extractStreet (upperThird : jsstring) : Exc (jsstring * jsstring) :=
  match matchOnce streetPattern 2 upperThird with
  | Some streetMatch =>
    g1 <- need (at_ streetMatch 1) ;;
    g2 <- need (at_ streetMatch 2) ;;
    Val (trim g1, g2)
  | None => Val ([], [])
  end.

Definition extractZip (upperThird mobile phone : jsstring) : Exc jsstring :=
  match matchOnce zipPattern 1 upperThird with
  | Some zipMatch =>
    g1 <- need (at_ zipMatch 1) ;;
    if negb (includes mobile g1) && negb (includes phone g1) then
      let zipCode := g1 in
      if (5 <=? length zipCode) && (length zipCode <=? 7)
      then Val zipCode else Val []
    else Val []
  | None => Val []
  end.

(** The first and the last name. *)
Definition extractName (upperThird : jsstring) : Exc (jsstring * jsstring) :=
  nameMatch <- firstMatch namePattern upperThird ;;
  match nameMatch with
  | Some m0 =>
    let fullName := trim (removeFirst nameLabel m0) in
    let nameParts := splitSpacesFrom [] false fullName in
    if 2 <=? length nameParts then
      p0 <- need (nth_error nameParts 0) ;;
      p1 <- need (nth_error nameParts 1) ;;
      Val (p0, p1)
    else Val ([], [])
  | None => Val ([], [])
  end.

(** [keywords.find(k => text.toLowerCase().includes(k.toLowerCase()))] *)
Definition findKeyword (keywords : list jsstring) (text : jsstring)
  : option jsstring :=
  find (fun keyword => includes (toLowerCase text) (toLowerCase keyword))
       keywords.

(** [if (found) result.field = found] *)
Definition keywordField (found : option jsstring) : jsstring :=
  match found with
  | Some k => if truthy k then k else []
  | None => []
  end.

Definition extractExperience (text : jsstring) : Exc (option JsNumber) :=
  match matchOnce experiencePattern 1 text with
  | Some experienceMatch =>
    g1 <- need (at_ experienceMatch 1) ;;
    Val (Some (parseInt g1))
  | None => Val None
  end.

Definition extractNationalId (upperThird : jsstring) : Exc jsstring :=
  match matchOnce nationalIdPattern 1 upperThird with
  | Some nationalIdMatch => need (at_ nationalIdMatch 1)
  | None => Val []
  end.

Definition extractLicense (text : jsstring) : jsstring :=
  match matchOnce licensePattern 0 text with
  | Some _ => lit "כן"
  | None => []
  end.

Definition extractPhone2 (upperThird phone : jsstring) : Exc jsstring :=
  match matchAll phonePattern2 upperThird with
  | Some phoneMatches =>
    if 1 <? length phoneMatches then
      second <- need (nth_error phoneMatches 1) ;;
      if negb (str_eqb second phone)
      then Val (removeAll isDashOrSpace second)
      else Val []
    else Val []
  | None => Val []
  end.

Definition extractAchievements (text : jsstring) : jsstring :=
  match findKeyword achievementKeywords text with
  | Some achievementFound =>
    if truthy achievementFound then
      match indexOf (toLowerCase text) (toLowerCase achievementFound) with
      | Some achievementIndex =>
        let achievementSection :=
          substring achievementIndex (achievementIndex + 300) text in
        trim achievementSection
      | None => []
      end
    else []
  | None => []
  end.

(** [Math.floor(text.length * 0.3)]: for every length a string can
    have, the rounded product lies within a fraction of one unit of
    three tenths of the length, so its floor is the integer quotient. *)
Definition upperThirdLength (text : jsstring) : nat := 3 * length text / 10.

Definition extractDataFromText (text : jsstring) : Exc ExtractedData :=
  let upperThird := substring 0 (upperThirdLength text) text in
  email <- extractEmail upperThird ;;
  mobile <- extractMobile upperThird ;;
  phone <- extractPhone upperThird ;;
  let city := extractCity upperThird text in
  streetAndNumber <- extractStreet upperThird ;;
  zipCode <- extractZip upperThird mobile phone ;;
  names <- extractName upperThird ;;
  let profession := keywordField (findKeyword professionKeywords text) in
  experience <- extractExperience text ;;
  nationalId <- extractNationalId upperThird ;;
  let gender := keywordField (findKeyword genderKeywords text) in
  let maritalStatus := keywordField (findKeyword maritalKeywords text) in
  let drivingLicense := extractLicense text in
  phone2 <- extractPhone2 upperThird phone ;;
  let achievements := extractAchievements text in
  Val {| firstName := fst names;
         lastName := snd names;
         email := email;
         mobile := mobile;
         phone := phone;
         phone2 := phone2;
         nationalId := nationalId;
         city := city;
         street := fst streetAndNumber;
         houseNumber := snd streetAndNumber;
         zipCode := zipCode;
         gender := gender;
         maritalStatus := maritalStatus;
         drivingLicense := drivingLicense;
         profession := profession;
         experience := experience;
         achievements := achievements |}.

(** No heuristic finds anything in a text. *)
Definition noHeuristicMatches (text : jsstring) : Prop :=
  let upperThird := substring 0 (upperThirdLength text) text in
  matchAll emailPattern upperThird = None
  /\ matchAll mobilePattern upperThird = None
  /\ matchAll phonePattern upperThird = None
  /\ find (fun city => includes upperThird city || includes text city)
          israeliCities = None
  /\ matchOnce streetPattern 2 upperThird = None
  /\ matchOnce zipPattern 1 upperThird = None
  /\ matchAll namePattern upperThird = None
  /\ findKeyword professionKeywords text = None
  /\ matchOnce experiencePattern 1 text = None
  /\ matchOnce nationalIdPattern 1 upperThird = None
  /\ findKeyword genderKeywords text = None
  /\ findKeyword maritalKeywords text = None
  /\ matchOnce licensePattern 0 text = None
  /\ matchAll phonePattern2 upperThird = None
  /\ findKeyword achievementKeywords text = None.

Lemma firstMatch_total (pattern : regex) (s : jsstring) :
  exists v, firstMatch pattern s = Val v.
Proof.
  unfold firstMatch. destruct (matchAll pattern s) as [found|] eqn:E.
  - destruct (@matchAll_first _ _ _ E) as [v ->]. simpl. eauto.
  - eauto.
Qed.

Lemma extractEmail_total (s : jsstring) : exists v, extractEmail s = Val v.
Proof.
  unfold extractEmail. destruct (firstMatch_total emailPattern s) as [m ->].
  simpl. destruct m; eauto.
Qed.

Lemma extractMobile_total (s : jsstring) : exists v, extractMobile s = Val v.
Proof.
  unfold extractMobile. destruct (firstMatch_total mobilePattern s) as [m ->].
  simpl. destruct m; eauto.
Qed.

Lemma extractPhone_total (s : jsstring) : exists v, extractPhone s = Val v.
Proof.
  unfold extractPhone. destruct (firstMatch_total phonePattern s) as [m ->].
  simpl. destruct m; eauto.
Qed.

(** A group that the pattern always sets can be read. *)
Lemma at_group (r : regex) (groups : nat) (s : jsstring)
  (found : list (option jsstring)) (n : nat) :
  matchOnce r groups s = Some found ->
  sets r n = true -> 1 <= n <= groups ->
  exists v, at_ found n = Some v.
Proof.
  intros H Hs Hn. destruct (@matchOnce_group _ _ _ _ _ H Hs Hn) as [v Hv].
  exists v. unfold at_. now rewrite Hv.
Qed.

Lemma extractStreet_total (s : jsstring) : exists v, extractStreet s = Val v.
Proof.
  unfold extractStreet.
  destruct (matchOnce streetPattern 2 s) as [found|] eqn:E; [|eauto].
  assert (exists v, at_ found 1 = Some v) as [g1 ->]
    by (apply (@at_group streetPattern 2 s); [exact E | reflexivity | lia]).
  assert (exists v, at_ found 2 = Some v) as [g2 ->]
    by (apply (@at_group streetPattern 2 s); [exact E | reflexivity | lia]).
  simpl. eauto.
Qed.

Lemma extractZip_total (s mobile phone : jsstring) :
  exists v, extractZip s mobile phone = Val v.
Proof.
  unfold extractZip.
  destruct (matchOnce zipPattern 1 s) as [found|] eqn:E; [|eauto].
  assert (exists v, at_ found 1 = Some v) as [g1 ->]
    by (apply (@at_group zipPattern 1 s); [exact E | reflexivity | lia]).
  cbn [bind need].
  destruct (negb (includes mobile g1) && negb (includes phone g1));
    [|eauto].
  destruct ((5 <=? length g1) && (length g1 <=? 7)); eauto.
Qed.

Lemma extractName_total (s : jsstring) : exists v, extractName s = Val v.
Proof.
  unfold extractName. destruct (firstMatch_total namePattern s) as [m ->].
  simpl. destruct m as [m0|]; [|eauto].
  destruct (splitSpacesFrom [] false (trim (removeFirst nameLabel m0)))
    as [|p0 [|p1 parts]]; simpl; eauto.
Qed.

Lemma extractExperience_total (s : jsstring) :
  exists v, extractExperience s = Val v.
Proof.
  unfold extractExperience.
  destruct (matchOnce experiencePattern 1 s) as [found|] eqn:E; [|eauto].
  assert (exists v, at_ found 1 = Some v) as [g1 ->]
    by (apply (@at_group experiencePattern 1 s); [exact E | reflexivity | lia]).
  simpl. eauto.
Qed.

Lemma extractNationalId_total (s : jsstring) :
  exists v, extractNationalId s = Val v.
Proof.
  unfold extractNationalId.
  destruct (matchOnce nationalIdPattern 1 s) as [found|] eqn:E; [|eauto].
  assert (exists v, at_ found 1 = Some v) as [g1 ->]
    by (apply (@at_group nationalIdPattern 1 s); [exact E | reflexivity | lia]).
  simpl. eauto.
Qed.

Lemma extractPhone2_total (s phone : jsstring) :
  exists v, extractPhone2 s phone = Val v.
Proof.
  unfold extractPhone2.
  destruct (matchAll phonePattern2 s) as [[|a [|b l]]|]; simpl; eauto.
  destruct (negb (str_eqb b phone)); eauto.
Qed.

(** C8 - the extraction is total: for every text it returns a record and
    never faults; when no heuristic matches, the record is the initial
    one, every string field empty and the experience null; and for any
    lower-casing that maps the empty string, and only it, to the empty
    string, no heuristic matches the empty text. *)
Theorem extractDataFromText_total (text : jsstring) :
  (exists result, extractDataFromText text = Val result)
  /\ (noHeuristicMatches text -> extractDataFromText text = Val emptyResult)
  /\ (toLowerCase [] = [] -> (forall s, s <> [] -> toLowerCase s <> []) ->
      extractDataFromText [] = Val emptyResult).
Proof.
  split; [|split].
  - unfold extractDataFromText.
    set (upperThird := substring 0 (upperThirdLength text) text).
    destruct (extractEmail_total upperThird) as [email ->]. cbn [bind].
    destruct (extractMobile_total upperThird) as [mobile ->]. cbn [bind].
    destruct (extractPhone_total upperThird) as [phone ->]. cbn [bind].
    destruct (extractStreet_total upperThird) as [street ->]. cbn [bind].
    destruct (extractZip_total upperThird mobile phone) as [zip ->].
    cbn [bind].
    destruct (extractName_total upperThird) as [names ->]. cbn [bind].
    destruct (extractExperience_total text) as [experience ->]. cbn [bind].
    destruct (extractNationalId_total upperThird) as [nationalId ->].
    cbn [bind].
    destruct (extractPhone2_total upperThird phone) as [phone2 ->].
    cbn [bind]. eauto.
  - unfold noHeuristicMatches.
    intros (He & Hm & Hp & Hc & Hs & Hz & Hn & Hpr & Hx & Hid & Hg & Hma
            & Hl & Hp2 & Ha).
    unfold extractDataFromText, extractEmail, extractMobile, extractPhone,
      extractCity, extractStreet, extractZip, extractName, firstMatch,
      extractExperience, extractNationalId, extractLicense, extractPhone2,
      extractAchievements.
    rewrite He, Hm, Hp, Hc, Hs, Hz, Hn, Hpr, Hx, Hid, Hg, Hma, Hl, Hp2, Ha.
    reflexivity.
  - intros H0 Hne.
    assert (forall keywords, Forall (fun k => k <> []) keywords ->
              findKeyword keywords [] = None) as Hk.
    { intros keywords. unfold findKeyword. rewrite H0.
      induction 1 as [|k ks Hk _ IH]; [reflexivity|]. simpl.
      apply Hne in Hk. destruct (toLowerCase k); [congruence | exact IH]. }
    unfold extractDataFromText, extractAchievements.
    rewrite !Hk by (repeat constructor; discriminate).
    reflexivity.
Qed.

End WithLower.

(** The text of the spec's example holds an address in its head. *)
Example extractDataFromText_email :
  option_map email
    (match extractDataFromText asciiLower
             (lit "test@example.com is the address at which the applicant can be reached")
     with Val r => Some r | Fault => None end)
  = Some (lit "test@example.com").
Proof. vm_compute. reflexivity. Qed.

Lemma extractDataFromText_total_witness :
  extractDataFromText asciiLower (lit "@@@ ### 12 ~~~") = Val emptyResult
  /\ extractDataFromText asciiLower [0; 1; 65533; 255; 7; 27]%N
     = Val emptyResult
  /\ extractDataFromText asciiLower (lit "") = Val emptyResult.
Proof.
  split; [|split].
  - apply (proj1 (proj2 (@extractDataFromText_total asciiLower
                           (lit "@@@ ### 12 ~~~")))).
    unfold noHeuristicMatches. repeat split; vm_compute; reflexivity.
  - apply (proj1 (proj2 (@extractDataFromText_total asciiLower
                           [0; 1; 65533; 255; 7; 27]%N))).
    unfold noHeuristicMatches. repeat split; vm_compute; reflexivity.
  - apply (proj2 (proj2 (@extractDataFromText_total asciiLower (lit "")))).
    + reflexivity.
    + intros s Hs. destruct s; [congruence | discriminate].
Defined.

End Extract.

(* ================================================================= *)
(** * Further properties of the embedded code *)

(* ================================================================= *)
(** ** Phone normalisation: shape of the result and spellings *)

Module PhoneFacts.

Import Phone.

(** [normalizePhone] never returns a dash, a blank or a parenthesis. *)
Theorem normalizePhone_no_separator (phone : jsstring) (c : N) :
  In c (normalizePhone phone) -> isSeparator c = false.
Proof.
  intros Hc. pose proof (normalizePhone_clean phone) as H.
  unfold clean in H. rewrite Forall_forall in H. now apply H.
Qed.

Lemma removeAll_app (cls : N -> bool) (a b : jsstring) :
  removeAll cls (a ++ b) = removeAll cls a ++ removeAll cls b.
Proof. unfold removeAll. apply filter_app. Qed.

Lemma normalizePhone_plus972 (rest : jsstring) :
  normalizePhone (lit "+972" ++ rest) = lit "0" ++ removeAll isSeparator rest.
Proof.
  rewrite normalizePhone_steps, removeAll_app.
  change (removeAll isSeparator (lit "+972")) with (lit "+972").
  unfold collapsePrefix. rewrite startsWith_app.
  change (substringFrom 4 (lit "+972" ++ removeAll isSeparator rest))
    with (removeAll isSeparator rest).
  apply padNine_zero.
Qed.

Lemma normalizePhone_972 (rest : jsstring) :
  normalizePhone (lit "972" ++ rest) = lit "0" ++ removeAll isSeparator rest.
Proof.
  rewrite normalizePhone_steps, removeAll_app.
  change (removeAll isSeparator (lit "972")) with (lit "972").
  unfold collapsePrefix. rewrite startsWith_app.
  change (startsWith (lit "+972") (lit "972" ++ removeAll isSeparator rest))
    with false.
  change (substringFrom 3 (lit "972" ++ removeAll isSeparator rest))
    with (removeAll isSeparator rest).
  apply padNine_zero.
Qed.

Lemma normalizePhone_zero (rest : jsstring) :
  normalizePhone (lit "0" ++ rest) = lit "0" ++ removeAll isSeparator rest.
Proof.
  rewrite normalizePhone_steps, removeAll_app.
  change (removeAll isSeparator (lit "0")) with (lit "0").
  rewrite collapsePrefix_zero. apply padNine_zero.
Qed.

(** The three spellings of one number - [+972...], [972...] and [0...] -
    normalise to the same string, the local prefix followed by the rest
    without its separators; and two inputs that differ only in their
    separators normalise alike. *)
Theorem normalizePhone_spellings (rest : jsstring) :
  normalizePhone (lit "+972" ++ rest) = lit "0" ++ removeAll isSeparator rest
  /\ normalizePhone (lit "972" ++ rest) = lit "0" ++ removeAll isSeparator rest
  /\ normalizePhone (lit "0" ++ rest) = lit "0" ++ removeAll isSeparator rest
  /\ forall other,
       removeAll isSeparator other = removeAll isSeparator rest ->
       normalizePhone other = normalizePhone rest.
Proof.
  split; [apply normalizePhone_plus972|].
  split; [apply normalizePhone_972|].
  split; [apply normalizePhone_zero|].
  intros other H. now rewrite !normalizePhone_steps, H.
Qed.

End PhoneFacts.

Lemma normalizePhone_spellings_witness :
  Phone.normalizePhone (lit "(050) 123-4567")
  = Phone.normalizePhone (lit "050-1234567").
Proof.
  apply (proj2 (proj2 (proj2 (PhoneFacts.normalizePhone_spellings
                                (lit "050-1234567"))))).
  reflexivity.
Defined.

(* ================================================================= *)
(** ** Identity resolution: the store-side key, placeholder e-mails and
       the exact-match lookup ([findCandidateByMobileOrId]) *)

Module ResolverFacts.

Import Resolver.

(** [REPLACE] of a one-character string by nothing drops that
    character. *)
Lemma replace_go_single (c : N) (s : jsstring) :
  replace_go [c] [] 0 s = filter (fun x => negb (x =? c)%N) s.
Proof.
  induction s as [|x t IH]; [reflexivity|].
  cbn [replace_go startsWith length Nat.sub app filter].
  rewrite N.eqb_sym. destruct (x =? c)%N; cbn [andb negb]; now rewrite IH.
Qed.

(** [REPLACE] leaves a string alone when the first character of the
    searched text does not occur in it. *)
Lemma replace_go_absent (c : N) (from to s : jsstring) :
  Forall (fun x => (x =? c)%N = false) s ->
  replace_go (c :: from) to 0 s = s.
Proof.
  induction 1 as [|x t Hx _ IH]; [reflexivity|].
  cbn [replace_go startsWith]. rewrite N.eqb_sym, Hx. cbn [andb].
  now rewrite IH.
Qed.

(** A stored number written with digits, dashes and blanks only. *)
Definition plainChar (c : N) : bool :=
  (Regex.isDigit c || (c =? 45) || (c =? 32))%N.

Lemma plain_filters (rest : jsstring) :
  Forall (fun c => plainChar c = true) rest ->
  filter (fun x => negb (x =? 32)%N) (filter (fun x => negb (x =? 45)%N) rest)
  = removeAll Phone.isSeparator rest
  /\ Forall (fun x => (x =? 43)%N = false)
            (removeAll Phone.isSeparator rest).
Proof.
  unfold removeAll.
  induction 1 as [|c t Hc _ [IH1 IH2]]; [split; [reflexivity | constructor]|].
  unfold plainChar, Regex.isDigit, Phone.isSeparator, isWhiteSpace in *.
  cbn [filter].
  destruct (c =? 45)%N eqn:E45.
  { apply N.eqb_eq in E45. subst c. cbn. split; assumption. }
  destruct (c =? 32)%N eqn:E32.
  { apply N.eqb_eq in E32. subst c. cbn. split; assumption. }
  rewrite !orb_false_r in Hc. apply andb_true_iff in Hc.
  destruct Hc as [H1 H2]. apply N.leb_le in H1, H2.
  cbn [negb filter]. rewrite E32. cbn [negb].
  assert (((9 <=? c) && (c <=? 13) || false || (c =? 160) || (c =? 5760)
           || (8192 <=? c) && (c <=? 8202) || (c =? 8232) || (c =? 8233)
           || (c =? 8239) || (c =? 8287) || (c =? 12288) || (c =? 65279))%N
          = false) as Hw.
  { repeat match goal with
           | |- context [(?a <=? ?b)%N] =>
             destruct (N.leb_spec a b); try lia
           | |- context [(?a =? ?b)%N] =>
             destruct (N.eqb_spec a b); try lia
           end; reflexivity. }
  assert ((c =? 40)%N = false) as H40 by (apply N.eqb_neq; lia).
  assert ((c =? 41)%N = false) as H41 by (apply N.eqb_neq; lia).
  assert ((c =? 43)%N = false) as H43 by (apply N.eqb_neq; lia).
  rewrite Hw, H40, H41. cbn [orb negb]. rewrite IH1.
  split; [reflexivity | constructor; assumption].
Qed.

(** On a stored mobile written as [0...] or [+972...] with digits,
    dashes and blanks, the rewriting done in the store computes exactly
    what [normalizePhone] computes. *)
Theorem storedMobileKey_agrees (rest : jsstring) :
  Forall (fun c => plainChar c = true) rest ->
  storedMobileKey (Some (lit "0" ++ rest))
  = Some (Phone.normalizePhone (lit "0" ++ rest))
  /\ storedMobileKey (Some (lit "+972" ++ rest))
     = Some (Phone.normalizePhone (lit "+972" ++ rest)).
Proof.
  intros H. destruct (plain_filters H) as [Hf Hp].
  rewrite PhoneFacts.normalizePhone_plus972, PhoneFacts.normalizePhone_zero. unfold storedMobileKey, REPLACE. cbn [option_map].
  change (lit "-") with [45%N]. change (lit " ") with [32%N].
  change (lit "") with (@nil N).
  rewrite !replace_go_single. split; f_equal.
  - change (lit "0" ++ rest) with (48%N :: rest). cbn [filter N.eqb negb].
    change (Pos.eqb 48 45) with false. change (Pos.eqb 48 32) with false.
    cbn [negb filter]. rewrite Hf.
    change (lit "+972") with (43%N :: lit "972").
    apply replace_go_absent. constructor; [reflexivity | exact Hp].
  - change (lit "+972" ++ rest) with (43 :: 57 :: 55 :: 50 :: rest)%N.
    cbn [filter N.eqb negb Pos.eqb]. rewrite Hf.
    change (lit "+972") with (43%N :: lit "972").
    cbn [replace_go startsWith lit length Nat.sub].
    change (startsWith (lit "972")
              (57 :: 55 :: 50 :: removeAll Phone.isSeparator rest)%N)
      with true.
    rewrite N.eqb_refl. cbn [andb app].
    change (length (43%N :: lit "972") - 1) with 3.
    cbn [replace_go]. f_equal.
    apply (@replace_go_absent 43%N (lit "972")). exact Hp.
Qed.

End ResolverFacts.

Lemma storedMobileKey_agrees_witness :
  Resolver.storedMobileKey (Some (lit "+972" ++ lit "50-123 4567"))
  = Some (Phone.normalizePhone (lit "+972" ++ lit "50-123 4567")).
Proof.
  apply (proj2 (@ResolverFacts.storedMobileKey_agrees (lit "50-123 4567")
                  ltac:(repeat constructor))).
Defined.

Module ResolverLookup.

Import Resolver.

Section WithLower.

Variable LOWER : jsstring -> jsstring.

(** A query that carries no mobile is answered from the e-mail and the
    national ID alone: whatever the stored mobiles look like, the result
    is the first row that matches on one of the two. *)
Theorem findCandidateByContactInfo_without_mobile (table : list Candidate)
  (email nationalId : option jsstring) :
  findCandidateByContactInfo LOWER table None email nationalId
  = find (contactMatch LOWER None email nationalId) table.
Proof.
  rewrite findCandidateByContactInfo_first.
  apply find_ext_in. intros r _.
  unfold conditions, contactMatch. cbn [app]. rewrite existsb_app.
  cbn [orb]. f_equal.
  - destruct email as [e|]; [|reflexivity].
    destruct (usableEmail e); cbn [existsb andb].
    + rewrite orb_false_r.
      destruct (Schema.email r) as [stored|]; [|reflexivity].
      apply is_true_Some.
    + now destruct (Schema.email r).
  - destruct nationalId as [n|]; [|reflexivity].
    destruct (truthy n); cbn [existsb andb].
    + rewrite orb_false_r.
      destruct (Schema.nationalId r) as [stored|]; [|reflexivity].
      apply is_true_Some.
    + now destruct (Schema.nationalId r).
Qed.

(** An e-mail that contains [temp.local] is never a key: asked with it
    alone, the function finds nobody, even a candidate stored with that
    very address. *)
Theorem findCandidateByContactInfo_placeholder (table : list Candidate)
  (e : jsstring) :
  includes e (lit "temp.local") = true ->
  findCandidateByContactInfo LOWER table None (Some e) None = None.
Proof.
  intros H. unfold findCandidateByContactInfo, conditions, usableEmail.
  rewrite H. cbn [negb andb]. rewrite andb_false_r.
  now destruct (negb (given None) && negb (given (Some e))
                && negb (given None)).
Qed.

End WithLower.

(** [findCandidateByMobileOrId]: exact equality on the mobile, on the
    national ID, or on either. *)
Definition findCandidateByMobileOrId (table : list Candidate)
  (mobile nationalId : option jsstring) : option Candidate :=
  if negb (given mobile) && negb (given nationalId) then None
  else
    let whereCondition : Candidate -> SqlBool :=
      if given mobile && given nationalId then
        fun c => sql_or (sql_eq (Schema.mobile c) mobile)
                        (sql_eq (Schema.nationalId c) nationalId)
      else if given mobile then
        fun c => sql_eq (Schema.mobile c) mobile
      else if given nationalId then
        fun c => sql_eq (Schema.nationalId c) nationalId
      else fun _ => Some true in
    hd_error (select_where whereCondition table).

(** Exact equality of a stored value with a supplied one. *)
Definition exactly (stored query : option jsstring) : bool :=
  match stored, query with
  | Some s, Some q => truthy q && str_eqb s q
  | _, _ => false
  end.

Lemma is_true_sql_eq_given (stored query : option jsstring) :
  given query = true ->
  is_true (sql_eq stored query) = exactly stored query.
Proof.
  unfold given, exactly. destruct query as [q|]; [|discriminate].
  intros ->. destruct stored as [s|]; [|reflexivity]. apply is_true_Some.
Qed.

Lemma exactly_not_given (stored query : option jsstring) :
  given query = false -> exactly stored query = false.
Proof.
  unfold given, exactly. destruct stored, query; try reflexivity.
  now intros ->.
Qed.

(** The exact-match lookup returns the first row, in scan order, whose
    mobile or national ID equals a supplied non-empty value; with
    neither supplied it returns nothing, whatever the table holds. *)
Theorem findCandidateByMobileOrId_first (table : list Candidate)
  (mobile nationalId : option jsstring) :
  findCandidateByMobileOrId table mobile nationalId
  = find (fun c => exactly (Schema.mobile c) mobile
                   || exactly (Schema.nationalId c) nationalId) table.
Proof.
  unfold findCandidateByMobileOrId, select_where.
  destruct (given mobile) eqn:Gm, (given nationalId) eqn:Gn; cbn [negb andb].
  - rewrite hd_error_filter_find. apply find_ext_in. intros c _.
    now rewrite sql_or_true, !is_true_sql_eq_given.
  - rewrite hd_error_filter_find. apply find_ext_in. intros c _.
    rewrite is_true_sql_eq_given by assumption.
    now rewrite (exactly_not_given _ _ Gn), orb_false_r.
  - rewrite hd_error_filter_find. apply find_ext_in. intros c _.
    rewrite is_true_sql_eq_given by assumption.
    now rewrite (exactly_not_given _ _ Gm).
  - symmetry. rewrite <- (find_none_false table). apply find_ext_in.
    intros c _. now rewrite !exactly_not_given.
Qed.

End ResolverLookup.

Lemma findCandidateByContactInfo_placeholder_witness :
  Resolver.findCandidateByContactInfo asciiLower
    [Resolver.sampleCandidate "a" "0501234567" "x@temp.local" "111111118" 5]
    None (Some (lit "x@temp.local")) None
  = None.
Proof.
  apply (@ResolverLookup.findCandidateByContactInfo_placeholder asciiLower).
  reflexivity.
Defined.

(* ================================================================= *)
(** ** Candidate rows: lookup, creation, update and deletion
       ([getCandidate], [createCandidate], [updateCandidate],
        [deleteCandidate]) *)

Module CandidateStore.

Import Numbering Inbound.

(** [getCandidate] (and [getCandidateById], which has the same body). *)
Definition getCandidate (key : jsstring) (db : DB) : option Candidate :=
  hd_error
    (select_where (fun c => sql_eq (Some (id c)) (Some key)) (candidates db)).

Lemma getCandidate_find (key : jsstring) (db : DB) :
  getCandidate key db
  = find (fun c => str_eqb (id c) key) (candidates db).
Proof.
  unfold getCandidate, select_where. rewrite Resolver.hd_error_filter_find.
  apply Resolver.find_ext_in. intros c _. apply Resolver.is_true_Some.
Qed.

Lemma find_app_none {A : Type} (p : A -> bool) (l1 l2 : list A) :
  find p l1 = None -> find p (l1 ++ l2) = find p l2.
Proof.
  induction l1 as [|x l IH]; [reflexivity|]. simpl.
  destruct (p x); [discriminate | exact IH].
Qed.

Lemma find_app_some {A : Type} (p : A -> bool) (l1 l2 : list A) (x : A) :
  find p l1 = Some x -> find p (l1 ++ l2) = Some x.
Proof.
  induction l1 as [|y l IH]; [discriminate|]. simpl.
  destruct (p y); [auto | exact IH].
Qed.

(** A created candidate can be read back under the id the store gave it,
    provided the id is new; reading any other id gives what it gave
    before the creation. *)
Theorem createCandidate_then_getCandidate (d : Defaults)
  (candidate : InsertCandidate) (db : DB) :
  (forall c, In c (candidates db) -> id c <> newId d) ->
  getCandidate (newId d) (snd (createCandidate d candidate db))
  = Some (fst (createCandidate d candidate db))
  /\ forall key, key <> newId d ->
       getCandidate key (snd (createCandidate d candidate db))
       = getCandidate key db.
Proof.
  intros Hfresh. rewrite getCandidate_find. split.
  - unfold createCandidate, insertCandidate.
    cbn [snd fst setCandidates candidates].
    rewrite find_app_none.
    + cbn [find id]. now rewrite str_eqb_refl.
    + destruct (find _ (candidates db)) as [c|] eqn:E; [|reflexivity].
      apply find_some in E. destruct E as [Hin Heq].
      apply str_eqb_eq in Heq. now apply Hfresh in Hin.
  - intros key Hkey. rewrite !getCandidate_find.
    unfold createCandidate, insertCandidate.
    cbn [snd setCandidates candidates].
    destruct (find (fun c => str_eqb (id c) key) (candidates db))
      as [c|] eqn:E.
    + now apply find_app_some.
    + rewrite (find_app_none _ _ _ E). cbn [find id].
      destruct (str_eqb (newId d) key) eqn:K; [|reflexivity].
      apply str_eqb_eq in K. congruence.
Qed.

(** The columns of a candidate that no update writes. *)
Definition keyColumns (c : Candidate) : jsstring * option Z :=
  (id c, createdAt c).

(** An update never adds or removes a row and never changes an id or a
    creation time: the ids with their creation times are the same
    before and after, whatever the order of the rows; a row with another
    id is left as it was; and with an id that no row carries no row is
    changed and no row is returned. *)
Theorem updateCandidate_keeps_rows (d : Defaults) (key : jsstring)
  (patch : CandidatePatch) (db : DB) :
  let db1 := snd (updateCandidate d key patch db) in
  Permutation (map keyColumns (candidates db1))
              (map keyColumns (candidates db))
  /\ (forall c, id c <> key ->
                (In c (candidates db1) <-> In c (candidates db)))
  /\ ((forall c, In c (candidates db) -> id c <> key) ->
      Permutation (candidates db1) (candidates db)
      /\ fst (updateCandidate d key patch db) = None).
Proof.
  unfold updateCandidate. cbn [snd fst setCandidates candidates].
  split; [|split].
  - assert (map keyColumns
              (map (fun c => if str_eqb (id c) key
                             then applyPatch (now d) patch c else c)
                   (candidates db))
            = map keyColumns (candidates db)) as ->; [|reflexivity].
    rewrite map_map. apply map_ext. intros c.
    now destruct (str_eqb (id c) key).
  - intros c Hc. rewrite in_map_iff. split.
    + intros [x [Hx Hin]]. destruct (str_eqb (id x) key) eqn:K.
      * apply str_eqb_eq in K. subst c. now cbn in Hc.
      * now subst x.
    + intros Hin. exists c. split; [|exact Hin].
      apply str_eqb_neq in Hc. now rewrite Hc.
  - intros Habsent. split.
    + assert (map (fun c => if str_eqb (id c) key
                            then applyPatch (now d) patch c else c)
                  (candidates db)
              = candidates db) as ->; [|reflexivity].
      rewrite <- (map_id (candidates db)) at 2. apply map_ext_in.
      intros c Hc. destruct (str_eqb (id c) key) eqn:K; [|reflexivity].
      apply str_eqb_eq in K. now apply Habsent in Hc.
    + assert (filter (fun c => str_eqb (id c) key) (candidates db) = [])
        as ->; [|reflexivity].
      induction (candidates db) as [|c l IH]; [reflexivity|]. cbn [filter].
      destruct (str_eqb (id c) key) eqn:K.
      * apply str_eqb_eq in K. exfalso. apply (Habsent c); [now left|exact K].
      * apply IH. intros x Hx. apply Habsent. now right.
Qed.

(** Distinct ids stay distinct: through a creation under a new id,
    through any update and through any deletion. *)
Theorem candidate_ids_stay_distinct (db : DB) :
  NoDup (map id (candidates db)) ->
  (forall d candidate,
      (forall c, In c (candidates db) -> id c <> newId d) ->
      NoDup (map id (candidates (snd (createCandidate d candidate db)))))
  /\ (forall d key patch,
        NoDup (map id (candidates (snd (updateCandidate d key patch db)))))
  /\ (forall key, NoDup (map id (candidates (deleteCandidate key db)))).
Proof.
  intros Hnd. split; [|split].
  - intros d candidate Hfresh. unfold createCandidate, insertCandidate.
    cbn [snd setCandidates candidates]. rewrite map_app. cbn [map id].
    apply NoDup_app; [exact Hnd | repeat constructor; simpl; tauto |].
    intros x Hx [<-|[]]. apply in_map_iff in Hx.
    destruct Hx as [c [Hid Hc]]. now apply Hfresh in Hc.
  - intros d key patch.
    assert (map id (candidates (snd (updateCandidate d key patch db)))
            = map id (candidates db)) as ->; [|exact Hnd].
    unfold updateCandidate. cbn [snd setCandidates candidates].
    rewrite map_map. apply map_ext. intros c.
    now destruct (str_eqb (id c) key).
  - intros key. unfold deleteCandidate. cbn [setCandidates candidates].
    induction (candidates db) as [|c l IH]; [constructor|].
    cbn [map] in Hnd. inversion Hnd as [|? ? Hc Hl]; subst.
    cbn [filter]. destruct (negb (str_eqb (id c) key)).
    + cbn [map]. constructor; [|now apply IH].
      intros Hin. apply Hc. apply in_map_iff in Hin.
      destruct Hin as [x [Hx Hf]]. apply filter_In in Hf.
      apply in_map_iff. exists x. tauto.
    + now apply IH.
Qed.

End CandidateStore.

(* ================================================================= *)
(** ** Deleting a candidate that other rows reference *)

Module Deletion.

Import Numbering Applications CandidateStore.

(** A stored application references the candidate. *)
Definition hasApplication (key : jsstring) (db : DB) : bool :=
  existsb (fun a => match app_candidateId a with
                    | Some c => str_eqb c key
                    | None => false
                    end) (jobApplications db).

(** [deleteCandidate] as the database runs it.  [shared/schema.ts]
    declares [job_applications.candidate_id] and [tasks.candidate_id]
    as references to [candidates.id] with no ON DELETE action: the
    DELETE of a candidate row that another row references is rejected,
    and the call throws.  The tasks table is not part of the store;
    [referencedElsewhere] tells whether a row outside the store
    references the candidate. *)
Definition deleteCandidate (referencedElsewhere : jsstring -> bool)
  (key : jsstring) (db : DB) : Outcome unit * DB :=
  if existsb (fun c => str_eqb (id c) key) (candidates db)
     && (hasApplication key db || referencedElsewhere key)
  then (Threw DatabaseError, db)
  else (Returned tt, Numbering.deleteCandidate key db).

Lemma getCandidate_deleted (key : jsstring) (db : DB) :
  getCandidate key (Numbering.deleteCandidate key db) = None.
Proof.
  rewrite getCandidate_find. unfold Numbering.deleteCandidate.
  cbn [setCandidates candidates].
  destruct (find _ _) as [c|] eqn:E; [|reflexivity].
  apply find_some in E. destruct E as [Hin Heq].
  apply filter_In in Hin. destruct Hin as [_ Hne].
  rewrite Heq in Hne. discriminate.
Qed.

Lemma getCandidate_other (key other : jsstring) (db : DB) :
  other <> key ->
  getCandidate other (Numbering.deleteCandidate key db)
  = getCandidate other db.
Proof.
  intros Hne. rewrite !getCandidate_find. unfold Numbering.deleteCandidate.
  cbn [setCandidates candidates].
  induction (candidates db) as [|c l IH]; [reflexivity|]. cbn [filter].
  destruct (str_eqb (id c) key) eqn:K; cbn [negb find].
  - apply str_eqb_eq in K.
    destruct (str_eqb (id c) other) eqn:O; [|exact IH].
    apply str_eqb_eq in O. congruence.
  - destruct (str_eqb (id c) other); [reflexivity | exact IH].
Qed.

(** A deletion either goes through, and then the id cannot be read any
    more, or it is rejected, and then the store is as before: this
    happens exactly when the candidate is stored and an application, or
    a row outside the store, references it.  Either way every other id
    reads as before and the applications are untouched. *)
Theorem deleteCandidate_then_getCandidate
  (referencedElsewhere : jsstring -> bool) (key : jsstring) (db : DB) :
  let outcome := fst (deleteCandidate referencedElsewhere key db) in
  let db1 := snd (deleteCandidate referencedElsewhere key db) in
  (outcome = Returned tt /\ getCandidate key db1 = None
   \/ outcome = Threw DatabaseError /\ db1 = db
      /\ getCandidate key db <> None)
  /\ (outcome = Threw DatabaseError <->
      getCandidate key db <> None
      /\ (hasApplication key db = true \/ referencedElsewhere key = true))
  /\ (forall other, other <> key ->
        getCandidate other db1 = getCandidate other db)
  /\ jobApplications db1 = jobApplications db.
Proof.
  cbv zeta. unfold deleteCandidate.
  assert (existsb (fun c => str_eqb (id c) key) (candidates db) = true
          <-> getCandidate key db <> None) as Hstored.
  { rewrite getCandidate_find, existsb_exists. split.
    - intros [c [Hc Hk]] Hnone.
      pose proof (find_none _ _ Hnone c Hc) as Hf. cbv beta in Hf.
      congruence.
    - intros H. destruct (find _ _) as [c|] eqn:E; [|congruence].
      apply find_some in E. eauto. }
  destruct (existsb (fun c => str_eqb (id c) key) (candidates db)) eqn:Es;
    cbn [andb].
  - destruct (hasApplication key db || referencedElsewhere key) eqn:Er;
      cbn [fst snd].
    + apply orb_true_iff in Er.
      split; [right; split; [reflexivity|]; split; [reflexivity|];
              now apply Hstored|].
      split; [split; [intros _; split; [now apply Hstored | exact Er]
                     | reflexivity]|].
      split; [reflexivity | reflexivity].
    + apply orb_false_iff in Er. destruct Er as [Ea Ee].
      split; [left; split; [reflexivity | apply getCandidate_deleted]|].
      split; [split; [discriminate|]|].
      { intros [_ [H|H]]; congruence. }
      split; [intros other Hne; now apply getCandidate_other | reflexivity].
  - cbn [fst snd].
    split; [left; split; [reflexivity | apply getCandidate_deleted]|].
    split; [split; [discriminate|]|].
    { intros [H _]. apply Hstored in H. discriminate. }
    split; [intros other Hne; now apply getCandidate_other | reflexivity].
Qed.

End Deletion.

Lemma createCandidate_then_getCandidate_witness :
  CandidateStore.getCandidate (lit "cand-2")
    (snd (Numbering.createCandidate Inbound.t1 Numbering.blank
            (Inbound.onlyDana "met at the fair")))
  = Some (fst (Numbering.createCandidate Inbound.t1 Numbering.blank
                 (Inbound.onlyDana "met at the fair"))).
Proof.
  apply (proj1 (@CandidateStore.createCandidate_then_getCandidate
                  Inbound.t1 Numbering.blank
                  (Inbound.onlyDana "met at the fair")
                  ltac:(intros c [<-|[]]; discriminate))).
Defined.

Lemma updateCandidate_keeps_rows_witness :
  Permutation
    (candidates
       (snd (Inbound.updateCandidate Inbound.t1 (lit "nobody")
               (Inbound.mergePatch (Inbound.message "Dan" "dana@x.org" "052")
                                   (Inbound.dana "met at the fair"))
               (Inbound.onlyDana "met at the fair"))))
    (candidates (Inbound.onlyDana "met at the fair")).
Proof.
  apply (proj1 (proj2 (proj2 (@CandidateStore.updateCandidate_keeps_rows
                                Inbound.t1 (lit "nobody")
                                (Inbound.mergePatch
                                   (Inbound.message "Dan" "dana@x.org" "052")
                                   (Inbound.dana "met at the fair"))
                                (Inbound.onlyDana "met at the fair")))
                 ltac:(intros c [<-|[]]; discriminate))).
Defined.

Lemma candidate_ids_stay_distinct_witness :
  NoDup (map id (candidates
                   (Numbering.deleteCandidate (lit "cand-1")
                      (Inbound.onlyDana "met at the fair")))).
Proof.
  apply (proj2 (proj2 (@CandidateStore.candidate_ids_stay_distinct
                         (Inbound.onlyDana "met at the fair")
                         ltac:(repeat constructor; simpl; tauto)))).
Defined.

(* ================================================================= *)
(** ** Ordering: what [ORDER BY ... DESC] guarantees *)

Module OrderFacts.

(** A list in descending order of a key, [NULL] keys first. *)
Definition descending {Row : Type} (key : Row -> option Z)
  (rows : list Row) : Prop :=
  StronglySorted (fun a b => geb_key (key a) (key b) = true) rows.

Lemma geb_key_refl (a : option Z) : geb_key a a = true.
Proof. destruct a; simpl; [apply Z.leb_refl | reflexivity]. Qed.

Lemma geb_key_total (a b : option Z) :
  geb_key a b = false -> geb_key b a = true.
Proof.
  destruct a, b; simpl; try congruence.
  intros H. apply Z.leb_gt in H. apply Z.leb_le. lia.
Qed.

Lemma geb_key_trans (a b c : option Z) :
  geb_key a b = true -> geb_key b c = true -> geb_key a c = true.
Proof.
  destruct a, b, c; simpl; try congruence.
  intros H1 H2. apply Z.leb_le in H1, H2. apply Z.leb_le. lia.
Qed.

Lemma insertDesc_descending {Row : Type} (key : Row -> option Z) (r : Row)
  (rows : list Row) :
  descending key rows -> descending key (insertDesc key r rows).
Proof.
  unfold descending. induction 1 as [|x rest Hs IH Hx]; simpl.
  - repeat constructor.
  - destruct (geb_key (key r) (key x)) eqn:G.
    + constructor; [now constructor|]. constructor; [exact G|].
      rewrite Forall_forall in *. intros y Hy.
      eapply geb_key_trans; [exact G | now apply Hx].
    + constructor; [exact IH|]. rewrite Forall_forall in *. intros y Hy.
      apply insertDesc_In in Hy. destruct Hy as [->|Hy]; [|now apply Hx].
      now apply geb_key_total.
Qed.

Lemma orderByDesc_descending {Row : Type} (key : Row -> option Z)
  (rows : list Row) : descending key (orderByDesc key rows).
Proof.
  induction rows as [|r rows IH]; simpl; [constructor|].
  now apply insertDesc_descending.
Qed.

Lemma insertDesc_length {Row : Type} (key : Row -> option Z) (r : Row)
  (rows : list Row) : length (insertDesc key r rows) = S (length rows).
Proof.
  induction rows as [|x rest IH]; simpl; [reflexivity|].
  destruct (geb_key (key r) (key x)); simpl; [reflexivity | now rewrite IH].
Qed.

Lemma orderByDesc_length {Row : Type} (key : Row -> option Z)
  (rows : list Row) : length (orderByDesc key rows) = length rows.
Proof.
  induction rows as [|r rows IH]; simpl; [reflexivity|].
  now rewrite insertDesc_length, IH.
Qed.

(** Taking a part of a descending list, or rows derived one-to-(at
    most)-one with the same key, keeps the order. *)
Lemma descending_flat_map {Row Out : Type} (key : Row -> option Z)
  (key' : Out -> option Z) (g : Row -> option Out) (rows : list Row) :
  (forall x r, g x = Some r -> key' r = key x) ->
  descending key rows ->
  descending key'
    (flat_map (fun x => match g x with Some r => [r] | None => [] end) rows).
Proof.
  intros Hkey. unfold descending.
  induction 1 as [|x rest Hs IH Hx]; simpl; [constructor|].
  destruct (g x) as [r|] eqn:E; [|exact IH]. simpl.
  constructor; [exact IH|]. rewrite Forall_forall in *. intros r' Hr'.
  apply in_flat_map in Hr'. destruct Hr' as [y [Hy Hin]].
  destruct (g y) as [ry|] eqn:Ey; [|destruct Hin].
  destruct Hin as [<-|[]].
  rewrite (Hkey _ _ E), (Hkey _ _ Ey). now apply Hx.
Qed.

Lemma descending_firstn {Row : Type} (key : Row -> option Z) (n : nat)
  (rows : list Row) : descending key rows -> descending key (firstn n rows).
Proof.
  unfold descending. intros H. revert n.
  induction H as [|x rest Hs IH Hx]; intros [|n]; simpl; try constructor.
  - apply IH.
  - rewrite Forall_forall in *. intros y Hy. apply Hx.
    now apply firstn_incl in Hy.
Qed.

Lemma descending_skipn {Row : Type} (key : Row -> option Z) (n : nat)
  (rows : list Row) : descending key rows -> descending key (skipn n rows).
Proof.
  unfold descending. intros H. revert n.
  induction H as [|x rest Hs IH Hx]; intros [|n]; simpl;
    try constructor; auto.
Qed.

End OrderFacts.
Import OrderFacts.

(* ================================================================= *)
(** ** Naive CV search: order of the results, empty filters, negative
       keywords; candidate events ([addCandidateEvent],
       [getCandidateEvents]) *)

Module SearchFacts.

Import Search.

Section WithBuiltins.

Variable toLowerCase : jsstring -> jsstring.
Variable extractTextFromCVFile : jsstring -> jsstring.

Local Abbreviation searchCVs :=
  (searchCVs toLowerCase extractTextFromCVFile).
Local Abbreviation examine := (examine toLowerCase extractTextFromCVFile).
Local Abbreviation candidateText := (candidateText extractTextFromCVFile).

(** One iteration in closed form: the two guards, then the record. *)
Lemma examine_form (db : DB) (f : Filters) (c : Candidate) :
  examine db f c
  = let text := candidateText db (includeNotes f) c in
    if (match positiveKeywords f with [] => true | _ :: _ => false end
        || fst (positiveLoop toLowerCase text (positiveKeywords f)))
       && negativeLoop toLowerCase text (negativeKeywords f)
    then Some {| candidateId := id c;
                 res_firstName := orEmpty (firstName c);
                 res_lastName := orEmpty (lastName c);
                 res_city := orEmpty (city c);
                 res_phone := orEmpty (mobile c);
                 res_email := orEmpty (email c);
                 matchedKeywords :=
                   snd (positiveLoop toLowerCase text (positiveKeywords f));
                 cvPreview := text;
                 extractedAt := createdAt c |}
    else None.
Proof.
  unfold Search.examine. cbv zeta.
  set (text := candidateText db (includeNotes f) c).
  destruct (positiveKeywords f) as [|p ps]; cbn [length Nat.ltb Nat.leb orb].
  - cbn [andb]. destruct (negativeKeywords f) as [|n ns]; [reflexivity|].
    cbn [length Nat.ltb Nat.leb].
    now destruct (negativeLoop toLowerCase text (n :: ns)).
  - destruct (positiveLoop toLowerCase text (p :: ps)) as [flag matched].
    cbn [fst snd]. destruct flag; cbn [negb andb]; [|reflexivity].
    destruct (negativeKeywords f) as [|n ns]; [reflexivity|].
    cbn [length Nat.ltb Nat.leb].
    now destruct (negativeLoop toLowerCase text (n :: ns)).
Qed.

Lemma examine_extractedAt (db : DB) (f : Filters) (c : Candidate)
  (r : SearchResult) :
  examine db f c = Some r -> extractedAt r = createdAt c.
Proof.
  rewrite examine_form. cbv zeta.
  destruct (_ && _); [|discriminate]. now intros [= <-].
Qed.

(** The results come most recently created first (candidates without a
    creation time before all others), whatever the filters. *)
Theorem searchCVs_most_recent_first (db : DB) (f : Filters) :
  descending extractedAt (searchCVs db f).
Proof.
  unfold Search.searchCVs.
  apply (@descending_flat_map _ _ createdAt extractedAt (examine db f)).
  - intros x r. apply examine_extractedAt.
  - apply orderByDesc_descending.
Qed.

(** With no keyword at all, every candidate is returned, once, with an
    empty list of matched keywords. *)
Theorem searchCVs_no_keywords (db : DB) (notes : bool) :
  let f := {| positiveKeywords := []; negativeKeywords := [];
              includeNotes := notes |} in
  map candidateId (searchCVs db f)
  = map id (orderByDesc createdAt (candidates db))
  /\ length (searchCVs db f) = length (candidates db)
  /\ forall r, In r (searchCVs db f) -> matchedKeywords r = [].
Proof.
  intros f.
  assert (forall l,
             flat_map (fun c => match examine db f c with
                                | Some r => [r] | None => [] end) l
             = map (fun c => {| candidateId := id c;
                                res_firstName := orEmpty (firstName c);
                                res_lastName := orEmpty (lastName c);
                                res_city := orEmpty (city c);
                                res_phone := orEmpty (mobile c);
                                res_email := orEmpty (email c);
                                matchedKeywords := [];
                                cvPreview := candidateText db notes c;
                                extractedAt := createdAt c |}) l) as E.
  { induction l as [|c l IH]; [reflexivity|]. cbn [flat_map map].
    rewrite IH, examine_form. reflexivity. }
  unfold Search.searchCVs. rewrite E. split; [|split].
  - now rewrite map_map.
  - now rewrite length_map, orderByDesc_length.
  - intros r Hr. apply in_map_iff in Hr. destruct Hr as [c [<- _]].
    reflexivity.
Qed.

Lemma negativeLoop_app (text : jsstring) (a b : list jsstring) :
  negativeLoop toLowerCase text (a ++ b)
  = negativeLoop toLowerCase text a && negativeLoop toLowerCase text b.
Proof.
  induction a as [|k a IH]; [reflexivity|]. cbn [app negativeLoop].
  now destruct (textContainsKeyword toLowerCase (Some text) k).
Qed.

(** Further negative keywords can only remove results: every result of
    the longer exclusion list is, unchanged, a result of the shorter. *)
Theorem searchCVs_more_negatives (db : DB) (positive negative more
  : list jsstring) (notes : bool) (r : SearchResult) :
  In r (searchCVs db {| positiveKeywords := positive;
                        negativeKeywords := negative ++ more;
                        includeNotes := notes |}) ->
  In r (searchCVs db {| positiveKeywords := positive;
                        negativeKeywords := negative;
                        includeNotes := notes |}).
Proof.
  unfold Search.searchCVs. rewrite !in_flat_map.
  intros [c [Hc Hr]]. exists c. split; [exact Hc|].
  rewrite examine_form in *. cbv zeta in *.
  cbn [positiveKeywords negativeKeywords includeNotes] in *.
  rewrite negativeLoop_app in Hr.
  destruct (match positive with [] => true | _ :: _ => false end
            || fst (positiveLoop toLowerCase
                      (candidateText db notes c) positive));
    [|destruct Hr].
  destruct (negativeLoop toLowerCase (candidateText db notes c) negative);
    [|destruct Hr].
  cbn [andb] in *.
  destruct (negativeLoop toLowerCase (candidateText db notes c) more);
    [exact Hr | destruct Hr].
Qed.

End WithBuiltins.

(** [addCandidateEvent] *)
Record InsertCandidateEvent : Type := mkInsertCandidateEvent {
  ins_ev_candidateId : option jsstring;
  ins_ev_eventType : option jsstring;
  ins_ev_description : option jsstring
}.

Definition addCandidateEvent (d : Defaults) (event : InsertCandidateEvent)
  (db : DB) : CandidateEvent * DB :=
  let newEvent :=
    {| ev_id := newId d;
       ev_candidateId := ins_ev_candidateId event;
       ev_eventType := ins_ev_eventType event;
       ev_description := ins_ev_description event;
       ev_createdAt := Some (now d) |} in
  (newEvent,
   {| candidates := candidates db;
      candidateEvents := candidateEvents db ++ [newEvent];
      jobs := jobs db;
      jobApplications := jobApplications db |}).

Lemma getCandidateEvents_In (db : DB) (key : jsstring)
  (e : CandidateEvent) :
  In e (getCandidateEvents db key)
  <-> In e (candidateEvents db) /\ ev_candidateId e = Some key.
Proof.
  unfold getCandidateEvents. rewrite orderByDesc_In. unfold select_where.
  rewrite filter_In. apply and_iff_compat_l.
  destruct (ev_candidateId e) as [k|]; cbn [sql_eq].
  - rewrite Resolver.is_true_Some, str_eqb_eq. split; congruence.
  - split; discriminate.
Qed.

(** The history of a candidate holds exactly the stored events of that
    candidate, latest first. *)
Theorem getCandidateEvents_history (db : DB) (key : jsstring) :
  (forall e, In e (getCandidateEvents db key) <->
             In e (candidateEvents db) /\ ev_candidateId e = Some key)
  /\ descending ev_createdAt (getCandidateEvents db key).
Proof.
  split.
  - intros e. apply getCandidateEvents_In.
  - unfold getCandidateEvents. apply orderByDesc_descending.
Qed.

(** An event added for a candidate shows in that candidate's history and
    leaves every other history as it was. *)
Theorem addCandidateEvent_then_getCandidateEvents (d : Defaults)
  (event : InsertCandidateEvent) (db : DB) (key : jsstring) :
  ins_ev_candidateId event = Some key ->
  In (fst (addCandidateEvent d event db))
     (getCandidateEvents (snd (addCandidateEvent d event db)) key)
  /\ forall other, other <> key ->
       getCandidateEvents (snd (addCandidateEvent d event db)) other
       = getCandidateEvents db other.
Proof.
  intros Hk. split.
  - apply getCandidateEvents_In.
    unfold addCandidateEvent. cbn [fst snd candidateEvents ev_candidateId].
    split; [apply in_or_app; right; now left | exact Hk].
  - intros other Hne. unfold getCandidateEvents, select_where,
      addCandidateEvent. cbn [snd candidateEvents].
    rewrite filter_app. cbn [filter ev_candidateId]. rewrite Hk.
    cbn [sql_eq]. rewrite Resolver.is_true_Some.
    destruct (str_eqb key other) eqn:E.
    + apply str_eqb_eq in E. congruence.
    + now rewrite app_nil_r.
Qed.

End SearchFacts.

Lemma searchCVs_more_negatives_witness :
  In (Search.resultOf asciiLower Search.noFile Search.sampleDB
        Search.javaNotJunior Search.senior)
     (Search.searchCVs asciiLower Search.noFile Search.sampleDB
        {| Search.positiveKeywords := [lit "Java"];
           Search.negativeKeywords := [];
           Search.includeNotes := false |}).
Proof.
  apply (@SearchFacts.searchCVs_more_negatives asciiLower Search.noFile
           Search.sampleDB [lit "Java"] [] [lit "Junior"] false).
  unfold Search.searchCVs. apply in_flat_map. exists Search.senior.
  split; [right; now left | left; reflexivity].
Defined.

Lemma addCandidateEvent_then_getCandidateEvents_witness :
  let event := {| SearchFacts.ins_ev_candidateId := Some (lit "s");
                  SearchFacts.ins_ev_eventType := Some (lit "note");
                  SearchFacts.ins_ev_description := Some (lit "called") |} in
  In (fst (SearchFacts.addCandidateEvent Inbound.t1 event Search.sampleDB))
     (Search.getCandidateEvents
        (snd (SearchFacts.addCandidateEvent Inbound.t1 event Search.sampleDB))
        (lit "s")).
Proof.
  apply (proj1 (@SearchFacts.addCandidateEvent_then_getCandidateEvents
                  Inbound.t1
                  {| SearchFacts.ins_ev_candidateId := Some (lit "s");
                     SearchFacts.ins_ev_eventType := Some (lit "note");
                     SearchFacts.ins_ev_description := Some (lit "called") |}
                  Search.sampleDB (lit "s") eq_refl)).
Defined.

(* ================================================================= *)
(** ** Indexed search: the terms and the queries *)

Module IndexedFacts.

Import Indexed.

Lemma dropWhile_nil (p : N -> bool) (s : jsstring) :
  dropWhile p s = [] -> Forall (fun c => p c = true) s.
Proof.
  induction s as [|c t IH]; [constructor|]. simpl.
  destruct (p c) eqn:E; [|discriminate]. intros H. constructor; auto.
Qed.

Lemma trim_nil (s : jsstring) :
  trim s = [] -> Forall (fun c => isWhiteSpace c = true) s.
Proof.
  unfold trim, trimEnd, trimStart. intros H.
  assert (dropWhile isWhiteSpace (rev (dropWhile isWhiteSpace s)) = [])
    as H1.
  { rewrite <- (rev_involutive (dropWhile _ (rev _))). now rewrite H. }
  apply dropWhile_nil in H1.
  assert (dropWhile isWhiteSpace s = []) as H2.
  { destruct (dropWhile isWhiteSpace s) as [|c t] eqn:E; [reflexivity|].
    assert (isWhiteSpace c = true) as Hc.
    { rewrite Forall_forall in H1. apply H1. apply -> in_rev. now left. }
    clear H H1. induction s as [|x s IH]; [discriminate|]. simpl in E.
    destruct (isWhiteSpace x) eqn:Ex; [auto|]. inversion E; subst.
    congruence. }
  now apply dropWhile_nil.
Qed.

Lemma split_parts_blank (s : jsstring) :
  Forall (Forall (fun c => isWhiteSpace c = true)) (split 32 s) ->
  Forall (fun c => isWhiteSpace c = true) s.
Proof.
  induction s as [|x t IH]; [constructor|]. simpl.
  destruct (x =? 32)%N eqn:E.
  - apply N.eqb_eq in E. subst x. intros H. inversion H; subst.
    constructor; [reflexivity | auto].
  - destruct (split 32 t) as [|p ps].
    + intros H. inversion H as [|? ? Hx _]; subst.
      inversion Hx; subst. constructor; [assumption|].
      apply IH. constructor.
    + intros H. inversion H as [|? ? Hx Hps]; subst.
      inversion Hx; subst. constructor; [assumption|].
      apply IH. now constructor.
Qed.

Lemma split_no_separator (c : N) (s : jsstring) :
  Forall (fun p => ~ In c p) (split c s).
Proof.
  induction s as [|x t IH]; simpl; [repeat constructor; tauto|].
  destruct (x =? c)%N eqn:E.
  - constructor; [tauto | exact IH].
  - apply N.eqb_neq in E. destruct (split c t) as [|p ps].
    + repeat constructor. intros [H|[]]. congruence.
    + inversion IH; subst. constructor; [|assumption].
      intros [H|H]; [congruence | tauto].
Qed.

(** The query has no term exactly when it is empty or made of white
    space only; and a term never holds a blank and is never empty after
    trimming. *)
Theorem keywordList_terms (keywords : jsstring) :
  (keywordList keywords = [] <->
   Forall (fun c => isWhiteSpace c = true) keywords)
  /\ forall k, In k (keywordList keywords) ->
       ~ In 32%N k /\ trim k <> [].
Proof.
  split.
  - split; [|apply keywordList_whitespace].
    unfold keywordList. intros H. apply split_parts_blank.
    apply Forall_forall. intros p Hp. apply trim_nil.
    destruct (trim p) as [|c t] eqn:E; [reflexivity|].
    assert (In p (filter (fun k => 0 <? length (trim k))
                         (split 32 keywords))) as Hin.
    { apply filter_In. split; [exact Hp|]. now rewrite E. }
    rewrite H in Hin. destruct Hin.
  - intros k Hk. unfold keywordList in Hk. apply filter_In in Hk.
    destruct Hk as [Hin Hlen]. split.
    + pose proof (split_no_separator 32 keywords) as H.
      rewrite Forall_forall in H. now apply H.
    + intros E. rewrite E in Hlen. discriminate.
Qed.

End IndexedFacts.

(* ================================================================= *)
(** ** The indexed search against any driver *)

Module Ranked.

Import Indexed(Query, CountMatching, SelectRanked, keywordList).

(** The [count] column as the driver hands it over.  PostgreSQL's
    [count] is a [bigint]; a driver returns it as a number, as the
    string of its digits or as a BigInt, according to the driver and
    its settings. *)
Inductive CountValue : Type :=
| CountNumber (n : Z)
| CountText (s : jsstring)
| CountBigInt (n : Z).

(** Truthiness of such a value. *)
Definition truthyCount (v : CountValue) : bool :=
  match v with
  | CountNumber n | CountBigInt n => negb (n =? 0)%Z
  | CountText s => truthy s
  end.

(** [countResult?.count || 0]; a missing row is [None]. *)
Definition orZero (countResult : option CountValue) : CountValue :=
  match countResult with
  | Some v => if truthyCount v then v else CountNumber 0
  | None => CountNumber 0
  end.

(** [total === 0] *)
Definition isZero (total : CountValue) : bool :=
  match total with
  | CountNumber n => (n =? 0)%Z
  | CountText _ | CountBigInt _ => false
  end.

(** What a query gives when the database answers it. *)
Definition Rows (q : Query) : Type :=
  match q with
  | CountMatching _ => option CountValue
  | SelectRanked _ _ _ => list Candidate
  end.

(** The database answers a query or rejects it; a rejected query makes
    the awaited call throw. *)
Inductive Reply (A : Type) : Type :=
| Answered (a : A)
| Rejected.
Arguments Answered {A} a.
Arguments Rejected {A}.

Definition Handler : Type := forall q : Query, Reply (Rows q).

Inductive Store (A : Type) : Type :=
| Ret (a : A)
| Ask (q : Query) (k : Rows q -> Store A).
Arguments Ret {A} a.
Arguments Ask {A} q k.

(** Running a computation against a database: the value returned, or
    [None] when a query threw, and the queries issued, in order. *)
Fixpoint exec {A : Type} (h : Handler) (m : Store A)
  : option A * list Query :=
  match m with
  | Ret a => (Some a, [])
  | Ask q k =>
    match h q with
    | Answered rows => let '(a, log) := exec h (k rows) in (a, q :: log)
    | Rejected => (None, [q])
    end
  end.

(** [searchCandidatesByKeywords], the count kept as the driver hands it
    over. *)
Definition searchCandidatesByKeywords (keywords : jsstring)
  (limit offset : nat) : Store (list Candidate * CountValue) :=
  let keywordList := keywordList keywords in
  if length keywordList =? 0 then Ret ([], CountNumber 0)
  else
    let searchQuery := join (lit " & ") (map trim keywordList) in
    Ask (CountMatching searchQuery) (fun countResult =>
      let total := orZero countResult in
      if isZero total then Ret ([], CountNumber 0)
      else
        Ask (SelectRanked searchQuery limit offset) (fun results =>
          Ret (results, total))).

(** A count handed over as text does not stop the search, whatever the
    digits: the text is not the number zero. *)
Example orZero_text :
  isZero (orZero (Some (CountText (lit "0")))) = false
  /\ orZero (Some (CountText (lit "0"))) = CountText (lit "0")
  /\ isZero (orZero (Some (CountNumber 0))) = true
  /\ isZero (orZero (Some (CountBigInt 0))) = true
  /\ isZero (orZero None) = true.
Proof. repeat split. Qed.

(** Whatever the database does - it may reject a query, and it may hand
    the count over as a number, as text or as a BigInt - the function
    asks at most two things: first the count, and the page exactly when
    the count was answered and [count || 0] is not the number zero.
    Both carry the same query text and the page carries the caller's
    limit and offset.  A rejected query makes the call throw; a count
    that is missing, falsy or the number zero gives the empty result
    with the total zero; otherwise the total returned is the count as
    it was handed over. *)
Theorem searchCandidatesByKeywords_queries (keywords : jsstring)
  (limit offset : nat) (h : Handler) :
  let searchQuery := join (lit " & ") (map trim (keywordList keywords)) in
  let count := CountMatching searchQuery in
  let page := SelectRanked searchQuery limit offset in
  let run := exec h (searchCandidatesByKeywords keywords limit offset) in
  (keywordList keywords = [] /\ run = (Some ([], CountNumber 0), []))
  \/ (keywordList keywords <> [] /\ h count = Rejected
      /\ run = (None, [count]))
  \/ (exists countResult,
        keywordList keywords <> [] /\ h count = Answered countResult
        /\ (isZero (orZero countResult) = true
            /\ run = (Some ([], CountNumber 0), [count])
            \/ isZero (orZero countResult) = false
               /\ h page = Rejected
               /\ run = (None, [count; page])
            \/ isZero (orZero countResult) = false
               /\ exists results,
                    h page = Answered results
                    /\ run = (Some (results, orZero countResult),
                              [count; page]))).
Proof.
  cbv zeta. unfold searchCandidatesByKeywords.
  destruct (keywordList keywords) as [|k ks] eqn:E.
  - left. split; reflexivity.
  - right. cbn [length Nat.eqb exec].
    set (q := join (lit " & ") (map trim (k :: ks))).
    destruct (h (CountMatching q)) as [countResult|] eqn:Hc.
    2:{ left. split; [discriminate|]. split; reflexivity. }
    right. exists countResult. split; [discriminate|].
    split; [reflexivity|].
    destruct (isZero (orZero countResult)) eqn:T.
    + left. split; reflexivity.
    + right. cbn [exec].
      destruct (h (SelectRanked q limit offset)) as [results|] eqn:Hp.
      * right. split; [reflexivity|]. exists results. split; reflexivity.
      * left. split; [reflexivity|]. split; reflexivity.
Qed.

(** With a database that rejects nothing and hands the count over as a
    number, this is the function of the module [Indexed]. *)
Definition numbers (h : Indexed.Handler) : Handler :=
  fun q =>
    match q as q0 return (Indexed.Answer q0 -> Reply (Rows q0)) with
    | CountMatching _ => fun a => Answered (option_map CountNumber a)
    | SelectRanked _ _ _ => fun a => Answered a
    end (h q).

Lemma searchCandidatesByKeywords_numbers (keywords : jsstring)
  (limit offset : nat) (h : Indexed.Handler) :
  exec (numbers h) (searchCandidatesByKeywords keywords limit offset)
  = let '((results, total), log) :=
      Indexed.exec h
        (Indexed.searchCandidatesByKeywords keywords limit offset) in
    (Some (results, CountNumber total), log).
Proof.
  unfold searchCandidatesByKeywords, Indexed.searchCandidatesByKeywords.
  destruct (length (keywordList keywords) =? 0); [reflexivity|].
  cbn [exec Indexed.exec numbers].
  set (q := join (lit " & ") (map trim (keywordList keywords))).
  destruct (h (CountMatching q)) as [[|n|n]|]; reflexivity.
Qed.

End Ranked.

(* ================================================================= *)
(** ** Job applications: first creation, repetition, the pair
       invariant and the answers of the route *)

Module ApplicationFacts.

Import Applications.




(** The candidate and the job of a row, when both are set. *)
Definition pairOf (a : JobApplication) : list (jsstring * jsstring) :=
  match app_candidateId a, app_jobId a with
  | Some c, Some j => [(c, j)]
  | _, _ => []
  end.

(** No two stored applications link the same candidate to the same
    job. *)
Definition onePerPair (table : list JobApplication) : Prop :=
  NoDup (flat_map pairOf table).

Lemma pairOf_samePair (application : InsertJobApplication)
  (a : JobApplication) (c j : jsstring) :
  ins_app_candidateId application = Some c ->
  ins_app_jobId application = Some j ->
  In (c, j) (pairOf a) -> is_true (samePair application a) = true.
Proof.
  intros Hc Hj. unfold pairOf, samePair. rewrite Hc, Hj.
  destruct (app_candidateId a) as [c'|], (app_jobId a) as [j'|];
    intros Hin; try (now destruct Hin).
  destruct Hin as [E|[]]. inversion E; subst. cbn.
  now rewrite !str_eqb_refl.
Qed.

(** [createJobApplication] keeps the store free of double applications:
    if no pair occurs twice before the call, none does after it,
    whatever the request and whatever the outcome. *)
Theorem createJobApplication_one_per_pair (d : Defaults)
  (application : InsertJobApplication) (db : DB) :
  onePerPair (jobApplications db) ->
  onePerPair (jobApplications (snd (createJobApplication d application db))).
Proof.
  unfold onePerPair. intros H. unfold createJobApplication.
  destruct (existingFor application db) as [|e0 rest] eqn:E.
  - cbn [insertJobApplication snd setJobApplications jobApplications].
    rewrite flat_map_app. cbn [flat_map]. rewrite app_nil_r.
    set (newRow := {| app_id := newId d |}).
    apply NoDup_app; [exact H | |].
    + unfold pairOf. destruct (app_candidateId newRow), (app_jobId newRow);
        repeat constructor; simpl; tauto.
    + intros [c j] Hold Hnew.
      assert (ins_app_candidateId application = Some c
              /\ ins_app_jobId application = Some j) as [Hc Hj].
      { unfold pairOf, newRow in Hnew. cbn in Hnew.
        destruct (ins_app_candidateId application),
                 (ins_app_jobId application); try destruct Hnew as [].
        - inversion H0; subst. auto.
        - destruct H0. }
      apply in_flat_map in Hold. destruct Hold as [a [Ha Hp]].
      assert (In a (existingFor application db)) as Hin.
      { unfold existingFor, select_where. apply filter_In. split; [exact Ha|].
        eapply pairOf_samePair; eauto. }
      rewrite E in Hin. destruct Hin.
  - destruct (statusIs application (lit "interview_scheduled"));
      [|exact H].
    unfold updateStatusById.
    destruct (existsb (str_eqb (lit "interview_scheduled"))
                      applicationStatusEnum); [|exact H].
    cbn [snd setJobApplications jobApplications].
    assert (forall l,
               flat_map pairOf
                 (map (fun a => if str_eqb (app_id a) (app_id e0)
                                then setStatus (lit "interview_scheduled") a
                                else a) l)
               = flat_map pairOf l) as ->; [|exact H].
    induction l as [|a l IH]; [reflexivity|]. cbn [map flat_map].
    rewrite IH. now destruct (str_eqb (app_id a) (app_id e0)).
Qed.

(** What a middleware does with a request: it answers the request
    itself, or it passes the request on to the handler. *)
Inductive Middleware : Type :=
| Answers (response : Response)
| Passes.

(** [app.post('/api/job-applications', isAuthenticated, handler)]: the
    handler runs only for a request that the middleware passes on.
    [isAuthenticated] is imported from [replitAuth], which is not among
    the sources; [auth] is what it does with the request at hand. *)
Definition postJobApplicationRoute (auth : Middleware) (d : Defaults)
  (parsed : Outcome InsertJobApplication) (db : DB) : Response * DB :=
  match auth with
  | Answers response => (response, db)
  | Passes => postJobApplication d parsed db
  end.

(** The route gives the middleware's answer, with the store untouched,
    when the middleware answers; for a request that the middleware
    passes on it answers 201, 400 or 500 and nothing else, and whenever
    that answer is not 201 the store is exactly as before.  In every
    case the candidates, the jobs and the events are untouched and no
    application row is removed. *)
Theorem postJobApplication_answers (auth : Middleware) (d : Defaults)
  (parsed : Outcome InsertJobApplication) (db : DB) :
  let answer := fst (postJobApplicationRoute auth d parsed db) in
  let db1 := snd (postJobApplicationRoute auth d parsed db) in
  (forall response, auth = Answers response ->
                    answer = response /\ db1 = db)
  /\ (auth = Passes ->
      (status answer = 201 \/ status answer = 400 \/ status answer = 500)
      /\ (status answer <> 201 -> db1 = db))
  /\ candidates db1 = candidates db
  /\ jobs db1 = jobs db
  /\ candidateEvents db1 = candidateEvents db
  /\ length (jobApplications db) <= length (jobApplications db1)
     <= S (length (jobApplications db)).
Proof.
  cbv zeta. unfold postJobApplicationRoute.
  destruct auth as [response|].
  { cbn. split; [intros r E; now inversion E|].
    split; [discriminate|]. repeat split; auto. }
  split; [discriminate|].
  unfold postJobApplication.
  destruct parsed as [application|[errors|message existing|]].
  - unfold createJobApplication.
    destruct (existingFor application db) as [|e0 rest].
    + cbn. rewrite length_app. cbn. repeat split; auto; lia.
    + destruct (statusIs application (lit "interview_scheduled")).
      * unfold updateStatusById.
        destruct (existsb (str_eqb (lit "interview_scheduled"))
                          applicationStatusEnum).
        -- cbn. rewrite length_map. repeat split; auto; lia.
        -- cbn. repeat split; auto; lia.
      * cbn. repeat split; auto; lia.
  - cbn. repeat split; auto; lia.
  - cbn. repeat split; auto; lia.
  - cbn. repeat split; auto; lia.
Qed.

End ApplicationFacts.


Lemma createJobApplication_one_per_pair_witness :
  ApplicationFacts.onePerPair
    (jobApplications
       (snd (Applications.createJobApplication Applications.later
               (Applications.again "submitted")
               Applications.oneApplication))).
Proof.
  apply ApplicationFacts.createJobApplication_one_per_pair.
  repeat constructor. simpl. tauto.
Defined.

Lemma postJobApplication_answers_witness :
  snd (ApplicationFacts.postJobApplicationRoute ApplicationFacts.Passes
         Applications.later
         (Applications.Returned (Applications.again "submitted"))
         Applications.oneApplication)
  = Applications.oneApplication.
Proof.
  apply (proj1 (proj2 (@ApplicationFacts.postJobApplication_answers
                         ApplicationFacts.Passes
                         Applications.later
                         (Applications.Returned
                            (Applications.again "submitted"))
                         Applications.oneApplication)));
    [reflexivity | discriminate].
Defined.

(* ================================================================= *)
(** ** The candidate list ([getCandidates]): what a search term
       selects, pages, order *)

Module ListingFacts.

Import Inbound.

(** A character with no special meaning in a [LIKE] pattern. *)
Definition literal (c : N) : bool :=
  negb ((c =? 37) || (c =? 95) || (c =? 92))%N.

Lemma like_percent (rest s : jsstring) :
  like (37%N :: rest) s
  = like rest s
    || match s with [] => false | _ :: t => like (37%N :: rest) t end.
Proof. destruct s; reflexivity. Qed.

Lemma like_percent_end (s : jsstring) : like [37%N] s = true.
Proof.
  induction s as [|c t IH]; [reflexivity|].
  rewrite like_percent, IH. apply orb_true_r.
Qed.

Lemma like_literal_prefix (p s : jsstring) :
  Forall (fun c => literal c = true) p ->
  like (p ++ [37%N]) s = startsWith p s.
Proof.
  intros H. revert s. induction H as [|c p Hc _ IH]; intros s.
  - apply like_percent_end.
  - unfold literal in Hc. apply negb_true_iff in Hc.
    apply orb_false_iff in Hc. destruct Hc as [Hc H92].
    apply orb_false_iff in Hc. destruct Hc as [H37 H95].
    cbn [app like startsWith]. rewrite H37, H95, H92.
    destruct s as [|x t]; [reflexivity|].
    now rewrite IH, N.eqb_sym.
Qed.

(** For a term without wildcard or escape characters, the pattern
    [%term%] matches exactly the texts that contain the term. *)
Lemma like_contains (term s : jsstring) :
  Forall (fun c => literal c = true) term ->
  like (lit "%" ++ term ++ lit "%") s = includes s term.
Proof.
  intros H. change (lit "%" ++ term ++ lit "%")
    with (37%N :: (term ++ [37%N])).
  induction s as [|c t IH]; rewrite like_percent, like_literal_prefix by auto.
  - reflexivity.
  - cbn [includes]. now rewrite IH.
Qed.

Section WithLower.

Variable LOWER : jsstring -> jsstring.

(** Lower-casing works character by character and leaves [%] alone. *)
Hypothesis LOWER_app : forall a b, LOWER (a ++ b) = LOWER a ++ LOWER b.
Hypothesis LOWER_percent : LOWER (lit "%") = lit "%".

(** The search term occurs, letter case apart, in the full name, in the
    e-mail or in the profession. *)
Definition mentions (term : jsstring) (c : Candidate) : bool :=
  (match firstName c, lastName c with
   | Some f, Some l => includes (LOWER (f ++ lit " " ++ l)) (LOWER term)
   | _, _ => false
   end)
  || (match email c with
      | Some e => includes (LOWER e) (LOWER term)
      | None => false
      end)
  || (match profession c with
      | Some p => includes (LOWER p) (LOWER term)
      | None => false
      end).

Lemma ILIKE_contains (term : jsstring) (value : option jsstring) :
  Forall (fun c => literal c = true) (LOWER term) ->
  is_true (ILIKE LOWER value (lit "%" ++ term ++ lit "%"))
  = match value with
    | Some v => includes (LOWER v) (LOWER term)
    | None => false
    end.
Proof.
  intros H. unfold ILIKE. destruct value as [v|]; [|reflexivity].
  cbn [option_map]. rewrite Resolver.is_true_Some.
  rewrite !LOWER_app, LOWER_percent. now apply like_contains.
Qed.

(** With a non-empty search term that has no wildcard or escape
    character, the list holds only candidates that mention the term,
    and the total is the number of stored candidates that do. *)
Theorem getCandidates_search (limit offset : nat) (term : jsstring)
  (db : DB) :
  term <> [] ->
  Forall (fun c => literal c = true) (LOWER term) ->
  (forall c, In c (fst (getCandidates LOWER limit offset (Some term) db)) ->
             In c (candidates db) /\ mentions term c = true)
  /\ snd (getCandidates LOWER limit offset (Some term) db)
     = length (filter (mentions term) (candidates db)).
Proof.
  intros Hne Hlit. unfold getCandidates.
  destruct term as [|t0 term']; [congruence|]. cbn [truthy fst snd].
  set (term := t0 :: term') in *.
  assert (forall l,
    select_where
      (fun c => fold_left (fun acc cond => sql_and acc (cond c))
         [fun c0 =>
            sql_or
              (sql_or
                 (ILIKE LOWER
                    (sql_concat (sql_concat (firstName c0) (Some (lit " ")))
                                (lastName c0))
                    (lit "%" ++ term ++ lit "%"))
                 (ILIKE LOWER (email c0) (lit "%" ++ term ++ lit "%")))
              (ILIKE LOWER (profession c0) (lit "%" ++ term ++ lit "%"))]
         (Some true)) l
    = filter (mentions term) l) as E.
  { intros l. unfold select_where. apply filter_ext. intros c.
    cbn [fold_left]. rewrite sql_and_true. cbn [is_true andb].
    rewrite !sql_or_true, !ILIKE_contains by exact Hlit.
    unfold mentions. f_equal. f_equal.
    destruct (firstName c) as [f|], (lastName c) as [l0|]; try reflexivity.
    cbn [sql_concat]. now rewrite <- app_assoc. }
  rewrite E. split; [|reflexivity].
  intros c Hc. apply firstn_incl, skipn_incl in Hc.
  apply orderByDesc_In in Hc. now apply filter_In in Hc.
Qed.

End WithLower.

Lemma firstn_then_firstn {A : Type} (n m : nat) (l : list A) :
  firstn n l ++ firstn m (skipn n l) = firstn (n + m) l.
Proof.
  revert l. induction n as [|n IH]; intros l; [reflexivity|].
  destruct l as [|x l]; cbn [firstn skipn Nat.add app].
  - now rewrite firstn_nil.
  - now rewrite IH.
Qed.

Lemma geb_key_antisym (a b : option Z) :
  geb_key a b = true -> geb_key b a = true -> a = b.
Proof.
  destruct a, b; simpl; try congruence.
  intros H1 H2. apply Z.leb_le in H1, H2. f_equal. lia.
Qed.

Lemma insertDesc_perm {Row : Type} (key : Row -> option Z) (r : Row)
  (rows : list Row) : Permutation (insertDesc key r rows) (r :: rows).
Proof.
  induction rows as [|x rows IH]; cbn [insertDesc]; [reflexivity|].
  destruct (geb_key (key r) (key x)); [reflexivity|].
  rewrite IH. apply perm_swap.
Qed.

Lemma orderByDesc_perm {Row : Type} (key : Row -> option Z)
  (rows : list Row) : Permutation (orderByDesc key rows) rows.
Proof.
  induction rows as [|r rows IH]; [reflexivity|].
  cbn [orderByDesc fold_right].
  change (fold_right (insertDesc key) [] rows) with (orderByDesc key rows).
  rewrite insertDesc_perm. now constructor.
Qed.

Lemma filter_perm {A : Type} (p : A -> bool) (l1 l2 : list A) :
  Permutation l1 l2 -> Permutation (filter p l1) (filter p l2).
Proof.
  induction 1 as [|x l1 l2 _ IH|x y l|l1 l2 l3 _ IH1 _ IH2];
    cbn [filter].
  - reflexivity.
  - destruct (p x); [now constructor | exact IH].
  - destruct (p x), (p y); try reflexivity. apply perm_swap.
  - now transitivity (filter p l2).
Qed.

(** Rows kept by a condition still have pairwise distinct keys. *)
Lemma distinct_keys_kept {Row : Type} (key : Row -> option Z)
  (keep : Row -> bool) (rows : list Row) :
  NoDup (map key rows) -> NoDup (map key (filter keep rows)).
Proof.
  intros Hnd. induction rows as [|r rows IH]; [constructor|].
  cbn [map] in Hnd. apply NoDup_cons_iff in Hnd. destruct Hnd as [Hr Hrows].
  cbn [filter]. destruct (keep r); [|now apply IH].
  cbn [map]. apply NoDup_cons; [|now apply IH].
  intros Hin. apply Hr. apply in_map_iff in Hin.
  destruct Hin as [other [Hkey Hkept]]. apply filter_In in Hkept.
  apply in_map_iff. exists other. tauto.
Qed.

(** Rows with pairwise distinct keys have one descending order. *)
Lemma descending_unique {Row : Type} (key : Row -> option Z)
  (l1 l2 : list Row) :
  descending key l1 -> descending key l2 ->
  Permutation l1 l2 -> NoDup (map key l1) -> l1 = l2.
Proof.
  unfold descending. intros H1. revert l2.
  induction H1 as [|a t1 Ht1 IH Ha]; intros l2 H2 Hp Hnd.
  - apply Permutation_nil in Hp. now subst.
  - destruct l2 as [|b t2];
      [apply Permutation_sym, Permutation_nil in Hp; discriminate|].
    inversion H2 as [|? ? Ht2 Hb]; subst.
    assert (a = b) as ->.
    { assert (In a (b :: t2)) as Hina
        by (apply (Permutation_in _ Hp); now left).
      assert (In b (a :: t1)) as Hinb
        by (apply (Permutation_in _ (Permutation_sym Hp)); now left).
      destruct Hina as [E|Hina]; [now subst|].
      destruct Hinb as [E|Hinb]; [now subst|].
      rewrite Forall_forall in Ha, Hb.
      apply (Inbound.NoDup_map_same key (a :: t1)); try assumption;
        [now left | now right|].
      apply geb_key_antisym; [now apply Ha | now apply Hb]. }
    f_equal. apply IH; [assumption | now apply Permutation_cons_inv in Hp|].
    cbn [map] in Hnd. now inversion Hnd.
Qed.

(** With pairwise distinct keys the sorted rows do not depend on the
    order in which the rows are scanned. *)
Lemma orderByDesc_scan_order {Row : Type} (key : Row -> option Z)
  (l1 l2 : list Row) :
  Permutation l1 l2 -> NoDup (map key l2) ->
  orderByDesc key l1 = orderByDesc key l2.
Proof.
  intros Hp Hnd. apply (@descending_unique _ key).
  - apply orderByDesc_descending.
  - apply orderByDesc_descending.
  - rewrite !orderByDesc_perm. exact Hp.
  - apply (Permutation_NoDup (l := map key l2)); [|exact Hnd].
    apply Permutation_map. rewrite orderByDesc_perm. now symmetry.
Qed.

(** When the stored candidates have pairwise distinct creation times, a
    page is fixed by the rows stored, whatever the order in which the
    database scans them; pages then follow one another without a gap or
    an overlap.  A page holds at most [limit] rows, never more than the
    total; the total does not depend on the page asked for; and a page
    is in descending order of creation time. *)
Theorem getCandidates_pages (LOWER : jsstring -> jsstring)
  (limit more offset : nat) (search : option jsstring) (db : DB) :
  NoDup (map createdAt (candidates db)) ->
  (forall scanned,
      Permutation (candidates scanned) (candidates db) ->
      getCandidates LOWER limit offset search scanned
      = getCandidates LOWER limit offset search db)
  /\ fst (getCandidates LOWER limit offset search db)
     ++ fst (getCandidates LOWER more (offset + limit) search db)
     = fst (getCandidates LOWER (limit + more) offset search db)
  /\ length (fst (getCandidates LOWER limit offset search db)) <= limit
  /\ length (fst (getCandidates LOWER limit offset search db))
     <= snd (getCandidates LOWER limit offset search db)
  /\ snd (getCandidates LOWER limit offset search db)
     = snd (getCandidates LOWER 0 0 search db)
  /\ descending createdAt (fst (getCandidates LOWER limit offset search db)).
Proof.
  intros Hnd. split.
  { intros scanned Hp. unfold getCandidates.
    match goal with |- context [select_where ?w (candidates db)] =>
      set (cond := w) end.
    unfold select_where.
    pose proof (filter_perm (fun r => is_true (cond r)) Hp) as Hf.
    f_equal.
    - f_equal. f_equal. apply orderByDesc_scan_order; [exact Hf|].
      now apply distinct_keys_kept.
    - now apply Permutation_length. }
  unfold getCandidates. cbn [fst snd].
  match goal with |- context [select_where ?w (candidates db)] =>
    set (hits := select_where w (candidates db)) end.
  split; [|split; [|split; [|split]]].
  - rewrite (Nat.add_comm offset limit), <- skipn_skipn.
    apply firstn_then_firstn.
  - apply firstn_le_length.
  - rewrite length_firstn, length_skipn, orderByDesc_length. lia.
  - reflexivity.
  - apply descending_firstn, descending_skipn, orderByDesc_descending.
Qed.

End ListingFacts.

Definition noa : Candidate :=
  {| id := lit "cand-2"; candidateNumber := Some 101%Z;
     firstName := Some (lit "Noa"); lastName := Some (lit "Bar");
     email := Some (lit "noa@x.org"); mobile := None;
     nationalId := None; city := None; profession := None;
     cvContent := None; cvPath := None; notes := None;
     recruitmentSource := None;
     createdAt := Some 7%Z; updatedAt := Some 7%Z |}.

Definition danaThenNoa : DB :=
  {| candidates := [Inbound.dana "first contact"; noa];
     candidateEvents := []; jobs := []; jobApplications := [] |}.

Definition noaThenDana : DB :=
  {| candidates := [noa; Inbound.dana "first contact"];
     candidateEvents := []; jobs := []; jobApplications := [] |}.

Lemma getCandidates_pages_witness :
  Inbound.getCandidates asciiLower 1 0 None noaThenDana
  = Inbound.getCandidates asciiLower 1 0 None danaThenNoa
  /\ fst (Inbound.getCandidates asciiLower 1 0 None danaThenNoa) = [noa].
Proof.
  split; [|reflexivity].
  apply (proj1 (@ListingFacts.getCandidates_pages asciiLower 1 1 0 None
                  danaThenNoa
                  ltac:(repeat constructor; simpl; intuition discriminate))).
  apply perm_swap.
Defined.

Lemma getCandidates_search_witness :
  snd (Inbound.getCandidates asciiLower 50 0 (Some (lit "DANA"))
         (Inbound.onlyDana "met at the fair"))
  = length (filter (ListingFacts.mentions asciiLower (lit "DANA"))
                   (candidates (Inbound.onlyDana "met at the fair"))).
Proof.
  apply (proj2 (@ListingFacts.getCandidates_search asciiLower
                  (fun a b => map_app _ a b) eq_refl 50 0 (lit "DANA")
                  (Inbound.onlyDana "met at the fair")
                  ltac:(discriminate) ltac:(repeat constructor))).
Defined.

(* ================================================================= *)
(** ** The inbound pipeline: what a message can change, and the same
       message arriving twice *)

Module InboundFacts.

Import Inbound.

Lemma like_self (p q t : jsstring) :
  Forall (fun c => (c =? 92)%N = false) p ->
  like q t = true -> like (p ++ q) (p ++ t) = true.
Proof.
  intros H Hq. induction H as [|c p Hc _ IH]; [exact Hq|].
  destruct (c =? 37)%N eqn:E37.
  - apply N.eqb_eq in E37. subst c. cbn [app].
    rewrite ListingFacts.like_percent. apply orb_true_iff. right.
    rewrite ListingFacts.like_percent. now rewrite IH.
  - cbn [app like]. rewrite E37, Hc.
    destruct (c =? 95)%N; [exact IH|]. now rewrite N.eqb_refl.
Qed.

Lemma filter_map_same {A : Type} (p : A -> bool) (f : A -> A) (l : list A) :
  (forall x, In x l -> p (f x) = p x) ->
  filter p (map f l) = map f (filter p l).
Proof.
  induction l as [|x l IH]; intros H; [reflexivity|]. cbn [map filter].
  rewrite (H x (or_introl eq_refl)).
  rewrite IH by (intros y Hy; apply H; now right).
  now destruct (p x).
Qed.

Lemma insertDesc_map {Row : Type} (key : Row -> option Z) (f : Row -> Row)
  (r : Row) (l : list Row) :
  (forall x, key (f x) = key x) ->
  insertDesc key (f r) (map f l) = map f (insertDesc key r l).
Proof.
  intros H. induction l as [|x l IH]; [reflexivity|]. cbn [map insertDesc].
  rewrite !H. destruct (geb_key (key r) (key x)); [reflexivity|].
  cbn [map]. now rewrite IH.
Qed.

Lemma orderByDesc_map {Row : Type} (key : Row -> option Z) (f : Row -> Row)
  (l : list Row) :
  (forall x, key (f x) = key x) ->
  orderByDesc key (map f l) = map f (orderByDesc key l).
Proof.
  intros H. induction l as [|x l IH]; [reflexivity|].
  cbn [map orderByDesc fold_right].
  change (fold_right (insertDesc key) [] (map f l))
    with (orderByDesc key (map f l)).
  rewrite IH. now apply insertDesc_map.
Qed.

Lemma find_map_same {A : Type} (p : A -> bool) (f : A -> A) (l : list A) :
  (forall x, p (f x) = p x) ->
  find p (map f l) = option_map f (find p l).
Proof.
  intros H. induction l as [|x l IH]; [reflexivity|]. cbn [map find].
  rewrite H. now destruct (p x).
Qed.

Section WithLower.

Variable LOWER : jsstring -> jsstring.
Hypothesis LOWER_app : forall a b, LOWER (a ++ b) = LOWER a ++ LOWER b.
Hypothesis LOWER_percent : LOWER (lit "%") = lit "%".

(** The condition of the candidate search for a term. *)
Definition searchHit (term : jsstring) (c : Candidate) : bool :=
  is_true
    (sql_or
       (sql_or
          (ILIKE LOWER
             (sql_concat (sql_concat (firstName c) (Some (lit " ")))
                         (lastName c))
             (lit "%" ++ term ++ lit "%"))
          (ILIKE LOWER (email c) (lit "%" ++ term ++ lit "%")))
       (ILIKE LOWER (profession c) (lit "%" ++ term ++ lit "%"))).

Lemma getCandidates_hits (limit offset : nat) (term : jsstring) (db : DB) :
  term <> [] ->
  getCandidates LOWER limit offset (Some term) db
  = (firstn limit
       (skipn offset
          (orderByDesc createdAt
             (filter (searchHit term) (candidates db)))),
     length (filter (searchHit term) (candidates db))).
Proof.
  intros Hne. unfold getCandidates.
  destruct term as [|t0 term']; [congruence|]. cbn [truthy].
  assert (forall l,
    select_where
      (fun c => fold_left (fun acc cond => sql_and acc (cond c))
         [fun c0 =>
            sql_or
              (sql_or
                 (ILIKE LOWER
                    (sql_concat (sql_concat (firstName c0) (Some (lit " ")))
                                (lastName c0))
                    (lit "%" ++ (t0 :: term') ++ lit "%"))
                 (ILIKE LOWER (email c0)
                    (lit "%" ++ (t0 :: term') ++ lit "%")))
              (ILIKE LOWER (profession c0)
                 (lit "%" ++ (t0 :: term') ++ lit "%"))]
         (Some true)) l
    = filter (searchHit (t0 :: term')) l) as E.
  { intros l. unfold select_where. apply filter_ext. intros c.
    cbn [fold_left]. now rewrite sql_and_true. }
  now rewrite E.
Qed.

(** A stored address that has no backslash matches its own pattern. *)
Lemma searchHit_own_email (e : jsstring) (c : Candidate) :
  Forall (fun x => (x =? 92)%N = false) (LOWER e) ->
  email c = Some e -> searchHit e c = true.
Proof.
  intros Hb He. unfold searchHit. rewrite !sql_or_true. rewrite He.
  assert (is_true (ILIKE LOWER (Some e) (lit "%" ++ e ++ lit "%")) = true)
    as ->; [|now rewrite orb_true_r].
  unfold ILIKE. cbn [option_map]. rewrite Resolver.is_true_Some.
  rewrite !LOWER_app, LOWER_percent.
  change (lit "%" ++ LOWER e ++ lit "%") with (37%N :: (LOWER e ++ [37%N])).
  rewrite ListingFacts.like_percent. apply orb_true_iff. left.
  rewrite <- (app_nil_r (LOWER e)) at 2. now apply like_self.
Qed.

Definition hits (term : jsstring) (db : DB) : list Candidate :=
  filter (searchHit term) (candidates db).

Lemma sameEmail_email (data : ParsedCandidate) (e : jsstring)
  (c : Candidate) :
  pc_email data = Some e -> (sameEmail data c = true <-> email c = Some e).
Proof.
  intros He. unfold sameEmail. rewrite He.
  destruct (email c) as [a|]; [|split; discriminate].
  rewrite str_eqb_eq. split; congruence.
Qed.

Lemma matched_candidates (data : ParsedCandidate) (db db' : DB) :
  candidates db' = candidates db ->
  matched LOWER data db' = matched LOWER data db.
Proof.
  intros E. unfold matched, getCandidates. now rewrite E.
Qed.

Lemma resolveCandidate_matched (d : Defaults) (data : ParsedCandidate)
  (db : DB) (x : Candidate) :
  matched LOWER data db = Some x ->
  resolveCandidate LOWER d data db
  = Some (id x, snd (updateCandidate d (id x) (mergePatch data x) db)).
Proof.
  intros H. pose proof (matched_some _ _ _ H) as [_ [_ Hex]].
  unfold resolveCandidate. rewrite Hex.
  unfold matched in H. now rewrite H.
Qed.

Lemma resolveCandidate_unmatched (d : Defaults) (data : ParsedCandidate)
  (db : DB) :
  matched LOWER data db = None ->
  resolveCandidate LOWER d data db
  = if insertAccepted (newProfile data) db
    then Some (newId d,
               snd (Numbering.createCandidate d (newProfile data) db))
    else None.
Proof.
  intros H. apply matched_none in H.
  unfold resolveCandidate, createCandidateOrThrow. rewrite H.
  now destruct (insertAccepted (newProfile data) db).
Qed.

Lemma resolveCandidate_other_tables (d : Defaults) (data : ParsedCandidate)
  (db : DB) (candidateId : jsstring) (db1 : DB) :
  resolveCandidate LOWER d data db = Some (candidateId, db1) ->
  jobs db1 = jobs db /\ jobApplications db1 = jobApplications db
  /\ candidateEvents db1 = candidateEvents db.
Proof.
  destruct (matched LOWER data db) as [x|] eqn:E.
  - rewrite (resolveCandidate_matched d _ _ E).
    intros H. inversion H; subst. now cbn.
  - rewrite (resolveCandidate_unmatched d _ _ E).
    destruct (insertAccepted (newProfile data) db); [|discriminate].
    intros H. inversion H; subst. now cbn.
Qed.

Lemma createJobApplication_other_tables (d : Defaults)
  (application : InsertJobApplication) (db : DB) :
  let db1 := snd (Applications.createJobApplication d application db) in
  jobs db1 = jobs db /\ candidateEvents db1 = candidateEvents db.
Proof.
  unfold Applications.createJobApplication.
  destruct (Applications.existingFor application db) as [|e0 rest];
    [now cbn|].
  now destruct (Applications.statusIs application (lit "interview_scheduled")).
Qed.

Lemma linkJob_other_tables (d : Defaults) (data : ParsedCandidate)
  (candidateId : jsstring) (db : DB) :
  let db1 := linkJob d data candidateId db in
  jobs db1 = jobs db /\ candidateEvents db1 = candidateEvents db.
Proof.
  unfold linkJob. destruct (pc_jobCode data) as [jobCode|]; [|now split].
  destruct (truthy jobCode); [|now split].
  match goal with |- context [find ?f ?l] => destruct (find f l) end;
    [apply createJobApplication_other_tables | now split].
Qed.

(** A request with the status ['submitted'] made on a store that
    already went through the same request changes nothing. *)
Lemma createJobApplication_settled (d d' : Defaults)
  (application : InsertJobApplication) (db db' : DB)
  (candidateId jobId : jsstring) :
  ins_app_candidateId application = Some candidateId ->
  ins_app_jobId application = Some jobId ->
  Applications.statusIs application (lit "interview_scheduled") = false ->
  jobApplications db'
  = jobApplications (snd (Applications.createJobApplication d application db)) ->
  snd (Applications.createJobApplication d' application db') = db'.
Proof.
  intros Hc Hj Hst Happs.
  assert (Applications.alreadyApplied application db') as Hdone.
  { unfold Applications.alreadyApplied. rewrite Happs.
    unfold Applications.createJobApplication.
    destruct (Applications.existingFor application db) as [|e0 rest] eqn:E.
    - cbn [snd Applications.insertJobApplication jobApplications
           Applications.setJobApplications].
      eexists. split; [apply in_or_app; right; now left|].
      unfold Applications.samePair. cbn [app_candidateId app_jobId].
      rewrite Hc, Hj. cbn [sql_eq]. now rewrite !str_eqb_refl.
    - rewrite Hst. cbn [snd]. exists e0.
      assert (In e0 (Applications.existingFor application db)) as Hin
        by (rewrite E; now left).
      unfold Applications.existingFor, select_where in Hin.
      now apply filter_In in Hin. }
  apply Applications.existingFor_first in Hdone.
  destruct Hdone as [e0 [rest [E _]]].
  unfold Applications.createJobApplication. now rewrite E, Hst.
Qed.

Lemma linkJob_settled (d d' : Defaults) (data : ParsedCandidate)
  (candidateId : jsstring) (db db' : DB) :
  jobs db' = jobs db ->
  jobApplications db' = jobApplications (linkJob d data candidateId db) ->
  linkJob d' data candidateId db' = db'.
Proof.
  intros Hjobs. unfold linkJob.
  destruct (pc_jobCode data) as [jobCode|]; [|reflexivity].
  destruct (truthy jobCode); [|reflexivity].
  unfold getJobs. rewrite Hjobs.
  match goal with |- context [find ?f ?l] => destruct (find f l) as [job|] end;
    [|reflexivity].
  intros Happs.
  now apply (@createJobApplication_settled d d' _ db db' candidateId
               (job_id job)).
Qed.

Lemma applyPatch_mergePatch_email (t : Z) (data : ParsedCandidate)
  (x c : Candidate) : email (applyPatch t (mergePatch data x) c) = email c.
Proof. reflexivity. Qed.

(** The first run succeeds, and the second message finds the candidate
    of the first. *)
Lemma resolveCandidate_found_again (d : Defaults) (data : ParsedCandidate)
  (db : DB) (e : jsstring) :
  NoDup (map id (candidates db)) ->
  pc_email data = Some e -> e <> [] ->
  Forall (fun x => (x =? 92)%N = false) (LOWER e) ->
  length (hits e db) < 100 ->
  exists candidateId dbr,
    resolveCandidate LOWER d data db = Some (candidateId, dbr)
    /\ forall db', candidates db' = candidates dbr ->
         exists x, matched LOWER data db' = Some x /\ id x = candidateId.
Proof.
  intros Hnd He Hne Hb Hlen.
  destruct (matched LOWER data db) as [existing|] eqn:Em.
  - (* the first message updated [existing] *)
    rewrite (resolveCandidate_matched d _ _ Em).
    eexists _, _. split; [reflexivity|]. intros db' Hdb'.
    rewrite (matched_candidates data _ _ Hdb'). clear db' Hdb'.
    pose proof (matched_some _ _ _ Em) as [Hin [Hse _]].
    apply (@sameEmail_email data e existing He) in Hse.
    set (upd := fun c => if str_eqb (id c) (id existing)
                         then applyPatch (now d) (mergePatch data existing) c
                         else c).
    assert (forall c, email (upd c) = email c) as Hemail.
    { intros c. unfold upd. now destruct (str_eqb (id c) (id existing)). }
    assert (forall c, createdAt (upd c) = createdAt c) as Hkey.
    { intros c. unfold upd. now destruct (str_eqb (id c) (id existing)). }
    assert (forall c, In c (candidates db) ->
                      searchHit e (upd c) = searchHit e c) as Hhit.
    { intros c Hc. unfold upd.
      destruct (str_eqb (id c) (id existing)) eqn:K; [|reflexivity].
      apply str_eqb_eq in K.
      assert (c = existing) as -> by
        (apply (NoDup_map_same id (candidates db)); assumption).
      rewrite !searchHit_own_email; try assumption; reflexivity. }
    exists (upd existing). split.
    + unfold matched in *. rewrite He in *.
      rewrite getCandidates_hits in * by assumption. cbn [fst skipn] in *.
      cbn [snd updateCandidate Numbering.setCandidates candidates].
      fold upd. rewrite (filter_map_same _ _ _ Hhit).
      rewrite (orderByDesc_map _ _ _ Hkey), firstn_map.
      rewrite find_map_same.
      * now rewrite Em.
      * intros c. unfold sameEmail. now rewrite Hemail.
    + unfold upd. now destruct (str_eqb (id existing) (id existing)).
  - (* the first message created the profile *)
    set (new := fst (Numbering.createCandidate d (newProfile data) db)).
    assert (candidates (snd (Numbering.createCandidate d (newProfile data) db))
            = candidates db ++ [new]) as Hc by reflexivity.
    assert (email new = Some e) as Hnew by exact He.
    assert (forall c, In c (candidates db) -> email c <> Some e) as Hnone.
    { intros c Hc' Hce. unfold matched in Em. rewrite He in Em.
      rewrite getCandidates_hits in Em by assumption. cbn [fst skipn] in Em.
      rewrite firstn_all2 in Em
        by (rewrite orderByDesc_length; fold (hits e db); lia).
      assert (sameEmail data c = false) as Hf.
      { apply (find_none _ _ Em c).
        apply orderByDesc_In. apply filter_In. split; [exact Hc'|].
        now apply searchHit_own_email. }
      rewrite (proj2 (@sameEmail_email data e c He) Hce) in Hf.
      discriminate. }
    assert (insertAccepted (newProfile data) db = true) as Hacc.
    { rewrite insertAccepted_newProfile, He.
      destruct (emailStored e db) eqn:E; [|reflexivity].
      apply emailStored_iff in E. destruct E as [c [Hc' Hce]].
      now apply Hnone in Hc'. }
    rewrite (resolveCandidate_unmatched d _ _ Em), Hacc.
    eexists _, _. split; [reflexivity|]. intros db' Hdb'.
    rewrite (matched_candidates data _ _ Hdb'). clear db' Hdb'.
    assert (exists x, matched LOWER data
              (snd (Numbering.createCandidate d (newProfile data) db))
            = Some x) as [x Hx].
    { destruct (matched LOWER data
                  (snd (Numbering.createCandidate d (newProfile data) db)))
        as [x|] eqn:E; [eauto|].
      exfalso. unfold matched in E. rewrite He in E.
      rewrite getCandidates_hits in E by assumption.
      rewrite Hc, filter_app in E. cbn [fst skipn] in E.
      cbn [filter] in E.
      rewrite (@searchHit_own_email e new Hb Hnew) in E.
      rewrite firstn_all2 in E.
      2:{ rewrite orderByDesc_length, length_app. cbn [length].
          fold (hits e db). lia. }
      pose proof (find_none _ _ E new) as Hf.
      rewrite (proj2 (@sameEmail_email data e new He) Hnew) in Hf.
      assert (false = true); [|discriminate]. symmetry. apply Hf.
      apply orderByDesc_In. apply in_or_app. right. now left. }
    exists x. split; [exact Hx|].
    apply matched_some in Hx. destruct Hx as [Hin [Hse _]].
    apply (@sameEmail_email data e x He) in Hse. rewrite Hc in Hin.
    apply in_app_or in Hin. destruct Hin as [Hin|[<-|[]]].
    + now apply Hnone in Hin.
    + reflexivity.
Qed.

(** Where the first run of a message leaves the store, a second run of
    the same message is one update of the candidate it finds. *)
Lemma createCandidateFromEmail_settled (d1 d2 d3 d4 : Defaults)
  (data : ParsedCandidate) (db : DB) (e : jsstring) :
  NoDup (map id (candidates db)) ->
  pc_email data = Some e -> e <> [] ->
  Forall (fun x => (x =? 92)%N = false) (LOWER e) ->
  length (hits e db) < 100 ->
  let db1 := createCandidateFromEmail LOWER d1 d2 data db in
  exists x,
    matched LOWER data db1 = Some x
    /\ createCandidateFromEmail LOWER d3 d4 data db1
       = snd (updateCandidate d3 (id x) (mergePatch data x) db1).
Proof.
  intros Hnd He Hne Hb Hlen db1.
  destruct (@resolveCandidate_found_again d1 data db e Hnd He Hne Hb Hlen)
    as [cid [dbr [Hr Hagain]]].
  assert (db1 = linkJob d2 data cid dbr) as Hdb1
    by (unfold db1, createCandidateFromEmail; now rewrite Hr).
  destruct (Hagain db1) as [x [Hx Hid]].
  { rewrite Hdb1. apply linkJob_candidates. }
  exists x. split; [exact Hx|].
  unfold createCandidateFromEmail at 1.
  rewrite (resolveCandidate_matched d3 _ _ Hx).
  apply (@linkJob_settled d2 d4 data (id x) dbr).
  - cbn [snd updateCandidate Numbering.setCandidates jobs].
    rewrite Hdb1. apply linkJob_other_tables.
  - cbn [snd updateCandidate Numbering.setCandidates jobApplications].
    now rewrite Hid, Hdb1.
Qed.

(** The same message processed twice: the second run creates no further
    profile and no further application.  It finds the candidate of the
    first run, whether that run created or updated it, and the link to
    the job is refused as a duplicate. *)
Theorem createCandidateFromEmail_twice (d1 d2 d3 d4 : Defaults)
  (data : ParsedCandidate) (db : DB) (e : jsstring) :
  NoDup (map id (candidates db)) ->
  pc_email data = Some e -> e <> [] ->
  Forall (fun x => (x =? 92)%N = false) (LOWER e) ->
  length (hits e db) < 100 ->
  let db1 := createCandidateFromEmail LOWER d1 d2 data db in
  let db2 := createCandidateFromEmail LOWER d3 d4 data db1 in
  map id (candidates db2) = map id (candidates db1)
  /\ jobApplications db2 = jobApplications db1
  /\ jobs db2 = jobs db1
  /\ candidateEvents db2 = candidateEvents db1.
Proof.
  intros Hnd He Hne Hb Hlen db1 db2.
  destruct (@createCandidateFromEmail_settled d1 d2 d3 d4 data db e
              Hnd He Hne Hb Hlen) as [x [_ E2]].
  fold db1 in E2. unfold db2. rewrite E2.
  cbn [snd updateCandidate Numbering.setCandidates candidates
       jobApplications jobs candidateEvents].
  split; [|now repeat split].
  rewrite map_map. apply map_ext. intros c.
  now destruct (str_eqb (id c) (id x)).
Qed.

(** The columns of a candidate that a message never rewrites. *)
Definition fixedColumns (c : Candidate)
  : jsstring * option Z * option jsstring * option jsstring * option Z :=
  (id c, candidateNumber c, email c, nationalId c, createdAt c).

Lemma linkJob_appends (d : Defaults) (data : ParsedCandidate)
  (candidateId : jsstring) (db : DB) :
  exists added, length added <= 1
    /\ jobApplications (linkJob d data candidateId db)
       = jobApplications db ++ added.
Proof.
  assert (exists added : list JobApplication,
            length added <= 1
            /\ jobApplications db = jobApplications db ++ added) as Hsame
    by (exists []; split; [cbn; lia | now rewrite app_nil_r]).
  unfold linkJob. destruct (pc_jobCode data) as [jobCode|]; [|exact Hsame].
  destruct (truthy jobCode); [|exact Hsame].
  match goal with |- context [find ?f ?l] => destruct (find f l) as [job|] end;
    [|exact Hsame].
  unfold Applications.createJobApplication.
  match goal with
  | |- context [Applications.existingFor ?a db] =>
    destruct (Applications.existingFor a db) as [|e0 rest]
  end.
  - eexists [_]. split; [cbn; lia | reflexivity].
  - exact Hsame.
Qed.

(** What processing a message leaves alone: the jobs and the candidate
    events; every stored application, at most one being added after
    them; and every stored candidate's id, number, e-mail, national id
    and creation time, at most one candidate being added after them. *)
Theorem createCandidateFromEmail_keeps (d1 d2 : Defaults)
  (data : ParsedCandidate) (db : DB) :
  let db1 := createCandidateFromEmail LOWER d1 d2 data db in
  jobs db1 = jobs db
  /\ candidateEvents db1 = candidateEvents db
  /\ (exists added, length added <= 1
        /\ jobApplications db1 = jobApplications db ++ added)
  /\ (exists created, length created <= 1
        /\ map fixedColumns (candidates db1)
           = map fixedColumns (candidates db ++ created)).
Proof.
  intros db1. unfold db1, createCandidateFromEmail.
  destruct (resolveCandidate LOWER d1 data db) as [[cid dbr]|] eqn:Er.
  2:{ split; [reflexivity|]. split; [reflexivity|].
      split; exists []; (split; [cbn; lia | now rewrite app_nil_r]). }
  pose proof (@resolveCandidate_other_tables d1 data db cid dbr Er)
    as [Hj [Ha He]].
  pose proof (linkJob_other_tables d2 data cid dbr) as [Hj2 He2].
  split; [congruence|]. split; [congruence|]. split.
  { rewrite <- Ha. apply linkJob_appends. }
  rewrite linkJob_candidates.
  destruct (matched LOWER data db) as [x|] eqn:Em.
  - rewrite (resolveCandidate_matched d1 _ _ Em) in Er.
    inversion Er; subst. exists []. split; [cbn; lia|].
    rewrite app_nil_r.
    cbn [snd updateCandidate Numbering.setCandidates candidates].
    rewrite map_map. apply map_ext. intros c.
    now destruct (str_eqb (id c) (id x)).
  - rewrite (resolveCandidate_unmatched d1 _ _ Em) in Er.
    destruct (insertAccepted (newProfile data) db); [|discriminate].
    inversion Er; subst.
    exists [fst (Numbering.createCandidate d1 (newProfile data) db)].
    split; [cbn; lia | reflexivity].
Qed.

End WithLower.

End InboundFacts.

Definition linkedMessage : Inbound.ParsedCandidate :=
  {| Inbound.pc_firstName := Some (lit "Noa");
     Inbound.pc_lastName := None;
     Inbound.pc_email := Some (lit "noa@x.org");
     Inbound.pc_phone := None;
     Inbound.pc_jobCode := Some (lit "J-7");
     Inbound.pc_originalSubject := Some (lit "Job ID: J-7");
     Inbound.pc_originalBody := Some (lit "hello") |}.

Definition danaAndJob : DB :=
  {| candidates := [Inbound.dana "first contact"];
     candidateEvents := [];
     jobs := [ {| job_id := lit "job-1"; job_title := lit "Electrician J-7";
                  job_description := None; job_location := None;
                  job_createdAt := Some 3%Z |} ];
     jobApplications := [] |}.

Lemma createCandidateFromEmail_twice_witness :
  let db1 := Inbound.createCandidateFromEmail asciiLower Inbound.t1 Inbound.t2
               linkedMessage danaAndJob in
  let db2 := Inbound.createCandidateFromEmail asciiLower
               {| newId := lit "cand-3"; now := 12%Z |}
               {| newId := lit "app-10"; now := 12%Z |} linkedMessage db1 in
  (map id (candidates db1) = [lit "cand-1"; lit "cand-2"]
   /\ map app_candidateId (jobApplications db1) = [Some (lit "cand-2")])
  /\ map id (candidates db2) = map id (candidates db1)
  /\ jobApplications db2 = jobApplications db1
  /\ jobs db2 = jobs db1
  /\ candidateEvents db2 = candidateEvents db1.
Proof.
  split; [split; reflexivity|].
  apply (@InboundFacts.createCandidateFromEmail_twice asciiLower
           (fun a b => map_app _ a b) eq_refl
           Inbound.t1 Inbound.t2
           {| newId := lit "cand-3"; now := 12%Z |}
           {| newId := lit "app-10"; now := 12%Z |}
           linkedMessage danaAndJob (lit "noa@x.org")).
  - repeat constructor. simpl. tauto.
  - reflexivity.
  - discriminate.
  - repeat constructor.
  - vm_compute. lia.
Defined.

Lemma normalizePhone_no_separator_witness :
  In 53%N (Phone.normalizePhone (lit "+972 (50) 123-4567"))
  /\ Phone.isSeparator 53%N = false.
Proof.
  assert (In 53%N (Phone.normalizePhone (lit "+972 (50) 123-4567"))) as H
    by (vm_compute; tauto).
  split; [exact H|].
  exact (@PhoneFacts.normalizePhone_no_separator
           (lit "+972 (50) 123-4567") 53%N H).
Defined.

(* ================================================================= *)
(** ** What the matcher finds is in the language of the pattern *)

Module RegexFacts.

Import Regex.

(** Zero or more rounds of a step. *)
Inductive iter (R : State -> State -> Prop) : State -> State -> Prop :=
| iter_stop (st : State) : iter R st st
| iter_more (st st1 st2 : State) :
    R st st1 -> iter R st1 st2 -> iter R st st2.

(** The positions a pattern can lead to from a position. *)
Fixpoint den (r : regex) (st st' : State) : Prop :=
  match r with
  | Eps => st' = st
  | Chr cls =>
    exists c, rest st = c :: rest st' /\ cls c = true
              /\ prev st' = Some c /\ caps st' = caps st
  | Seq a b => exists mid, den a st mid /\ den b mid st'
  | Alt a b => den a st st' \/ den b st st'
  | Star a => iter (den a) st st'
  | Group n a =>
    exists mid, den a st mid
                /\ st' = {| prev := prev mid; rest := rest mid;
                            caps := (n, consumed st mid) :: caps mid |}
  | WordBoundary => st' = st /\ xorb (wordBefore st) (wordAhead st) = true
  end.

(** The texts a pattern matches. *)
Fixpoint txt (r : regex) (w : jsstring) : Prop :=
  match r with
  | Eps | WordBoundary => w = []
  | Chr cls => exists c, w = [c] /\ cls c = true
  | Seq a b => exists u v, w = u ++ v /\ txt a u /\ txt b v
  | Alt a b => txt a w \/ txt b w
  | Star a => exists ws, w = concat ws /\ Forall (txt a) ws
  | Group _ a => txt a w
  end.

(** The texts a pattern can leave in group [n]. *)
Fixpoint captxt (r : regex) (n : nat) (v : jsstring) : Prop :=
  match r with
  | Seq a b | Alt a b => captxt a n v \/ captxt b n v
  | Star a => captxt a n v
  | Group m a => (m = n /\ txt a v) \/ captxt a n v
  | Eps | Chr _ | WordBoundary => False
  end.

Lemma starLoop_sound
  (step : State -> (State -> option State) -> option State)
  (R : State -> State -> Prop)
  (Hstep : forall st k res, step st k = Some res ->
             exists st', R st st' /\ k st' = Some res)
  (k : State -> option State) (fuel : nat) (st : State) (res : State) :
  starLoop step k fuel st = Some res ->
  exists st', iter R st st' /\ k st' = Some res.
Proof.
  revert st. induction fuel as [|fuel IH]; intros st H; simpl in H.
  - exists st. split; [constructor | exact H].
  - destruct (step st _) as [found|] eqn:E.
    + inversion H; subst found. apply Hstep in E.
      destruct E as [st1 [HR E]].
      destruct (length (rest st1) <? length (rest st)); [|discriminate].
      apply IH in E. destruct E as [st' [Hi Hk]].
      exists st'. split; [econstructor; eauto | exact Hk].
    + exists st. split; [constructor | exact H].
Qed.

Lemma run_sound (r : regex) :
  forall st k res, run r st k = Some res ->
    exists st', den r st st' /\ k st' = Some res.
Proof.
  induction r as [|cls|a IHa b IHb|a IHa b IHb|a IHa|m a IHa|];
    intros st k res H; cbn [run] in H; cbn [den].
  - eauto.
  - destruct (rest st) as [|c t] eqn:E; [discriminate|].
    destruct (cls c) eqn:Ec; [|discriminate].
    eexists. split; [|exact H]. exists c. cbn. auto.
  - apply IHa in H. destruct H as [st1 [H1 H]].
    apply IHb in H. destruct H as [st2 [H2 H]]. eauto.
  - destruct (run a st k) as [found|] eqn:E.
    + inversion H; subst found. apply IHa in E.
      destruct E as [st' [E Hk]]. eauto.
    + apply IHb in H. destruct H as [st' [E' Hk]]. eauto.
  - now apply starLoop_sound with (R := den a) in H.
  - apply IHa in H. destruct H as [st1 [H1 H]]. eauto.
  - destruct (xorb (wordBefore st) (wordAhead st)) eqn:E; [|discriminate].
    eauto.
Qed.

Lemma den_txt (r : regex) :
  forall st st', den r st st' -> exists w, rest st = w ++ rest st' /\ txt r w.
Proof.
  induction r as [|cls|a IHa b IHb|a IHa b IHb|a IHa|m a IHa|];
    intros st st' H; cbn [den] in H; cbn [txt].
  - subst. now exists [].
  - destruct H as [c [Hr [Hc _]]]. exists [c]. split; [exact Hr | eauto].
  - destruct H as [mid [Ha Hb]].
    apply IHa in Ha. destruct Ha as [u [Eu Hu]].
    apply IHb in Hb. destruct Hb as [v [Ev Hv]].
    exists (u ++ v). split; [now rewrite Eu, Ev, app_assoc | eauto].
  - destruct H as [H|H]; [apply IHa in H | apply IHb in H];
      destruct H as [w [E Hw]]; eauto.
  - induction H as [st|st st1 st2 H1 _ IH].
    + exists []. split; [reflexivity|]. now exists [].
    + apply IHa in H1. destruct H1 as [u [Eu Hu]].
      destruct IH as [w [Ew [ws [-> Hws]]]].
      exists (u ++ concat ws). split; [now rewrite Eu, Ew, app_assoc|].
      exists (u :: ws). split; [reflexivity | now constructor].
  - destruct H as [mid [Ha ->]]. now apply IHa in Ha.
  - destruct H as [-> _]. now exists [].
Qed.

Lemma consumed_app (st st' : State) (w : jsstring) :
  rest st = w ++ rest st' -> consumed st st' = w.
Proof.
  intros E. unfold consumed. rewrite E, length_app.
  replace (length w + length (rest st') - length (rest st'))
    with (length w) by lia.
  rewrite firstn_app, firstn_all, Nat.sub_diag. cbn. apply app_nil_r.
Qed.

Lemma den_consumed (r : regex) (st st' : State) :
  den r st st' -> txt r (consumed st st').
Proof.
  intros H. apply den_txt in H. destruct H as [w [E Hw]].
  now rewrite (@consumed_app st st' w E).
Qed.

Lemma den_captxt (r : regex) (n : nat) (v : jsstring) :
  forall st st', den r st st' ->
    lookup n (caps st') = Some v ->
    lookup n (caps st) = Some v \/ captxt r n v.
Proof.
  induction r as [|cls|a IHa b IHb|a IHa b IHb|a IHa|m a IHa|];
    intros st st' H L; cbn [den] in H; cbn [captxt].
  - subst. auto.
  - destruct H as [c [_ [_ [_ Hc]]]]. rewrite Hc in L. auto.
  - destruct H as [mid [Ha Hb]].
    destruct (IHb mid st' Hb L) as [L'|C]; [|auto].
    destruct (IHa st mid Ha L'); auto.
  - destruct H as [H|H]; [destruct (IHa st st' H L) | destruct (IHb st st' H L)];
      auto.
  - induction H as [st|st st1 st2 H1 _ IH]; [auto|].
    destruct (IH L) as [L'|C]; [|auto]. exact (IHa st st1 H1 L').
  - destruct H as [mid [Ha ->]]. cbn [caps lookup] in L.
    destruct (m =? n) eqn:E.
    + apply Nat.eqb_eq in E. inversion L; subst. right. left.
      split; [reflexivity | now apply den_consumed].
    + destruct (IHa st mid Ha L); auto.
  - destruct H as [-> _]. auto.
Qed.

Lemma searchFrom_sound (r : regex) (s : jsstring) (before : option N)
  (start stop : State) :
  searchFrom r before s = Some (start, stop) ->
  den r start stop /\ caps start = [].
Proof.
  revert before. induction s as [|c t IH]; intros before H; simpl in H.
  - destruct (run r _ _) as [found|] eqn:E; [|discriminate].
    inversion H; subst. apply run_sound in E.
    destruct E as [st' [E K]]. inversion K; subst. auto.
  - destruct (run r _ _) as [found|] eqn:E.
    + inversion H; subst. apply run_sound in E.
      destruct E as [st' [E K]]. inversion K; subst. auto.
    + eapply IH; eauto.
Qed.

(** Every match of a global search is a text of the pattern. *)
Lemma matchAll_txt (r : regex) (s : jsstring) (found : list jsstring) :
  matchAll r s = Some found -> Forall (txt r) found.
Proof.
  unfold matchAll.
  assert (forall fuel before t, Forall (txt r) (matchesFrom fuel r before t))
    as H.
  { induction fuel as [|fuel IH]; intros before t; cbn [matchesFrom];
      [constructor|].
    destruct (searchFrom r before t) as [[start stop]|] eqn:E;
      [|constructor].
    apply searchFrom_sound in E. destruct E as [E _].
    constructor; [now apply den_consumed|].
    destruct (consumed start stop); [|apply IH].
    destruct (rest stop); [constructor | apply IH]. }
  specialize (H (S (length s)) None s).
  destruct (matchesFrom _ r None s) as [|v l]; [discriminate|].
  intros E. inversion E; subst. exact H.
Qed.

(** A group read from the array of a match holds a text that the
    pattern can leave in it; the match itself, a text of the pattern. *)
Lemma matchOnce_captxt (r : regex) (groups : nat) (s : jsstring)
  (found : list (option jsstring)) (n : nat) (v : jsstring) :
  matchOnce r groups s = Some found ->
  nth_error found (S n) = Some (Some v) -> captxt r (S n) v.
Proof.
  unfold matchOnce. intros H Hv.
  destruct (searchFrom r None s) as [[start stop]|] eqn:E; [|discriminate].
  inversion H; subst found. cbn [nth_error] in Hv.
  rewrite nth_error_map in Hv.
  destruct (nth_error (seq 1 groups) n) as [m|] eqn:En; [|discriminate].
  cbn in Hv. inversion Hv as [L].
  assert (m = S n) as ->.
  { assert (n < groups) as Hlt.
    { rewrite <- (length_seq groups 1). apply nth_error_Some. congruence. }
    rewrite nth_error_seq in En.
    replace (n <? groups) with true in En
      by (symmetry; now apply Nat.ltb_lt).
    now inversion En. }
  apply searchFrom_sound in E. destruct E as [E C].
  destruct (@den_captxt r (S n) v start stop E L) as [L'|]; [|assumption].
  rewrite C in L'. discriminate.
Qed.

(** Texts of the building blocks of the patterns. *)
Lemma txt_Lit (s w : jsstring) : txt (Lit s) w -> w = s.
Proof.
  revert w. induction s as [|c t IH]; intros w H; cbn in H; [exact H|].
  destruct H as [u [v [-> [[x [-> Hx]] Hv]]]].
  apply N.eqb_eq in Hx. subst x. cbn. f_equal. auto.
Qed.

Lemma txt_Rep (n : nat) (cls : N -> bool) (w : jsstring) :
  txt (Rep n (Chr cls)) w -> length w = n /\ forallb cls w = true.
Proof.
  revert w. induction n as [|n IH]; intros w H; cbn in H.
  - subst. auto.
  - destruct H as [u [v [-> [[x [-> Hx]] Hv]]]].
    apply IH in Hv. destruct Hv as [Hl Hf]. cbn. rewrite Hx, Hf, Hl. auto.
Qed.

Lemma txt_Star (cls : N -> bool) (w : jsstring) :
  txt (Star (Chr cls)) w -> forallb cls w = true.
Proof.
  cbn. intros [ws [-> H]]. induction H as [|u ws [c [-> Hc]] _ IH];
    [reflexivity|].
  cbn. now rewrite Hc.
Qed.

Lemma txt_Plus (cls : N -> bool) (w : jsstring) :
  txt (Plus (Chr cls)) w -> w <> [] /\ forallb cls w = true.
Proof.
  unfold Plus. cbn [txt]. intros [u [v [-> [[c [-> Hc]] Hv]]]].
  apply txt_Star in Hv. cbn. rewrite Hc, Hv. split; [discriminate | auto].
Qed.

Lemma txt_UpTo (extra : nat) (cls : N -> bool) (w : jsstring) :
  txt (UpTo extra (Chr cls)) w ->
  length w <= extra /\ forallb cls w = true.
Proof.
  revert w. induction extra as [|e IH]; intros w H; cbn in H.
  - subst. auto.
  - destruct H as [[u [v [-> [[x [-> Hx]] Hv]]]]| ->]; [|cbn; split; [lia|auto]].
    apply IH in Hv. destruct Hv as [Hl Hf]. cbn. rewrite Hx, Hf.
    split; [lia | auto].
Qed.

Lemma txt_Opt (a : regex) (w : jsstring) :
  txt (Opt a) w -> txt a w \/ w = [].
Proof. cbn. auto. Qed.

End RegexFacts.

(* ================================================================= *)
(** ** The shape of the extracted fields *)

Module ExtractFacts.

Import Regex RegexFacts Extract.

(** The bodies of the groups numbered [n] in a pattern. *)
Fixpoint groupBodies (r : regex) (n : nat) : list regex :=
  match r with
  | Seq a b | Alt a b => groupBodies a n ++ groupBodies b n
  | Star a => groupBodies a n
  | Group m a => (if m =? n then [a] else []) ++ groupBodies a n
  | Eps | Chr _ | WordBoundary => []
  end.

Lemma captxt_groupBodies (r : regex) (n : nat) (v : jsstring) :
  captxt r n v -> Exists (fun a => txt a v) (groupBodies r n).
Proof.
  induction r as [|cls|a IHa b IHb|a IHa b IHb|a IHa|m a IHa|];
    cbn [captxt groupBodies]; intros H; try contradiction.
  - apply Exists_app. tauto.
  - apply Exists_app. tauto.
  - auto.
  - apply Exists_app. destruct H as [[-> H]|H]; [left | right; auto].
    rewrite Nat.eqb_refl. now left.
Qed.

(** A group read from a match of a pattern with one group numbered [n]. *)
Lemma at_txt (r body : regex) (groups : nat) (s : jsstring)
  (found : list (option jsstring)) (n : nat) (v : jsstring) :
  matchOnce r groups s = Some found ->
  groupBodies r (S n) = [body] ->
  at_ found (S n) = Some v -> txt body v.
Proof.
  intros H Hb Hv. unfold at_ in Hv.
  destruct (nth_error found (S n)) as [[x|]|] eqn:E; try discriminate.
  inversion Hv; subst x.
  pose proof (@captxt_groupBodies r (S n) v
                (@matchOnce_captxt r groups s found n v H E)) as Hx.
  rewrite Hb in Hx. inversion Hx as [? ? Ht|? ? Ht]; [exact Ht|].
  inversion Ht.
Qed.

Lemma isDigit_cases (c : N) :
  isDigit c = true ->
  (c = 48 \/ c = 49 \/ c = 50 \/ c = 51 \/ c = 52 \/ c = 53 \/ c = 54
   \/ c = 55 \/ c = 56 \/ c = 57)%N.
Proof.
  unfold isDigit. rewrite andb_true_iff, !N.leb_le. lia.
Qed.

Lemma isDigit_not_separator (c : N) :
  isDigit c = true -> isDashOrSpace c = false.
Proof.
  intros H. apply isDigit_cases in H.
  repeat (destruct H as [->|H]; [reflexivity|]). now subst.
Qed.

Lemma isAreaDigit_isDigit (c : N) : isAreaDigit c = true -> isDigit c = true.
Proof.
  unfold isAreaDigit. rewrite !orb_true_iff, !N.eqb_eq.
  intros [[[->| ->]| ->]| ->]; reflexivity.
Qed.

Lemma isTwoToNine_isDigit (c : N) : isTwoToNine c = true -> isDigit c = true.
Proof.
  unfold isTwoToNine, isDigit. rewrite !andb_true_iff, !N.leb_le. lia.
Qed.

Lemma removeAll_digits (w : jsstring) :
  forallb isDigit w = true -> removeAll isDashOrSpace w = w.
Proof.
  unfold removeAll. induction w as [|c w IH]; [reflexivity|]. cbn.
  rewrite andb_true_iff. intros [Hc Hw].
  now rewrite (@isDigit_not_separator c Hc), IH.
Qed.

Lemma removeAll_separator (w : jsstring) :
  txt (Opt (Chr isDashOrSpace)) w -> removeAll isDashOrSpace w = [].
Proof.
  intros H. apply txt_Opt in H. destruct H as [[c [-> Hc]]| ->];
    [|reflexivity].
  unfold removeAll. cbn. now rewrite Hc.
Qed.

(** A string of [n] decimal digits. *)
Definition digits (n : nat) (w : jsstring) : Prop :=
  length w = n /\ forallb isDigit w = true.

Lemma txt_digits (n : nat) (w : jsstring) : txt (Rep n Digit) w -> digits n w.
Proof. apply txt_Rep. Qed.

Lemma digits_app (n m : nat) (u v : jsstring) :
  digits n u -> digits m v -> digits (n + m) (u ++ v).
Proof.
  intros [Hu Fu] [Hv Fv]. split.
  - rewrite length_app. lia.
  - rewrite forallb_app. now rewrite Fu, Fv.
Qed.

(** A mobile number as the pattern finds it, its separator removed. *)
Lemma mobilePattern_shape (v : jsstring) :
  txt mobilePattern v ->
  exists rest, removeAll isDashOrSpace v = lit "05" ++ rest /\ digits 8 rest.
Proof.
  unfold mobilePattern. cbn [txt].
  intros [(u & w & -> & Hu & d1 & w2 & -> & Hd1 & sep & d7 & -> & Hsep & Hd7)
         |(u & d8 & -> & Hu & Hd8)];
    apply txt_Lit in Hu; subst u.
  - apply txt_digits in Hd1, Hd7. exists (d1 ++ d7).
    rewrite !PhoneFacts.removeAll_app, (@removeAll_separator sep Hsep).
    rewrite (@removeAll_digits d1 (proj2 Hd1)), (@removeAll_digits d7 (proj2 Hd7)).
    split; [reflexivity|]. now apply (@digits_app 1 7).
  - apply txt_digits in Hd8. exists d8.
    rewrite PhoneFacts.removeAll_app, (@removeAll_digits d8 (proj2 Hd8)).
    split; [reflexivity | exact Hd8].
Qed.

(** A landline number: the area prefix, and seven digits. *)
Lemma landline_shape (cls : N -> bool) (v : jsstring) :
  (forall c, cls c = true -> isDigit c = true) ->
  txt (Group 1
         (Seq (L "0") (Seq (Chr cls)
              (Seq (Opt (Chr isDashOrSpace)) (Rep 7 Digit))))) v ->
  exists area rest,
    removeAll isDashOrSpace v = lit "0" ++ area :: rest
    /\ cls area = true /\ digits 7 rest.
Proof.
  intros Hcls. cbn [txt].
  intros (u & w & -> & Hu & a & w2 & -> & (area & -> & Ha) & sep & d7 & ->
          & Hsep & Hd7).
  apply txt_Lit in Hu; subst u. apply txt_digits in Hd7.
  exists area, d7.
  rewrite !PhoneFacts.removeAll_app, (@removeAll_separator sep Hsep).
  rewrite (@removeAll_digits d7 (proj2 Hd7)).
  rewrite (@removeAll_digits [area])
    by (cbn; now rewrite (Hcls area Ha)).
  auto.
Qed.

Section WithLower.

Variable toLowerCase : jsstring -> jsstring.

Local Abbreviation extractDataFromText :=
  (Extract.extractDataFromText toLowerCase).

Lemma firstMatch_txt (pattern : regex) (s v : jsstring) :
  firstMatch pattern s = Val (Some v) -> txt pattern v.
Proof.
  unfold firstMatch. destruct (matchAll pattern s) as [found|] eqn:E;
    [|discriminate].
  apply matchAll_txt in E. destruct found as [|x l]; [discriminate|].
  cbn. intros H. inversion H; subst. now inversion E.
Qed.

(** The shape of the mobile number. *)
Definition mobileShape (m : jsstring) : Prop :=
  m = [] \/ exists rest, m = lit "05" ++ rest /\ digits 8 rest.

Lemma extractMobile_shape (s m : jsstring) :
  extractMobile s = Val m -> mobileShape m.
Proof.
  unfold extractMobile.
  destruct (firstMatch mobilePattern s) as [[v|]|] eqn:E; cbn;
    intros H; inversion H; subst.
  - right. apply mobilePattern_shape. now apply firstMatch_txt in E.
  - now left.
Qed.

(** The shape of a landline number with the area digits [cls]. *)
Definition landlineShape (cls : N -> bool) (m : jsstring) : Prop :=
  m = [] \/ exists area rest,
              m = lit "0" ++ area :: rest /\ cls area = true /\ digits 7 rest.

Lemma extractPhone_shape (s m : jsstring) :
  extractPhone s = Val m -> landlineShape isAreaDigit m.
Proof.
  unfold extractPhone.
  destruct (firstMatch phonePattern s) as [[v|]|] eqn:E; cbn;
    intros H; inversion H; subst.
  - right. apply landline_shape; [apply isAreaDigit_isDigit|].
    now apply firstMatch_txt in E.
  - now left.
Qed.

Lemma extractPhone2_shape (s phone m : jsstring) :
  extractPhone2 s phone = Val m -> landlineShape isTwoToNine m.
Proof.
  unfold extractPhone2.
  destruct (matchAll phonePattern2 s) as [found|] eqn:E;
    [|intros H; inversion H; now left].
  apply matchAll_txt in E.
  destruct found as [|a [|b l]]; cbn; try (intros H; inversion H; now left).
  destruct (negb (str_eqb b phone)); intros H; inversion H; [|now left].
  right. apply landline_shape; [apply isTwoToNine_isDigit|].
  inversion E as [|? ? _ E']. now inversion E'.
Qed.

Lemma extractNationalId_shape (s v : jsstring) :
  extractNationalId s = Val v -> v = [] \/ digits 9 v.
Proof.
  unfold extractNationalId.
  destruct (matchOnce nationalIdPattern 1 s) as [found|] eqn:E;
    [|intros H; inversion H; now left].
  destruct (at_ found 1) as [g1|] eqn:G; cbn; [|discriminate].
  intros H. inversion H; subst. right. apply txt_digits.
  now apply (@at_txt nationalIdPattern (Rep 9 Digit) 1 s found 0 v E).
Qed.

Lemma extractZip_shape (s mobile phone v : jsstring) :
  extractZip s mobile phone = Val v ->
  v = []
  \/ (5 <= length v <= 7 /\ forallb isDigit v = true
      /\ includes mobile v = false /\ includes phone v = false).
Proof.
  unfold extractZip.
  destruct (matchOnce zipPattern 1 s) as [found|] eqn:E;
    [|intros H; inversion H; now left].
  destruct (at_ found 1) as [g1|] eqn:G; cbn [bind need]; [|discriminate].
  destruct (negb (includes mobile g1) && negb (includes phone g1)) eqn:N;
    [|intros H; inversion H; now left].
  destruct ((5 <=? length g1) && (length g1 <=? 7)) eqn:B;
    intros H; inversion H; subst; [|now left].
  right. apply andb_true_iff in N, B. destruct N as [N1 N2], B as [B1 B2].
  apply negb_true_iff in N1, N2. apply Nat.leb_le in B1, B2.
  repeat split; try assumption.
  assert (txt (Between 5 2 Digit) v) as Ht
    by now apply (@at_txt zipPattern (Between 5 2 Digit) 1 s found 0 v E).
  unfold Between in Ht. cbn [txt] in Ht.
  destruct Ht as (u & w & -> & Hu & Hw).
  apply txt_Rep in Hu. apply txt_UpTo in Hw.
  rewrite forallb_app. now rewrite (proj2 Hu), (proj2 Hw).
Qed.

Lemma digitsValue_nonneg (s : jsstring) (acc : Z) :
  (0 <= acc)%Z -> (0 <= digitsValue acc s)%Z.
Proof.
  revert acc. induction s as [|c t IH]; intros acc H; cbn [digitsValue];
    [exact H|].
  pose proof (N2Z.is_nonneg (c - 48)).
  destruct (isDigit c); [apply IH; lia | exact H].
Qed.

(** A rounded value is a finite double that is not negative, or
    [Infinity]; below [2^53] nothing is rounded. *)
Lemma toDouble_shape (z : Z) :
  (0 <= z)%Z ->
  toDouble z = Infinity
  \/ exists v, toDouble z = Num v /\ (0 <= v)%Z.
Proof.
  intros Hz. unfold toDouble.
  destruct (z <? 2 ^ 53)%Z; [right; eauto|].
  match goal with
  | |- context [(2 ^ 1024 <=? ?v)%Z] =>
    destruct (2 ^ 1024 <=? v)%Z; [now left|]; right; exists v
  end.
  split; [reflexivity|]. apply Z.shiftl_nonneg.
  assert (0 <= Z.shiftr z (Z.log2 z - 52))%Z by now apply Z.shiftr_nonneg.
  match goal with |- context [if ?b then _ else _] => destruct b end; lia.
Qed.

Lemma toDouble_exact (z : Z) : (z < 2 ^ 53)%Z -> toDouble z = Num z.
Proof.
  intros H. unfold toDouble.
  now replace (z <? 2 ^ 53)%Z with true by (symmetry; now apply Z.ltb_lt).
Qed.

Example parseInt_rounds :
  parseInt (lit "12") = Num 12
  /\ parseInt (lit "9007199254740993") = Num 9007199254740992
  /\ parseInt (repeat 57%N 309) = Infinity.
Proof. repeat split; vm_compute; reflexivity. Qed.

Lemma extractExperience_shape (s : jsstring) (e : option JsNumber) :
  extractExperience s = Val e ->
  e = None \/ e = Some Infinity
  \/ exists years, e = Some (Num years) /\ (0 <= years)%Z.
Proof.
  unfold extractExperience.
  destruct (matchOnce experiencePattern 1 s) as [found|] eqn:E;
    [|intros H; inversion H; now left].
  destruct (at_ found 1) as [g1|] eqn:G; cbn [bind need]; [|discriminate].
  intros H. inversion H; subst. right.
  assert (txt (Plus Digit) g1) as Ht
    by now apply (@at_txt experiencePattern (Plus Digit) 1 s found 0 g1 E).
  apply txt_Plus in Ht. destruct Ht as [Hne Hd].
  destruct g1 as [|c t]; [congruence|]. cbn in Hd.
  apply andb_true_iff in Hd. destruct Hd as [Hc _].
  unfold parseInt. rewrite Hc.
  destruct (@toDouble_shape (digitsValue 0 (c :: t)))
    as [->|[v [-> Hv]]]; [now apply digitsValue_nonneg | now left |].
  right. eauto.
Qed.

(** The shape of the address: a local part, [@], a domain, a dot and
    two letters or more. *)
Definition emailShape (m : jsstring) : Prop :=
  m = []
  \/ exists name domain tld,
       m = name ++ lit "@" ++ domain ++ lit "." ++ tld
       /\ name <> [] /\ forallb isMailChar name = true
       /\ domain <> [] /\ forallb isMailChar domain = true
       /\ 2 <= length tld /\ forallb isLetter tld = true.

Lemma extractEmail_shape (s m : jsstring) :
  extractEmail s = Val m -> emailShape m.
Proof.
  unfold extractEmail.
  destruct (firstMatch emailPattern s) as [[v|]|] eqn:E; cbn;
    intros H; inversion H; subst; [|now left].
  right. apply firstMatch_txt in E. unfold emailPattern, AtLeast in E.
  cbn [txt] in E.
  destruct E as (name & w1 & -> & Hname & at_sign & w2 & -> & Hat & domain & w3
                 & -> & Hdomain & dot & tld & -> & Hdot & t2 & ts & -> & Ht2
                 & Hts).
  apply txt_Lit in Hat, Hdot. subst at_sign dot.
  apply txt_Plus in Hname, Hdomain. apply txt_Rep in Ht2.
  apply txt_Star in Hts.
  exists name, domain, (t2 ++ ts). split; [reflexivity|].
  destruct Hname as [? ?], Hdomain as [? ?], Ht2 as [Hl Hf].
  repeat split; try assumption.
  - rewrite length_app. lia.
  - rewrite forallb_app. now rewrite Hf, Hts.
Qed.

Lemma extractStreet_shape (s street number : jsstring) :
  extractStreet s = Val (street, number) ->
  (street = [] /\ number = [])
  \/ (number <> [] /\ forallb isDigit number = true).
Proof.
  unfold extractStreet.
  destruct (matchOnce streetPattern 2 s) as [found|] eqn:E;
    [|intros H; inversion H; now left].
  destruct (at_ found 1) as [g1|] eqn:G1; cbn [bind need]; [|discriminate].
  destruct (at_ found 2) as [g2|] eqn:G2; cbn [bind need]; [|discriminate].
  intros H. inversion H; subst. right. apply txt_Plus.
  now apply (@at_txt streetPattern (Plus Digit) 2 s found 1 number E).
Qed.

Lemma keywordField_In (p : jsstring -> bool) (keywords : list jsstring) :
  In (keywordField (find p keywords)) ([] :: keywords).
Proof.
  unfold keywordField. destruct (find p keywords) as [k|] eqn:E;
    [|now left].
  apply find_some in E. destruct (truthy k); [right; tauto | now left].
Qed.

Lemma extractCity_In (upperThird text : jsstring) :
  In (extractCity upperThird text) ([] :: israeliCities).
Proof.
  unfold extractCity.
  match goal with |- context [find ?p ?l] => exact (keywordField_In p l) end.
Qed.

Lemma dropWhile_length (p : N -> bool) (s : jsstring) :
  length (dropWhile p s) <= length s.
Proof.
  induction s as [|c t IH]; cbn; [lia|]. destruct (p c); cbn; lia.
Qed.

Lemma trim_length (s : jsstring) : length (trim s) <= length s.
Proof.
  unfold trim, trimEnd, trimStart. rewrite length_rev.
  etransitivity; [apply dropWhile_length|]. rewrite length_rev.
  apply dropWhile_length.
Qed.

Lemma extractAchievements_length (text : jsstring) :
  length (extractAchievements toLowerCase text) <= 300.
Proof.
  unfold extractAchievements.
  destruct (findKeyword toLowerCase achievementKeywords text) as [k|];
    [|cbn; lia].
  destruct (truthy k); [|cbn; lia].
  destruct (indexOf (toLowerCase text) (toLowerCase k)) as [i|]; [|cbn; lia].
  etransitivity; [apply trim_length|]. unfold substring.
  rewrite length_firstn. lia.
Qed.

(** A returned record holds what each heuristic returned. *)
Lemma extractDataFromText_parts (text : jsstring) (data : ExtractedData) :
  extractDataFromText text = Val data ->
  let upperThird := substring 0 (upperThirdLength text) text in
  extractEmail upperThird = Val (email data)
  /\ extractMobile upperThird = Val (mobile data)
  /\ extractPhone upperThird = Val (phone data)
  /\ extractStreet upperThird = Val (street data, houseNumber data)
  /\ extractZip upperThird (mobile data) (phone data) = Val (zipCode data)
  /\ extractName upperThird = Val (firstName data, lastName data)
  /\ extractExperience text = Val (experience data)
  /\ extractNationalId upperThird = Val (nationalId data)
  /\ extractPhone2 upperThird (phone data) = Val (phone2 data)
  /\ city data = extractCity upperThird text
  /\ profession data
     = keywordField (findKeyword toLowerCase professionKeywords text)
  /\ gender data = keywordField (findKeyword toLowerCase genderKeywords text)
  /\ maritalStatus data
     = keywordField (findKeyword toLowerCase maritalKeywords text)
  /\ drivingLicense data = extractLicense text
  /\ achievements data = extractAchievements toLowerCase text.
Proof.
  intros H. unfold Extract.extractDataFromText in H. cbv zeta in *.
  set (upperThird := substring 0 (upperThirdLength text) text) in *.
  destruct (extractEmail upperThird) as [e|]; [|discriminate].
  destruct (extractMobile upperThird) as [m|]; [|discriminate].
  destruct (extractPhone upperThird) as [p|]; [|discriminate].
  destruct (extractStreet upperThird) as [[st hn]|]; [|discriminate].
  cbn [bind] in H.
  destruct (extractZip upperThird m p) as [z|] eqn:Ez; [|discriminate].
  destruct (extractName upperThird) as [[fn ln]|]; [|discriminate].
  destruct (extractExperience text) as [x|]; [|discriminate].
  destruct (extractNationalId upperThird) as [ni|]; [|discriminate].
  cbn [bind] in H.
  destruct (extractPhone2 upperThird p) as [p2|] eqn:Ep2; [|discriminate].
  cbn [bind] in H. inversion H; subst. cbn.
  repeat split; assumption.
Qed.

Lemma extractDataFromText_returns (text : jsstring) :
  exists data, extractDataFromText text = Val data.
Proof.
  unfold Extract.extractDataFromText.
  set (upperThird := substring 0 (upperThirdLength text) text).
  destruct (extractEmail_total upperThird) as [e ->]. cbn [bind].
  destruct (extractMobile_total upperThird) as [m ->]. cbn [bind].
  destruct (extractPhone_total upperThird) as [p ->]. cbn [bind].
  destruct (extractStreet_total upperThird) as [st ->]. cbn [bind].
  destruct (extractZip_total upperThird m p) as [z ->]. cbn [bind].
  destruct (extractName_total upperThird) as [names ->]. cbn [bind].
  destruct (extractExperience_total text) as [x ->]. cbn [bind].
  destruct (extractNationalId_total upperThird) as [ni ->]. cbn [bind].
  destruct (extractPhone2_total upperThird p) as [p2 ->]. cbn [bind].
  eauto.
Qed.

(** The contact fields of every extraction: the e-mail is empty or an
    address with a local part, a domain and a top-level name of two
    letters or more; the mobile is empty or [05] and eight digits, with
    no separator left; the phone is empty or [0], one of 3, 4, 8, 9 and
    seven digits; the second phone is empty or [0], a digit from 2 to 9
    and seven digits. *)
Theorem extractDataFromText_contact (text : jsstring) :
  exists data,
    extractDataFromText text = Val data
    /\ emailShape (email data)
    /\ mobileShape (mobile data)
    /\ landlineShape isAreaDigit (phone data)
    /\ landlineShape isTwoToNine (phone2 data).
Proof.
  destruct (extractDataFromText_returns text) as [data H].
  exists data. split; [exact H|].
  apply extractDataFromText_parts in H.
  destruct H as (He & Hm & Hp & _ & _ & _ & _ & _ & Hp2 & _).
  split; [exact (@extractEmail_shape _ _ He)|].
  split; [exact (@extractMobile_shape _ _ Hm)|].
  split; [exact (@extractPhone_shape _ _ Hp)|].
  exact (@extractPhone2_shape _ _ _ Hp2).
Qed.

(** The numeric fields of every extraction: the national id is empty or
    nine digits; the zip code is empty or five to seven digits that do
    not occur in the mobile or in the phone; the house number is empty,
    together with the street, or a run of digits; the experience is
    null, [Infinity] or a finite number that is not negative, never
    [NaN]. *)
Theorem extractDataFromText_numbers (text : jsstring) :
  exists data,
    extractDataFromText text = Val data
    /\ (nationalId data = [] \/ digits 9 (nationalId data))
    /\ (zipCode data = []
        \/ (5 <= length (zipCode data) <= 7
            /\ forallb isDigit (zipCode data) = true
            /\ includes (mobile data) (zipCode data) = false
            /\ includes (phone data) (zipCode data) = false))
    /\ ((street data = [] /\ houseNumber data = [])
        \/ (houseNumber data <> []
            /\ forallb isDigit (houseNumber data) = true))
    /\ (experience data = None
        \/ experience data = Some Infinity
        \/ exists years, experience data = Some (Num years)
                         /\ (0 <= years)%Z).
Proof.
  destruct (extractDataFromText_returns text) as [data H].
  exists data. split; [exact H|].
  apply extractDataFromText_parts in H.
  destruct H as (_ & _ & _ & Hs & Hz & _ & Hx & Hn & _).
  split; [exact (@extractNationalId_shape _ _ Hn)|].
  split; [exact (@extractZip_shape _ _ _ _ Hz)|].
  split; [exact (@extractStreet_shape _ _ _ Hs)|].
  exact (@extractExperience_shape _ _ Hx).
Qed.

(** The fields of every extraction taken from fixed lists: the city,
    the profession, the gender and the marital status are empty or an
    entry of their list, spelled as in the list whatever the case in the
    text; the driving license is empty or the word for yes; and the
    achievements hold 300 characters at most. *)
Theorem extractDataFromText_vocabulary (text : jsstring) :
  exists data,
    extractDataFromText text = Val data
    /\ In (city data) ([] :: israeliCities)
    /\ In (profession data) ([] :: professionKeywords)
    /\ In (gender data) ([] :: genderKeywords)
    /\ In (maritalStatus data) ([] :: maritalKeywords)
    /\ In (drivingLicense data) [[]; lit "כן"]
    /\ length (achievements data) <= 300.
Proof.
  destruct (extractDataFromText_returns text) as [data H].
  exists data. split; [exact H|].
  apply extractDataFromText_parts in H.
  destruct H as (_ & _ & _ & _ & _ & _ & _ & _ & _ & Hc & Hp & Hg & Hm & Hl
                 & Ha).
  rewrite Hc, Hp, Hg, Hm, Hl, Ha.
  split; [apply extractCity_In|].
  split; [apply keywordField_In|].
  split; [apply keywordField_In|].
  split; [apply keywordField_In|].
  split; [|apply extractAchievements_length].
  unfold extractLicense.
  destruct (matchOnce licensePattern 0 text); [right; now left | now left].
Qed.

End WithLower.

End ExtractFacts.

(* ================================================================= *)
(** ** Reading a message: [isJobApplicationEmail] and [parseCandidate] *)

Module Mailbox.

Import Regex Inbound.
Import Extract(Exc, Val, Fault, bind, need, at_, L, LI).

Local Notation "x <- e ;; k" := (bind e (fun x => k))
  (at level 61, e at next level, right associativity).

(** [[A-Z0-9-]] under the [i] flag. *)
Definition isJobCodeChar (c : N) : bool :=
  (isUpper c || isLower c || isDigit c || (c =? 45))%N.
(** [[a-zA-Z0-9._%+-]] *)
Definition isAddressChar (c : N) : bool :=
  (Extract.isLetter c || isDigit c || (c =? 46) || (c =? 95) || (c =? 37)
   || (c =? 43) || (c =? 45))%N.
(** [[a-zA-Z0-9.-]] *)
Definition isDomainChar (c : N) : bool :=
  (Extract.isLetter c || isDigit c || (c =? 46) || (c =? 45))%N.
(** The characters that [.] does not match. *)
Definition isLineTerminator (c : N) : bool :=
  ((c =? 10) || (c =? 13) || (c =? 8232) || (c =? 8233))%N.
Definition isNotLineTerminator (c : N) : bool := negb (isLineTerminator c).
Definition isDoubleQuote (c : N) : bool := (c =? 34)%N.
Definition isNotDoubleQuote (c : N) : bool := negb (c =? 34)%N.

(** [EMAIL_PATTERNS.jobCode]:
    [/(?:קוד משרה|Job ID|משרה|#)\s*:?\s*([A-Z0-9-]+)/i] *)
Definition jobCodePattern : regex :=
  Seq (Alt (L "קוד משרה") (Alt (LI "Job ID") (Alt (L "משרה") (L "#"))))
  (Seq (Star Space)
  (Seq (Opt (L ":"))
  (Seq (Star Space)
       (Group 1 (Plus (Chr isJobCodeChar)))))).

(** [EMAIL_PATTERNS.email]:
    [/([a-zA-Z0-9._%+-]+@[a-zA-Z0-9.-]+\.[a-zA-Z]{2,})/g] *)
Definition emailPattern : regex :=
  Group 1
    (Seq (Plus (Chr isAddressChar))
    (Seq (L "@")
    (Seq (Plus (Chr isDomainChar))
    (Seq (L ".")
         (AtLeast 2 (Chr Extract.isLetter)))))).

(** [EMAIL_PATTERNS.phone]:
    [/(?:05[0-9]|02|03|04|08|09)[-\s]?[0-9]{3}[-\s]?[0-9]{4}/g] *)
Definition phonePattern : regex :=
  Seq (Alt (Seq (L "05") Digit)
      (Alt (L "02") (Alt (L "03") (Alt (L "04") (Alt (L "08") (L "09"))))))
  (Seq (Opt (Chr Extract.isDashOrSpace))
  (Seq (Rep 3 Digit)
  (Seq (Opt (Chr Extract.isDashOrSpace))
       (Rep 4 Digit)))).

(** [EMAIL_PATTERNS.name]: [/(?:שם|שלום|היי)\s*:?\s*([א-ת\s]{2,30})/i] *)
Definition namePattern : regex :=
  Seq (Alt (L "שם") (Alt (L "שלום") (L "היי")))
  (Seq (Star Space)
  (Seq (Opt (L ":"))
  (Seq (Star Space)
       (Group 1 (Between 2 28 (Chr Extract.isHebrewOrSpace)))))).

(** [/<(.+)>/] *)
Definition anglePattern : regex :=
  Seq (L "<") (Seq (Group 1 (Plus (Chr isNotLineTerminator))) (L ">")).

(** The pattern of a quoted display name: a double quote, one character
    or more that are not one, a double quote. *)
Definition quotedPattern : regex :=
  Seq (Chr isDoubleQuote)
      (Seq (Group 1 (Plus (Chr isNotDoubleQuote))) (Chr isDoubleQuote)).

Definition applicationKeywords : list jsstring :=
  [ lit "קורות חיים"; lit "קןרות חיים"; lit "קוח"; lit "cv"; lit "resume"
  ; lit "מועמדות"; lit "השתלמתי"; lit "התמחות"; lit "משרה"; lit "job"
  ; lit "application"; lit "apply"; lit "candidate"; lit "נשלח מאתר"
  ; lit "drushim"; lit "indeed"; lit "linkedin"; lit "jobmaster"
  ; lit "alljobs"; lit "משרת שטח"; lit "משרת חשמל" ].

(** [x || undefined] on a string. *)
Definition orUndefined (s : jsstring) : option jsstring :=
  if truthy s then Some s else None.

(** [nameParts[0] || ''] and [nameParts.slice(1).join(' ') || ''] for
    [nameParts = s.trim().split(/\s+/)]. *)
Definition splitName (s : jsstring) : jsstring * jsstring :=
  let nameParts := splitSpacesFrom [] false (trim s) in
  (Search.orEmpty (nth_error nameParts 0), join (lit " ") (skipn 1 nameParts)).

(** [s.replace(/[._]/g, ' ')] *)
Definition dotsToSpaces (s : jsstring) : jsstring :=
  map (fun c => if ((c =? 46) || (c =? 95))%N then 32%N else c) s.

(** The names taken from the address when nothing else gives them. *)
Definition namesFromAddress (candidateEmail : jsstring)
  : Exc (jsstring * jsstring) :=
  beforeAt <- need (nth_error (split 64 candidateEmail) 0) ;;
  let emailName := dotsToSpaces beforeAt in
  let emailParts :=
    filter (fun part => 1 <? length part) (split 32 emailName) in
  if 2 <=? length emailParts then
    first <- need (nth_error emailParts 0) ;;
    Val (first, join (lit " ") (skipn 1 emailParts))
  else Val ([], []).

(** [parseCandidate(subject, body, from)]; reading a group of a match
    that did not set it, or an element an array does not have, and then
    using it as a string, is a fault. *)
Definition parseCandidate (subject body from : jsstring)
  : Exc ParsedCandidate :=
  let fullText := subject ++ nl ++ body in
  let jobCodeMatch := matchOnce jobCodePattern 1 fullText in
  let jobCode :=
    match jobCodeMatch with Some m => at_ m 1 | None => None end in
  let emailMatches := matchAll emailPattern fullText in
  candidateEmail <-
    match emailMatches with
    | Some found => need (nth_error found 0)
    | None =>
      match matchOnce anglePattern 1 from with
      | Some m => need (at_ m 1)
      | None => Val from
      end
    end ;;
  let phoneMatches := matchAll phonePattern fullText in
  phone <-
    match phoneMatches with
    | Some found =>
      m0 <- need (nth_error found 0) ;;
      Val (Some (removeAll Extract.isDashOrSpace m0))
    | None => Val None
    end ;;
  names <-
    match matchOnce namePattern 1 fullText with
    | Some nameMatch =>
      g1 <- need (at_ nameMatch 1) ;; Val (splitName g1)
    | None =>
      senderName <-
        match matchOnce quotedPattern 1 from with
        | Some m => need (at_ m 1)
        | None => Val []
        end ;;
      if truthy senderName && negb (str_eqb senderName candidateEmail)
      then Val (splitName senderName)
      else namesFromAddress candidateEmail
    end ;;
  Val {| pc_firstName := orUndefined (fst names);
         pc_lastName := orUndefined (snd names);
         pc_email := Some candidateEmail;
         pc_phone := phone;
         pc_jobCode := jobCode;
         pc_originalSubject := Some subject;
         pc_originalBody := Some (substring 0 500 body) |}.

Section WithBuiltins.

(** [String.prototype.toLowerCase] and the database's [LOWER]. *)
Variable toLowerCase : jsstring -> jsstring.
Variable LOWER : jsstring -> jsstring.

(** [isJobApplicationEmail(subject, body, from)] *)
Definition isJobApplicationEmail (subject body from : jsstring) : bool :=
  let text := toLowerCase (subject ++ lit " " ++ body ++ lit " " ++ from) in
  existsb (fun keyword => includes text keyword) applicationKeywords.

(** The handler that [checkCpanelEmails] runs on one parsed message,
    from the call of [isJobApplicationEmail] on: [subject], [body] and
    [from] are [parsed.subject || ''], [parsed.text || ''] and
    [parsed.from?.text || '']; an error is caught and logged. *)
Definition onMessage (d1 d2 : Defaults) (subject body from : jsstring)
  (db : DB) : DB :=
  if isJobApplicationEmail subject body from then
    match parseCandidate subject body from with
    | Val candidate =>
      if Search.present (pc_email candidate)
      then createCandidateFromEmail LOWER d1 d2 candidate db
      else db
    | Fault => db
    end
  else db.

End WithBuiltins.

Example parseCandidate_example :
  parseCandidate (lit "מועמדות למשרה #A-17")
    (lit "שלום, שמי דנה. טלפון 052-123 4567, dana.levi@x.org")
    ([34%N] ++ lit "Dana Levi" ++ [34%N] ++ lit " <dana@y.org>")
  = Val {| pc_firstName := Some (lit "Dana");
           pc_lastName := Some (lit "Levi");
           pc_email := Some (lit "dana.levi@x.org");
           pc_phone := Some (lit "0521234567");
           pc_jobCode := Some (lit "A-17");
           pc_originalSubject := Some (lit "מועמדות למשרה #A-17");
           pc_originalBody :=
             Some (lit "שלום, שמי דנה. טלפון 052-123 4567, dana.levi@x.org") |}.
Proof. vm_compute. reflexivity. Qed.

End Mailbox.

Module MailboxFacts.

Import Regex RegexFacts Inbound Mailbox.
Import Extract(Exc, Val, Fault, bind, need, at_, L, LI).
Import ExtractFacts(digits, txt_digits, digits_app, removeAll_digits,
                    removeAll_separator, at_txt).

Lemma split_first (c : N) (s : jsstring) :
  exists p ps, split c s = p :: ps.
Proof.
  induction s as [|x t IH]; cbn; [eauto|].
  destruct (x =? c)%N; [eauto|]. destruct IH as [p [ps ->]]. eauto.
Qed.

Lemma namesFromAddress_total (candidateEmail : jsstring) :
  exists names, namesFromAddress candidateEmail = Val names.
Proof.
  unfold namesFromAddress.
  destruct (split_first 64 candidateEmail) as [p [ps ->]]. cbn [nth_error need bind].
  destruct (filter (fun part => 1 <? length part)
                   (split 32 (dotsToSpaces p))) as [|a [|b l]];
    cbn; eauto.
Qed.

Lemma orUndefined_not_empty (s : jsstring) : orUndefined s <> Some [].
Proof. unfold orUndefined. destruct s; discriminate. Qed.

(** The prefix of a phone number. *)
Lemma phonePrefix_shape (pre : jsstring) :
  txt (Alt (Seq (L "05") Digit)
      (Alt (L "02") (Alt (L "03") (Alt (L "04") (Alt (L "08") (L "09"))))))
      pre ->
  exists second more,
    pre = lit "0" ++ second :: more
    /\ forallb isDigit (second :: more) = true /\ length more <= 1.
Proof.
  cbn [txt].
  intros [(u & w & -> & Hu & (d & -> & Hd))|[H|[H|[H|[H|H]]]]];
    try (apply txt_Lit in H; subst pre; eexists _, []; repeat split;
         cbn; lia).
  apply txt_Lit in Hu. subst u. exists 53%N, [d]. cbn.
  rewrite Hd. repeat split. lia.
Qed.

(** The shape of the phone of a message: digits only, nine or ten of
    them, the first a zero. *)
Definition phoneShape (p : jsstring) : Prop :=
  forallb isDigit p = true
  /\ (length p = 9 \/ length p = 10)
  /\ firstn 1 p = lit "0".

Lemma phonePattern_shape (v : jsstring) :
  txt phonePattern v -> phoneShape (removeAll Extract.isDashOrSpace v).
Proof.
  unfold phonePattern. cbn [txt].
  intros (pre & w1 & -> & Hpre & sep1 & w2 & -> & Hsep1 & d3 & w3 & -> & Hd3
          & sep2 & d4 & -> & Hsep2 & Hd4).
  apply phonePrefix_shape in Hpre.
  destruct Hpre as (second & more & -> & Hdig & Hlen).
  apply txt_digits in Hd3, Hd4. destruct Hd3 as [L3 F3], Hd4 as [L4 F4].
  rewrite !PhoneFacts.removeAll_app.
  rewrite (@removeAll_separator sep1 Hsep1), (@removeAll_separator sep2 Hsep2).
  rewrite (@removeAll_digits d3 F3), (@removeAll_digits d4 F4).
  rewrite (@removeAll_digits (second :: more) Hdig).
  change (removeAll Extract.isDashOrSpace (lit "0")) with (lit "0").
  unfold phoneShape. cbn [app]. split; [|split].
  - change (lit "0" ++ second :: more ++ d3 ++ d4)
      with ((lit "0" ++ second :: more) ++ d3 ++ d4).
    rewrite !forallb_app, F3, F4.
    change (forallb isDigit (lit "0" ++ second :: more))
      with (forallb isDigit (second :: more)).
    now rewrite Hdig.
  - change (length (lit "0" ++ second :: more ++ d3 ++ d4))
      with (S (S (length (more ++ d3 ++ d4)))).
    rewrite !length_app, L3, L4.
    destruct more as [|m [|m' more']]; cbn in *; lia.
  - reflexivity.
Qed.

(** The shape of an address found in the text. *)
Definition addressShape (m : jsstring) : Prop :=
  exists name domain tld,
    m = name ++ lit "@" ++ domain ++ lit "." ++ tld
    /\ name <> [] /\ forallb isAddressChar name = true
    /\ domain <> [] /\ forallb isDomainChar domain = true
    /\ 2 <= length tld /\ forallb Extract.isLetter tld = true.

Lemma emailPattern_shape (v : jsstring) :
  txt emailPattern v -> addressShape v.
Proof.
  unfold emailPattern, AtLeast. cbn [txt].
  intros (name & w1 & -> & Hname & at_sign & w2 & -> & Hat & domain & w3
          & -> & Hdomain & dot & tld & -> & Hdot & t2 & ts & -> & Ht2 & Hts).
  apply txt_Lit in Hat, Hdot. subst at_sign dot.
  apply txt_Plus in Hname, Hdomain. apply txt_Rep in Ht2.
  apply txt_Star in Hts.
  exists name, domain, (t2 ++ ts). split; [reflexivity|].
  destruct Hname as [? ?], Hdomain as [? ?], Ht2 as [Hl Hf].
  repeat split; try assumption.
  - rewrite length_app. lia.
  - rewrite forallb_app. now rewrite Hf, Hts.
Qed.

(** Every message parses: the e-mail is a string - the first address in
    the subject and the body when they hold one, whatever the sender -
    the names are never the empty string, the subject is kept, the body
    is cut to its first 500 characters, the phone is undefined or nine
    or ten digits that begin with a zero, no separator left, and the job
    code is undefined or a run of letters, digits and dashes. *)
Theorem parseCandidate_fields (subject body from : jsstring) :
  exists data e,
    parseCandidate subject body from = Val data
    /\ pc_email data = Some e
    /\ (forall found,
          matchAll emailPattern (subject ++ nl ++ body) = Some found ->
          nth_error found 0 = Some e /\ addressShape e)
    /\ pc_firstName data <> Some []
    /\ pc_lastName data <> Some []
    /\ pc_originalSubject data = Some subject
    /\ pc_originalBody data = Some (firstn 500 body)
    /\ (forall p, pc_phone data = Some p -> phoneShape p)
    /\ (forall code, pc_jobCode data = Some code ->
          code <> [] /\ forallb isJobCodeChar code = true).
Proof.
  unfold parseCandidate.
  set (fullText := subject ++ nl ++ body).
  (* the e-mail *)
  assert (exists e,
            match matchAll emailPattern fullText with
            | Some found => need (nth_error found 0)
            | None =>
              match matchOnce anglePattern 1 from with
              | Some m => need (at_ m 1)
              | None => Val from
              end
            end = Val e
            /\ forall found, matchAll emailPattern fullText = Some found ->
                 nth_error found 0 = Some e /\ addressShape e)
    as [e [-> He]].
  { destruct (matchAll emailPattern fullText) as [found|] eqn:E.
    - pose proof (matchAll_txt _ _ E) as Ht.
      destruct found as [|v l]; [apply matchAll_first in E;
                                 destruct E as [? E]; discriminate|].
      exists v. split; [reflexivity|]. intros found' H. inversion H; subst.
      split; [reflexivity|]. apply emailPattern_shape. now inversion Ht.
    - destruct (matchOnce anglePattern 1 from) as [m|] eqn:Ea.
      + destruct (@Extract.at_group anglePattern 1 from m 1 Ea eq_refl
                    ltac:(lia)) as [v ->].
        exists v. split; [reflexivity | discriminate].
      + exists from. split; [reflexivity | discriminate]. }
  cbn [bind].
  (* the phone *)
  assert (exists phone,
            match matchAll phonePattern fullText with
            | Some found =>
              bind (need (nth_error found 0))
                   (fun m0 => Val (Some (removeAll Extract.isDashOrSpace m0)))
            | None => Val None
            end = Val phone
            /\ forall p, phone = Some p -> phoneShape p) as [phone [-> Hp]].
  { destruct (matchAll phonePattern fullText) as [found|] eqn:E.
    - pose proof (matchAll_txt _ _ E) as Ht.
      destruct found as [|v l]; [apply matchAll_first in E;
                                 destruct E as [? E]; discriminate|].
      eexists. split; [reflexivity|]. intros p H. inversion H; subst.
      apply phonePattern_shape. now inversion Ht.
    - exists None. split; [reflexivity | discriminate]. }
  cbn [bind].
  (* the names *)
  assert (exists names,
            match matchOnce namePattern 1 fullText with
            | Some nameMatch =>
              bind (need (at_ nameMatch 1)) (fun g1 => Val (splitName g1))
            | None =>
              bind (match matchOnce quotedPattern 1 from with
                    | Some m => need (at_ m 1)
                    | None => Val []
                    end)
                   (fun senderName =>
                      if truthy senderName
                         && negb (str_eqb senderName e)
                      then Val (splitName senderName)
                      else namesFromAddress e)
            end = Val names) as [names ->].
  { destruct (matchOnce namePattern 1 fullText) as [m|] eqn:En.
    - destruct (@Extract.at_group namePattern 1 fullText m 1 En eq_refl
                  ltac:(lia)) as [v ->].
      cbn. eauto.
    - assert (exists senderName,
                match matchOnce quotedPattern 1 from with
                | Some m => need (at_ m 1)
                | None => Val []
                end = Val senderName) as [senderName ->].
      { destruct (matchOnce quotedPattern 1 from) as [m|] eqn:Eq; [|eauto].
        destruct (@Extract.at_group quotedPattern 1 from m 1 Eq eq_refl
                    ltac:(lia)) as [v ->].
        cbn. eauto. }
      cbn [bind].
      destruct (truthy senderName && negb (str_eqb senderName e));
        [eauto | apply namesFromAddress_total]. }
  cbn [bind].
  eexists _, e. split; [reflexivity|].
  cbn [pc_email pc_firstName pc_lastName pc_originalSubject pc_originalBody
       pc_phone pc_jobCode].
  split; [reflexivity|]. split; [exact He|].
  split; [apply orUndefined_not_empty|].
  split; [apply orUndefined_not_empty|].
  split; [reflexivity|].
  split; [reflexivity|].
  split; [exact Hp|].
  intros code Hcode.
  destruct (matchOnce jobCodePattern 1 fullText) as [m|] eqn:Ej;
    [|discriminate].
  apply txt_Plus.
  now apply (@at_txt jobCodePattern (Plus (Chr isJobCodeChar)) 1 fullText
               m 0 code Ej).
Qed.

Section WithBuiltins.

Variable toLowerCase : jsstring -> jsstring.
Variable LOWER : jsstring -> jsstring.
Hypothesis LOWER_app : forall a b, LOWER (a ++ b) = LOWER a ++ LOWER b.
Hypothesis LOWER_percent : LOWER (lit "%") = lit "%".

(** A message that the classifier accepts and that yields an e-mail,
    handled a second time after it was handled once, adds no candidate
    and no application: the second handling rewrites the rows with the
    id of one candidate, which carries the e-mail of the message and
    whose notes receive the block of the message once more. *)
Theorem onMessage_again (d1 d2 d3 d4 : Defaults)
  (subject body from : jsstring) (db : DB)
  (data : ParsedCandidate) (e : jsstring) :
  NoDup (map id (candidates db)) ->
  isJobApplicationEmail toLowerCase subject body from = true ->
  parseCandidate subject body from = Val data ->
  pc_email data = Some e -> e <> [] ->
  Forall (fun x => (x =? 92)%N = false) (LOWER e) ->
  length (InboundFacts.hits LOWER e db) < 100 ->
  let db1 := onMessage toLowerCase LOWER d1 d2 subject body from db in
  let db2 := onMessage toLowerCase LOWER d3 d4 subject body from db1 in
  exists x,
    In x (candidates db1) /\ email x = Some e
    /\ Permutation
         (candidates db2)
         (map (fun c => if str_eqb (id c) (id x)
                        then applyPatch (now d3) (mergePatch data x) c
                        else c)
              (candidates db1))
    /\ notes (applyPatch (now d3) (mergePatch data x) x)
       = Some (trim (Search.orEmpty (notes x) ++ newMailBlock data))
    /\ jobApplications db2 = jobApplications db1
    /\ jobs db2 = jobs db1
    /\ candidateEvents db2 = candidateEvents db1.
Proof.
  intros Hnd Hjob Hparse He Hne Hb Hlen db1 db2.
  assert (Search.present (pc_email data) = true) as Hpresent.
  { rewrite He. cbn. destruct e; [congruence | reflexivity]. }
  assert (forall d d' store,
            onMessage toLowerCase LOWER d d' subject body from store
            = createCandidateFromEmail LOWER d d' data store) as Hon.
  { intros d d' store. unfold onMessage.
    now rewrite Hjob, Hparse, Hpresent. }
  unfold db2, db1. rewrite !Hon.
  destruct (@InboundFacts.createCandidateFromEmail_settled LOWER LOWER_app
              LOWER_percent d1 d2 d3 d4 data db e Hnd He Hne Hb Hlen)
    as [x [Hx E2]].
  exists x. rewrite E2.
  apply matched_some in Hx. destruct Hx as [Hin [Hse _]].
  apply (@InboundFacts.sameEmail_email data e x He) in Hse.
  split; [exact Hin|]. split; [exact Hse|].
  split; [reflexivity|]. repeat split.
Qed.

End WithBuiltins.

End MailboxFacts.

Definition parsedNoa : Inbound.ParsedCandidate :=
  {| Inbound.pc_firstName := None;
     Inbound.pc_lastName := None;
     Inbound.pc_email := Some (lit "noa@x.org");
     Inbound.pc_phone := None;
     Inbound.pc_jobCode := Some (lit "J-7");
     Inbound.pc_originalSubject := Some (lit "Job ID: J-7");
     Inbound.pc_originalBody := Some (lit "cv attached, noa@x.org") |}.

Lemma onMessage_again_witness :
  let db1 := Mailbox.onMessage asciiLower asciiLower Inbound.t1 Inbound.t2
               (lit "Job ID: J-7") (lit "cv attached, noa@x.org")
               (lit "Noa <noa@x.org>") danaAndJob in
  let db2 := Mailbox.onMessage asciiLower asciiLower
               {| newId := lit "cand-3"; now := 12%Z |}
               {| newId := lit "app-10"; now := 12%Z |}
               (lit "Job ID: J-7") (lit "cv attached, noa@x.org")
               (lit "Noa <noa@x.org>") db1 in
  exists x,
    In x (candidates db1) /\ email x = Some (lit "noa@x.org")
    /\ Permutation
         (candidates db2)
         (map (fun c => if str_eqb (id c) (id x)
                        then Inbound.applyPatch 12
                               (Inbound.mergePatch parsedNoa x) c
                        else c)
              (candidates db1))
    /\ notes (Inbound.applyPatch 12
                (Inbound.mergePatch parsedNoa x) x)
       = Some (trim (Search.orEmpty (notes x)
                     ++ Inbound.newMailBlock parsedNoa))
    /\ jobApplications db2 = jobApplications db1
    /\ jobs db2 = jobs db1
    /\ candidateEvents db2 = candidateEvents db1.
Proof.
  apply (@MailboxFacts.onMessage_again asciiLower asciiLower
           (fun a b => map_app _ a b) eq_refl
           Inbound.t1 Inbound.t2
           {| newId := lit "cand-3"; now := 12%Z |}
           {| newId := lit "app-10"; now := 12%Z |}
           (lit "Job ID: J-7") (lit "cv attached, noa@x.org")
           (lit "Noa <noa@x.org>") danaAndJob parsedNoa (lit "noa@x.org")).
  - repeat constructor. simpl. tauto.
  - vm_compute. reflexivity.
  - vm_compute. reflexivity.
  - reflexivity.
  - discriminate.
  - repeat constructor.
  - vm_compute. lia.
Defined.
